(** * ClawSync: tool assembly, MCP client, chat gate, web fetch, model switch

    A shallow embedding of the tool loader (convex/agent/toolLoader.ts), the
    web_fetch tool (convex/agent/tools/webFetch.ts), the model switching action
    (convex/agent/modelSwitching.ts) and the chat action (convex/chat.ts).

    Strings.  A JavaScript string is a sequence of UTF-16 code units.  Here a
    [string] is a sequence of [ascii], each standing for one code unit below
    256.  The character class used by the code, [[^a-zA-Z0-9_-]], treats a
    code unit above 255 exactly as it treats one in 128..255.  The line
    terminators are LF and CR: U+2028 and U+2029, which [.] does not match
    either, are outside the model. *)

From Stdlib Require Import ZArith Ascii String Lia Bool DecimalString.
From stdpp Require Import gmap strings list.

Local Open Scope Z_scope.

(** ** JavaScript string helpers *)

Module JsString.

(** [s.slice(0, n)] for a non-negative [n]. *)
Fixpoint slice0 (n : nat) (s : string) : string :=
  match n, s with
  | O, _ => ""
  | S _, EmptyString => ""
  | S n', String c s' => String c (slice0 n' s')
  end.

(** [s.slice(n)] for a non-negative [n]. *)
Fixpoint drop (n : nat) (s : string) : string :=
  match n, s with
  | O, _ => s
  | S _, EmptyString => ""
  | S n', String _ s' => drop n' s'
  end.

Fixpoint chars (s : string) : list ascii :=
  match s with
  | EmptyString => []
  | String c s' => c :: chars s'
  end.

(** [s.startsWith(p)]. *)
Fixpoint startsWith (p s : string) : bool :=
  match p, s with
  | EmptyString, _ => true
  | String _ _, EmptyString => false
  | String a p', String b s' => if Ascii.eqb a b then startsWith p' s' else false
  end.

(** [s.endsWith(c)] for a single character. *)
Fixpoint endsWithChar (c : ascii) (s : string) : bool :=
  match s with
  | EmptyString => false
  | String a EmptyString => Ascii.eqb a c
  | String _ s' => endsWithChar c s'
  end.

(** The string without its last character. *)
Fixpoint dropLast (s : string) : string :=
  match s with
  | EmptyString => ""
  | String _ EmptyString => ""
  | String a s' => String a (dropLast s')
  end.

(** [s.includes(p)] *)
Fixpoint includes (p s : string) : bool :=
  startsWith p s
  || match s with
     | EmptyString => false
     | String _ s' => includes p s'
     end.

(** [parts.join(sep)] *)
Fixpoint join (sep : string) (parts : list string) : string :=
  match parts with
  | [] => ""
  | [x] => x
  | x :: rest => x +:+ sep +:+ join sep rest
  end.

(** Truthiness of a string value: only the empty string is falsy. *)
Definition truthy (s : string) : bool :=
  match s with EmptyString => false | _ => true end.

End JsString.

(** ** Tool-name sanitization (toolLoader.ts, lines 602-605 and 708-711) *)

Section Sanitize.

Local Open Scope N_scope.

(** Membership in the class [[a-zA-Z0-9_-]]. *)
Definition isNameChar (c : ascii) : bool :=
  let n := N_of_ascii c in
  ((97 <=? n) && (n <=? 122))      (* a-z *)
  || ((65 <=? n) && (n <=? 90))    (* A-Z *)
  || ((48 <=? n) && (n <=? 57))    (* 0-9 *)
  || (n =? 95)                     (* _ *)
  || (n =? 45).                    (* - *)

Definition underscore : ascii := "_"%char.
Definition hyphen : ascii := "-"%char.

(** [.replace(/[^a-zA-Z0-9_-]/g, '_')] *)
Fixpoint replaceInvalid (s : string) : string :=
  match s with
  | EmptyString => EmptyString
  | String c s' =>
      String (if isNameChar c then c else underscore) (replaceInvalid s')
  end.

(** [.replace(/_+/g, '_')]: of a maximal run of underscores only the last
    one is kept. *)
Fixpoint collapseUnderscores (s : string) : string :=
  match s with
  | EmptyString => EmptyString
  | String c s' =>
      match s' with
      | String c' _ =>
          if Ascii.eqb c underscore && Ascii.eqb c' underscore
          then collapseUnderscores s'
          else String c (collapseUnderscores s')
      | EmptyString => String c EmptyString
      end
  end.

(** The whole chain, with the final [.slice(0, 128)]. *)
Definition sanitizeName (name : string) : string :=
  JsString.slice0 128 (collapseUnderscores (replaceInvalid name)).

(** [.replace(/[^a-zA-Z0-9_-]/g, '_').slice(0, 100)], the variant used for
    the names of peer agents (line 811): no collapsing. *)
Definition sanitizePeerName (name : string) : string :=
  JsString.slice0 100 (replaceInvalid name).

(** Two adjacent copies of the character [c]. *)
Fixpoint hasRun (c : ascii) (s : string) : bool :=
  match s with
  | EmptyString => false
  | String a s' =>
      match s' with
      | String b _ => (Ascii.eqb a c && Ascii.eqb b c) || hasRun c s'
      | EmptyString => false
      end
  end.

(** A run of a repeated separator, the separators being the two
    non-alphanumeric characters of the class. *)
Definition hasSeparatorRun (s : string) : bool :=
  hasRun underscore s || hasRun hyphen s.

End Sanitize.

(** ** JSON values and the JavaScript operators applied to them *)

(** What [JSON.parse] produces.  Numbers are kept as integers: no claim
    depends on a fractional part. *)
#[local] Set Warnings "-register-all".

Inductive json : Type :=
| JNull
| JBool (b : bool)
| JNum (n : Z)
| JStr (s : string)
| JArr (items : list json)
| JObj (fields : list (string * json)).

(** A thrown [Error]: its [name] and its [message]. *)
Record Exn : Type := mkExn { exn_name : string; exn_message : string }.

Definition typeError (msg : string) : Exn := mkExn "TypeError" msg.

Module Js.

(** A value or [undefined]. *)
Definition value := option json.

(** Truthiness ([if (v)], [a || b]). *)
Definition truthy (v : value) : bool :=
  match v with
  | None => false
  | Some JNull => false
  | Some (JBool b) => b
  | Some (JNum n) => negb (n =? 0)
  | Some (JStr s) => JsString.truthy s
  | Some (JArr _) => true
  | Some (JObj _) => true
  end.

(** [a || b] *)
Definition or (a b : value) : value := if truthy a then a else b.

(** The own property [k] of an object literal; of a duplicated key
    [JSON.parse] keeps the last occurrence. *)
Fixpoint field (k : string) (fs : list (string * json)) : value :=
  match fs with
  | [] => None
  | (k', v) :: fs' =>
      match field k fs' with
      | Some later => Some later
      | None => if String.eqb k k' then Some v else None
      end
  end.

(** [v.k] for the property names read by the code ([result], [tools],
    [output], [content], [name], [id], [error]): reading a property of [null]
    or [undefined] throws, arrays, strings, numbers and booleans have no such
    property. *)
Definition prop (k : string) (v : value) : Exn + value :=
  match v with
  | None => inl (typeError ("Cannot read properties of undefined (reading '" +:+ k +:+ "')"))
  | Some JNull => inl (typeError ("Cannot read properties of null (reading '" +:+ k +:+ "')"))
  | Some (JObj fs) => inr (field k fs)
  | Some _ => inr None
  end.

(** [v?.k] *)
Definition optProp (k : string) (v : value) : value :=
  match v with
  | Some (JObj fs) => field k fs
  | _ => None
  end.

(** The names a plain object inherits from [Object.prototype] and that a tool
    key can be (a key never holds two underscores in a row): [tools[k]] is
    truthy for them although no tool was stored under [k]. *)
Definition prototypeKeys : list string :=
  ["constructor"; "hasOwnProperty"; "isPrototypeOf"; "propertyIsEnumerable";
   "toLocaleString"; "toString"; "valueOf"].

Definition inherited (k : string) : bool :=
  existsb (String.eqb k) prototypeKeys.

End Js.

(** ** Documents, requests and log records *)

(** [skillRegistry.skillType]: the schema admits these three literals only,
    so the [default] branch of [createToolFromSkill] is never taken. *)
Inductive SkillType : Type := Template | Webhook | Code.


(** The fields of a [skillRegistry] document that the loader reads. *)
Record Skill : Type := mkSkill {
  sk_id : string;
  sk_name : string;
  sk_description : string;
  sk_skillType : SkillType;
  sk_templateId : option string;
  sk_config : option string;
}.

(** The fields of an [mcpServers] document that the loader reads. *)
Record McpServer : Type := mkServer {
  srv_id : string;
  srv_name : string;
  srv_url : option string;
  srv_apiKeyEnvVar : option string;
}.

(** An entry of [api.agents.list]. *)
Record AgentDoc : Type := mkAgentDoc {
  ag_id : string;
  ag_name : string;
  ag_status : string;
}.

(** What [checkSecurity] answers. *)
Record SecurityResult : Type := mkSecurity {
  sec_allowed : bool;
  sec_reason : string;
  sec_code : string;
}.

(** The argument of [internal.skillInvocations.log]. *)
Record InvocationRecord : Type := mkInvocation {
  inv_skillName : string;
  inv_skillType : string;
  inv_input : string;
  inv_output : option string;
  inv_success : bool;
  inv_errorMessage : option string;
  inv_securityCheckResult : string;
  inv_durationMs : Z;
  inv_timestamp : Z;
}.

(** The argument of [internal.activityLog.log]. *)
Record ActivityEntry : Type := mkActivity {
  act_actionType : string;
  act_summary : string;
  act_visibility : string;
}.

(** The stored [agentConfig] document, as far as the code reads it. *)
Record AgentConfig : Type := mkConfig {
  cfg_model : string;
  cfg_modelProvider : string;
  cfg_soulDocument : string;
  cfg_systemPrompt : string;
}.

(** The body handed to [fetch]: [BodyJson j] is the text
    [JSON.stringify(j)], [BodyText s] the string [s] itself. *)
Inductive Body : Type := BodyJson (j : json) | BodyText (s : string).

(** The arguments of a [fetch] call. *)
Record Request : Type := mkRequest {
  req_url : string;
  req_method : string;
  req_headers : list (string * string);
  req_body : option Body;
  req_redirectError : bool;
}.

(** What the handlers read of a [Response]; [resp_text] is what
    [await response.text()] gives. *)
Record Response : Type := mkResponse {
  resp_ok : bool;
  resp_status : Z;
  resp_statusText : string;
  resp_headers : list (string * string);
  resp_url : string;
  resp_text : string;
}.

(** What the code reads of a parsed [URL]. *)
Record Url : Type := mkUrl { url_protocol : string; url_hostname : string }.

(** [ctx.runAction] targets used by the skill handlers. *)
Inductive Action : Type :=
| ActTemplateExecute (templateId : option string) (config input : string)
| ActWebhookCaller (config input skillId : string).

(** [ctx.runMutation] targets. *)
Inductive Mutation : Type :=
| MutSkillInvocationLog (r : InvocationRecord)
| MutAgentConfigUpdate (model modelProvider : string)
| MutActivityLog (a : ActivityEntry)
| MutInsertMessage (threadId : option string) (role content : string)
    (metadata : option json).

(** [ctx.runQuery] targets. *)
Inductive Query : Type :=
| QAgentSkillIds (agentId : string)
| QAgentMcpIds (agentId : string)
| QSkillsActiveApproved
| QMcpEnabledApproved
| QAgentsList
| QAgentsGetInternal (agentId : string)
| QAgentsGetDefault
| QSoulsGetInternal (soulId : string)
| QAgentConfig.

(** An interpolated value of a console message. *)
Inductive LogArg : Type :=
| LStr (s : string) | LNum (n : Z) | LJson (j : json) | LExn (e : Exn).

(** Everything a run does that is visible outside it, in order. *)
Inductive event : Type :=
| EvNow (t : Z)
| EvCheckSecurity (skill : Skill) (input : string)
    (options : option (option string)) (r : SecurityResult)
| EvRunAction (a : Action) (r : Exn + json)
| EvRunMutation (m : Mutation) (failure : option Exn)
| EvRunQuery (q : Query)
| EvFetch (r : Request)
| EvConsole (level template : string) (args : list LogArg)
| EvRateLimit (name key : string) (ok : bool)
| EvSetTimeout (ms : Z)
| EvClearTimeout
| EvResolveModel
| EvResolveModelFromConfig (provider model : string)
| EvNewAgent (name : string)
| EvContinueThread (threadId : string)
| EvCreateThread
| EvThreadGenerateText (prompt : string) (withTools : bool)
| EvAiGenerateText (parts : nat)
| EvExtractPdf (fileName : string).

(** The tables the modelled code writes.  A message is kept with its thread,
    role, content and metadata. *)
Record Db : Type := mkDb {
  agentConfig : option AgentConfig;
  activityLog : list ActivityEntry;
  skillInvocationLog : list InvocationRecord;
  messages : list (option string * string * string * option json);
}.

Record State : Type := mkState { trace : list event; db : Db }.

(** ** Effects: a state-and-exception monad over the trace and the tables *)

(** A computation reads and extends the state, and either returns or throws.
    The state reached when it throws is kept: JavaScript does not roll back. *)
Definition Eff (A : Type) : Type := State -> (Exn + A) * State.

Definition ret {A : Type} (a : A) : Eff A := fun st => (inr a, st).

Definition throw {A : Type} (e : Exn) : Eff A := fun st => (inl e, st).

Definition bind {A B : Type} (m : Eff A) (k : A -> Eff B) : Eff B :=
  fun st =>
    match m st with
    | (inr a, st') => k a st'
    | (inl e, st') => (inl e, st')
    end.

(** [try { m } catch (e) { h e }] *)
Definition tryCatch {A : Type} (m : Eff A) (h : Exn -> Eff A) : Eff A :=
  fun st =>
    match m st with
    | (inl e, st') => h e st'
    | (inr a, st') => (inr a, st')
    end.

Definition emit (e : event) : Eff unit :=
  fun st => (inr tt, mkState (trace st ++ [e]) (db st)).

Definition history : Eff (list event) := fun st => (inr (trace st), st).

Definition getDb : Eff Db := fun st => (inr (db st), st).

Definition putDb (d : Db) : Eff unit := fun st => (inr tt, mkState (trace st) d).

(** A pure step that may throw. *)
Definition lift {A : Type} (r : Exn + A) : Eff A :=
  match r with inl e => throw e | inr a => ret a end.

Declare Scope eff_scope.
Delimit Scope eff_scope with eff.
Bind Scope eff_scope with Eff.

Notation "x <- c1 ;; c2" := (bind c1 (fun x => c2))
  (at level 100, c1 at next level, right associativity) : eff_scope.
Notation "c1 ;; c2" := (bind c1 (fun _ => c2))
  (at level 100, right associativity) : eff_scope.

Local Open Scope eff_scope.

(** [console.log], [console.warn], [console.error] *)
Definition consoleLog (template : string) (args : list LogArg) : Eff unit :=
  emit (EvConsole "log" template args).
Definition consoleWarn (template : string) (args : list LogArg) : Eff unit :=
  emit (EvConsole "warn" template args).
Definition consoleError (template : string) (args : list LogArg) : Eff unit :=
  emit (EvConsole "error" template args).

(** A document of the [agents] table, as [buildAgentFromConfig] reads it. *)
Record AgentRecord : Type := mkAgentRecord {
  agr_id : string;
  agr_name : string;
  agr_soulId : option string;
  agr_soulDocument : option string;
  agr_systemPrompt : option string;
  agr_model : string;
  agr_modelProvider : string;
}.

(** A document of the [souls] table. *)
Record Soul : Type := mkSoul {
  soul_document : string;
  soul_systemPrompt : option string;
}.

(** A tool call reported back by [chat.send]. *)
Record ToolCall : Type := mkToolCall {
  tc_name : string;
  tc_args : string;
  tc_result : string;
}.

(** What [chat.send] reads of the result of [thread.generateText]: the text,
    and the tool calls its steps hold, already flattened. *)
Record GenResult : Type := mkGenResult {
  gen_text : string;
  gen_toolCalls : list ToolCall;
}.

(** The part of the environment that only the chat action uses: the agent
    component, the AI SDK, the model router, the PDF extractor. *)
Record ChatEnv : Type := mkChatEnv {
  c_agentsGetInternal : string -> option AgentRecord;
  c_agentsGetDefault : option AgentRecord;
  c_soulsGetInternal : string -> option Soul;
  c_resolveModel : list event -> option Exn;
  c_continueThread : list event -> string -> option Exn;
  c_createThread : list event -> Exn + string;
  c_generateText : list event -> string -> Exn + GenResult;
  c_aiGenerateText : list event -> Exn + string;
  c_isPDFFile : string -> bool;
  c_extractPdf : string -> Exn + string;
  c_base64 : string -> string;
}.

(** ** The environment

    The platform ([Date.now], [JSON.parse], [URL], [process.env], [fetch]) and
    the modules of the repository that are not among the sources
    (security.ts, modelRouter.ts, rateLimits.ts, the queries, mutations and
    actions behind [ctx.run...], the agent component).  An answer may depend
    on everything that happened before it: the oracles receive the trace. *)
Record World : Type := mkWorld {
  w_now : list event -> Z;
  w_jsonParse : string -> Exn + json;
  w_newUrl : json -> option Url;
  w_env : string -> option string;
  w_fetch : list event -> Request -> Exn + Response;
  w_checkSecurity :
    list event -> Skill -> string -> option (option string) -> SecurityResult;
  w_truncateForLog : json -> string;
  w_runAction : list event -> Action -> Exn + json;
  w_mutationFailure : list event -> Mutation -> option Exn;
  w_queryFailure : list event -> Query -> option Exn;
  w_agentSkillIds : string -> list string;
  w_agentMcpIds : string -> list string;
  w_skillsActiveApproved : list Skill;
  w_mcpEnabledApproved : list McpServer;
  w_agentsList : list AgentDoc;
  w_providers : list string;
  w_rateLimit : list event -> string -> string -> bool;
  w_chat : ChatEnv;
}.

(** Modelled from the spec: the mutations of convex/skillInvocations.ts,
    convex/agentConfig.ts and convex/activityLog.ts, which are not among the
    sources.  The audit log and the activity log gain the record they are
    given; the configuration update patches the two fields it is given on the
    stored document.

    [insertMessage] (convex/messages.ts) hands the message to the agent
    component, which is not among the sources, with the metadata, when there
    is one, as its [providerOptions]: the table of messages holds what was
    handed over, in order. *)
Definition applyMutation (m : Mutation) (d : Db) : Db :=
  match m with
  | MutSkillInvocationLog r =>
      mkDb (agentConfig d) (activityLog d) (skillInvocationLog d ++ [r]) (messages d)
  | MutAgentConfigUpdate model provider =>
      mkDb (option_map
              (fun c => mkConfig model provider (cfg_soulDocument c) (cfg_systemPrompt c))
              (agentConfig d))
           (activityLog d) (skillInvocationLog d) (messages d)
  | MutActivityLog a =>
      mkDb (agentConfig d) (activityLog d ++ [a]) (skillInvocationLog d) (messages d)
  | MutInsertMessage tid role content metadata =>
      mkDb (agentConfig d) (activityLog d) (skillInvocationLog d)
           (messages d ++ [(tid, role, content, metadata)])
  end.

Section Primitives.

Variable w : World.


(** [await fetch(url, init)] followed by [await response.text()]: a failure
    of either is the oracle's [inl], and the two are not told apart. *)
Definition fetch (r : Request) : Eff Response :=
  h <- history ;;
  emit (EvFetch r) ;;
  lift (w_fetch w h r).


(** [await ctx.runMutation(m)]: a mutation is a transaction, it writes
    nothing when it fails. *)
Definition runMutation (m : Mutation) : Eff unit :=
  h <- history ;;
  let f := w_mutationFailure w h m in
  emit (EvRunMutation m f) ;;
  match f with
  | Some e => throw e
  | None => d <- getDb ;; putDb (applyMutation m d)
  end.

(** [await ctx.runQuery(q)], the result being read by the caller. *)
Definition runQuery (q : Query) : Eff unit :=
  h <- history ;;
  emit (EvRunQuery q) ;;
  match w_queryFailure w h q with
  | Some e => throw e
  | None => ret tt
  end.


(** [JSON.parse(s)] *)
Definition jsonParse (s : string) : Eff json := lift (w_jsonParse w s).

End Primitives.

(** ** Response bodies: direct JSON or server-sent events *)

Definition isLineTerminator (c : ascii) : bool :=
  Ascii.eqb c "010"%char || Ascii.eqb c "013"%char.

(** The longest prefix that [.] can match: up to the first line terminator. *)
Fixpoint lineOf (s : string) : string :=
  match s with
  | EmptyString => EmptyString
  | String c s' => if isLineTerminator c then EmptyString else String c (lineOf s')
  end.

(** Index of the last closing brace. *)
Fixpoint lastBrace (s : string) : option nat :=
  match s with
  | EmptyString => None
  | String c s' =>
      match lastBrace s' with
      | Some i => Some (S i)
      | None => if Ascii.eqb c "}"%char then Some O else None
      end
  end.

(** [({.+})] anchored at the start of [s]: an opening brace, at least one
    character of the same line, and the last closing brace of that line
    (the quantifier is greedy).  The result is the captured group. *)
Definition matchBraces (s : string) : option string :=
  match s with
  | String c rest =>
      if Ascii.eqb c "{"%char then
        match lineOf rest with
        | String _ tail =>
            match lastBrace tail with
            | Some i => Some (String c (JsString.slice0 (S (S i)) rest))
            | None => None
            end
        | EmptyString => None
        end
      else None
  | EmptyString => None
  end.

(** [/data: ({.+})/] anchored at the start of [s]. *)
Definition sseAt (s : string) : option string :=
  if JsString.startsWith "data: " s then matchBraces (JsString.drop 6 s) else None.

(** [responseText.match(/data: ({.+})/)], giving [jsonMatch[1]]: the
    leftmost position at which the pattern matches. *)
Fixpoint sseMatch (s : string) : option string :=
  match sseAt s with
  | Some g => Some g
  | None =>
      match s with
      | EmptyString => None
      | String _ s' => sseMatch s'
      end
  end.

(** A decimal number inside a template literal. *)
Definition showZ (n : Z) : string := NilZero.string_of_int (Z.to_int n).

Definition dquote : string := String "034"%char EmptyString.

(** [{ error: msg }] *)
Definition errorObject (msg : string) : json := JObj [("error", JStr msg)].

(** ** Skill tools (toolLoader.ts, lines 1008-1143) *)

Section SkillTools.

Variable w : World.










End SkillTools.

(** ** The MCP client: calling a tool (toolLoader.ts, lines 870-976) *)

Section McpCall.

Variable w : World.

(** [serverUrl.replace(/\/?$/, '/tools/call')]: the pattern matches at the
    final slash when there is one and at the end of the string otherwise, and
    only the first match is replaced. *)
Definition toolsCallUrl (serverUrl : string) : string :=
  (if JsString.endsWithChar "/"%char serverUrl
   then JsString.dropLast serverUrl else serverUrl) +:+ "/tools/call".

(** [urlsToTry] *)
Definition urlsToTry (serverUrl : string) : list string :=
  [serverUrl; toolsCallUrl serverUrl].

(** [mcpTool.name || mcpTool.id || 'unknown'] *)
Definition mcpToolName (mcpTool : json) : json :=
  match Js.or (Js.or (Js.optProp "name" (Some mcpTool)) (Js.optProp "id" (Some mcpTool)))
              (Some (JStr "unknown")) with
  | Some v => v
  | None => JStr "unknown"
  end.

Definition mcpBaseHeaders : list (string * string) :=
  [("Content-Type", "application/json");
   ("Accept", "application/json, text/event-stream, */*");
   ("User-Agent", "ClawSync-MCP-Client/1.0")].

(** The headers of a call, with the bearer token when a key is configured. *)
Definition mcpCallHeaders (apiKey : option string) : list (string * string) :=
  match apiKey with
  | Some k =>
      if JsString.truthy k
      then mcpBaseHeaders ++ [("Authorization", "Bearer " +:+ k)]
      else mcpBaseHeaders
  | None => mcpBaseHeaders
  end.

(** The JSON-RPC 2.0 request object of [tools/call]. *)
Definition toolsCallBody (toolName args : json) : json :=
  JObj [("jsonrpc", JStr "2.0");
        ("method", JStr "tools/call");
        ("params", JObj [("name", toolName); ("arguments", args)]);
        ("id", JNum 1)].

Definition mcpCallRequest (url : string) (apiKey : option string)
    (toolName args : json) : Request :=
  mkRequest url "POST" (mcpCallHeaders apiKey)
    (Some (BodyJson (toolsCallBody toolName args))) false.

(** The value handed back from a parsed answer: [result], else [output],
    else [content], else the document itself. *)
Definition mcpPickResult (data : json) : Eff json :=
  result <- lift (Js.prop "result" (Some data)) ;;
  match result with
  | Some v => ret v
  | None =>
      match Js.optProp "output" (Some data) with
      | Some v => ret v
      | None =>
          match Js.optProp "content" (Some data) with
          | Some v => ret v
          | None => ret data
          end
      end
  end.

(** One turn of the loop over [urlsToTry]: [inr v] is [return v], [inl e]
    is [lastError = e] followed by the next turn. *)
Definition mcpAttempt (url : string) (apiKey : option string)
    (toolName args : json) : Eff (Exn + json) :=
  tryCatch
    (response <- fetch w (mcpCallRequest url apiKey toolName args) ;;
     if negb (resp_ok response) then
       let errorText := resp_text response in
       consoleLog "[MCP] ${url} returned ${response.status}:"
         [LStr url; LNum (resp_status response); LStr (JsString.slice0 500 errorText)] ;;
       ret (inl (mkExn "Error"
              ("HTTP " +:+ showZ (resp_status response) +:+ ": "
                 +:+ JsString.slice0 200 errorText)))
     else
       let responseText := resp_text response in
       let finish (data : json) : Eff (Exn + json) :=
         consoleLog "[MCP] Response from ${url}:" [LStr url; LJson data] ;;
         v <- mcpPickResult data ;;
         ret (inr v) in
       match w_jsonParse w responseText with
       | inr data => finish data
       | inl _ =>
           match sseMatch responseText with
           | Some group =>
               match w_jsonParse w group with
               | inr data => finish data
               | inl _ =>
                   consoleError "[MCP] Could not parse SSE response from ${url}:"
                     [LStr url; LStr (JsString.slice0 200 responseText)] ;;
                   ret (inl (mkExn "Error" "Invalid SSE format"))
               end
           | None =>
               consoleError "[MCP] ${url} returned non-JSON:"
                 [LStr url; LStr (JsString.slice0 200 responseText)] ;;
               ret (inl (mkExn "Error" "Non-JSON response"))
           end
       end)
    (fun e =>
       consoleLog "[MCP] Failed to call ${url}:" [LStr url; LStr (exn_message e)] ;;
       ret (inl e)).

(** [for (const url of urlsToTry) { ... }] followed by
    [throw lastError || new Error('All MCP endpoints failed')]. *)
Fixpoint mcpTryUrls (urls : list string) (lastError : option Exn)
    (apiKey : option string) (toolName args : json) : Eff json :=
  match urls with
  | [] =>
      throw (match lastError with
             | Some e => e
             | None => mkExn "Error" "All MCP endpoints failed"
             end)
  | url :: rest =>
      r <- mcpAttempt url apiKey toolName args ;;
      match r with
      | inr v => ret v
      | inl e => mcpTryUrls rest (Some e) apiKey toolName args
      end
  end.

Definition CALLING_MESSAGE : string :=
  "[MCP] Calling tool " +:+ dquote +:+ "${toolName}" +:+ dquote +:+ " on ${serverUrl}".

Definition TOOL_FAILED_MESSAGE : string :=
  "[MCP] Tool " +:+ dquote +:+ "${toolName}" +:+ dquote +:+ " failed:".

(** The handler made by [createMcpTool(serverUrl, mcpTool, serverName, apiKey)]. *)
Definition mcpToolHandler (serverUrl : string) (mcpTool : json)
    (serverName : string) (apiKey : option string) (args : json) : Eff json :=
  let toolName := mcpToolName mcpTool in
  tryCatch
    (consoleLog CALLING_MESSAGE
       [LJson toolName; LStr serverUrl; LJson args] ;;
     (match apiKey with
      | Some k =>
          if JsString.truthy k
          then consoleLog "[MCP] Using API key for ${serverName}" [LStr serverName]
          else ret tt
      | None => ret tt
      end) ;;
     mcpTryUrls (urlsToTry serverUrl) None apiKey toolName args)
    (fun error =>
       let errorMsg := exn_message error in
       consoleError TOOL_FAILED_MESSAGE [LJson toolName; LStr errorMsg] ;;
       ret (errorObject errorMsg)).

End McpCall.

(** ** The web_fetch tool (tools/webFetch.ts) *)

(** The argument object of the handler.  [timeout] is a JSON number; it is
    kept as an integer number of milliseconds. *)
Record WebFetchArgs : Type := mkWebFetchArgs {
  wf_url : string;
  wf_method : option string;
  wf_headers : option (list (string * string));
  wf_body : option string;
  wf_timeout : option Z;
}.

(** [obj[k] = v] on an object kept as the list of its properties in
    insertion order. *)
Fixpoint objSet (k v : string) (obj : list (string * string)) : list (string * string) :=
  match obj with
  | [] => [(k, v)]
  | (k', v') :: rest =>
      if String.eqb k k' then (k, v) :: rest else (k', v') :: objSet k v rest
  end.

(** [{ ...a, ...b }] *)
Definition objSpread (a b : list (string * string)) : list (string * string) :=
  fold_left (fun acc kv => objSet (fst kv) (snd kv) acc) b a.

Definition headersJson (hs : list (string * string)) : json :=
  JObj (map (fun kv => (fst kv, JStr (snd kv))) hs).

(** [response.headers.get(name)]; the names of a [Headers] object are in
    lower case. *)
Fixpoint headerGet (name : string) (hs : list (string * string)) : option string :=
  match hs with
  | [] => None
  | (k, v) :: rest => if String.eqb k name then Some v else headerGet name rest
  end.

Definition MAX_RESPONSE_SIZE : nat := 100 * 1024.

Definition MAX_TIMEOUT : Z := 60000.

Definition DEFAULT_TIMEOUT : Z := 30000.

Section WebFetch.

Variable w : World.

Definition webFetchFailure (error message : string) : json :=
  JObj [("success", JBool false); ("error", JStr error); ("message", JStr message)].

(** [Math.min(timeout, 60000)] with the default of the destructuring. *)
Definition finalTimeout (args : WebFetchArgs) : Z :=
  Z.min (default DEFAULT_TIMEOUT (wf_timeout args)) MAX_TIMEOUT.

Definition webFetchRequest (args : WebFetchArgs) : Request :=
  mkRequest (wf_url args)
    (default "GET" (wf_method args))
    (objSpread [("User-Agent", "ClawSync-HTTP-Client/1.0")] (default [] (wf_headers args)))
    (match wf_body args with
     | Some b => if JsString.truthy b then Some (BodyText b) else None
     | None => None
     end)
    true.

(** The object built from a response. *)
Definition webFetchResult (args : WebFetchArgs) (response : Response) : json :=
  let contentType := default "" (headerGet "content-type" (resp_headers response)) in
  let text := resp_text response in
  let tooLong := Nat.ltb MAX_RESPONSE_SIZE (String.length text) in
  let truncatedText :=
    if tooLong
    then JsString.slice0 MAX_RESPONSE_SIZE text
           +:+ String "010"%char "...[truncated: response exceeds 100KB]"
    else text in
  let data :=
    if JsString.includes "application/json" contentType
    then match w_jsonParse w truncatedText with
         | inr d => match d with JNull => [] | _ => [("data", d)] end
         | inl _ => []
         end
    else [] in
  JObj ([("success", JBool (resp_ok response));
         ("status", JNum (resp_status response));
         ("statusText", JStr (resp_statusText response));
         ("headers", headersJson (resp_headers response));
         ("url", JStr (resp_url response));
         ("contentType", JStr contentType);
         ("body", JStr truncatedText);
         ("size", JNum (Z.of_nat (String.length text)));
         ("truncated", JBool tooLong)]
        ++ data
        ++ (if resp_ok response then
              [("message", JStr ("Successfully fetched " +:+ wf_url args
                   +:+ ". Response size: " +:+ showZ (Z.of_nat (String.length text))
                   +:+ " bytes."))]
            else
              [("error", JStr ("HTTP " +:+ showZ (resp_status response) +:+ ": "
                   +:+ resp_statusText response));
               ("message", JStr ("Request failed with status "
                   +:+ showZ (resp_status response) +:+ "."))])).

(** What the [catch] of the request answers. *)
Definition webFetchError (args : WebFetchArgs) (error : Exn) : json :=
  if String.eqb (exn_name error) "AbortError" then
    webFetchFailure "Request timeout"
      ("The request timed out after " +:+ showZ (finalTimeout args) +:+ "ms.")
  else if JsString.includes "redirect" (exn_message error) then
    webFetchFailure "Redirect blocked"
      "The URL redirects to another location. For security, redirects are not allowed."
  else
    webFetchFailure (exn_message error)
      "Failed to fetch the URL. Please check the URL is valid and accessible.".

(** The handler of the tool made by [createWebFetchTool].

    The code clears its timer between [fetch] and [response.text()] (line
    118).  Here the two are one answer of the environment, after which the
    timer is cleared: when that answer is a failure, the trace does not say
    whether the timer had been cleared, and nothing is proved about it. *)
Definition webFetchHandler (args : WebFetchArgs) : Eff json :=
  match w_newUrl w (JStr (wf_url args)) with
  | None =>
      ret (webFetchFailure "Invalid URL" "Please provide a valid URL.")
  | Some urlObj =>
      if negb (String.eqb (url_protocol urlObj) "http:")
         && negb (String.eqb (url_protocol urlObj) "https:")
      then
        ret (webFetchFailure "Invalid protocol" "Only HTTP and HTTPS URLs are supported.")
      else
        tryCatch
          (consoleLog "[WebFetch] ${method} ${url}"
             [LStr (default "GET" (wf_method args)); LStr (wf_url args)] ;;
           emit (EvSetTimeout (finalTimeout args)) ;;
           response <- fetch w (webFetchRequest args) ;;
           emit EvClearTimeout ;;
           ret (webFetchResult args response))
          (fun error =>
             consoleError "[WebFetch] Error:" [LExn error] ;;
             ret (webFetchError args error))
  end.

End WebFetch.

(** ** The model switching action (modelSwitching.ts, lines 44-94) *)

Record SwitchResult : Type := mkSwitchResult {
  sw_success : bool;
  sw_message : string;
  sw_previousModel : option string;
  sw_newModel : option string;
}.

Section ModelSwitching.

Variable w : World.

(** [await ctx.runQuery(internal.agentConfig.getConfig)] *)
Definition getConfig : Eff (option AgentConfig) :=
  runQuery w QAgentConfig ;;
  d <- getDb ;;
  ret (agentConfig d).

(** The handler of [switchModel]; [w_providers] holds the [id]s of
    [getAvailableProviders()]. *)
Definition switchModel (provider model : string) : Eff SwitchResult :=
  tryCatch
    (config <- getConfig ;;
     let previousModel :=
       match config with Some c => cfg_model c | None => "unknown" end in
     let providers := w_providers w in
     match find (fun p => String.eqb p provider) providers with
     | None =>
         ret (mkSwitchResult false
                ("Invalid provider: " +:+ provider +:+ ". Available: "
                   +:+ JsString.join ", " providers)
                None None)
     | Some _ =>
         runMutation w (MutAgentConfigUpdate model provider) ;;
         runMutation w (MutActivityLog
           (mkActivity "model_switch"
              ("Switched from " +:+ previousModel +:+ " to " +:+ provider
                 +:+ "/" +:+ model)
              "private")) ;;
         ret (mkSwitchResult true
                ("Successfully switched to " +:+ provider +:+ "/" +:+ model
                   +:+ ". The next message will use the new model.")
                (Some previousModel) (Some model))
     end)
    (fun error =>
       consoleError "Model switch error:" [LExn error] ;;
       ret (mkSwitchResult false
              ("Failed to switch model: " +:+ exn_message error) None None)).

End ModelSwitching.

(** ** The tool loader (toolLoader.ts, lines 565-820) *)

(** The tools with a fixed name, added after the skills and the MCP tools. *)
Inductive Builtin : Type :=
| ListAvailableModels | SwitchModel | GetCurrentModel | GenerateImage
| GeneratePdf | SendTelegramMessage | SendEmail | PostTweet | ScheduleTask
| ListTools | ListScheduledTasks | DeleteScheduledTask | ToggleScheduledTask
| WebFetch | GetCurrentDate.

(** A tool of the set, by the constructor call that made it and the values
    its handler closes over. *)
Inductive Tool : Type :=
| SkillTool (skill : Skill)
| McpTool (serverUrl : string) (mcpTool : json) (serverName : string)
    (apiKey : option string)
| AgentTool (fromAgentId toAgentId toAgentName : string)
| BuiltinTool (b : Builtin).

(** [ToolSet = Record<string, any>] *)
Abbreviation ToolSet := (gmap string Tool).

(** The statements [tools['...'] = ...] of lines 742-799, in order. *)
Definition builtinTools : list (string * Builtin) :=
  [("list_available_models", ListAvailableModels);
   ("switch_model", SwitchModel);
   ("get_current_model", GetCurrentModel);
   ("generate_image", GenerateImage);
   ("generate_pdf", GeneratePdf);
   ("send_telegram_message", SendTelegramMessage);
   ("send_email", SendEmail);
   ("post_tweet", PostTweet);
   ("schedule_task", ScheduleTask);
   ("list_tools", ListTools);
   ("list_scheduled_tasks", ListScheduledTasks);
   ("delete_scheduled_task", DeleteScheduledTask);
   ("toggle_scheduled_task", ToggleScheduledTask);
   ("web_fetch", WebFetch);
   ("get_current_date", GetCurrentDate)].

Definition addBuiltins (tools : ToolSet) : ToolSet :=
  fold_left (fun acc kb => <[fst kb := BuiltinTool (snd kb)]> acc) builtinTools tools.

(** [if (agentId)]: an absent or empty identifier is falsy. *)
Definition givenAgent (agentId : option string) : option string :=
  match agentId with
  | Some a => if JsString.truthy a then Some a else None
  | None => None
  end.

(** [allowed && !allowed.has(id)] negated: [None] is the [null] of the
    unscoped mode. *)
Definition inScope (allowed : option (gset string)) (id : string) : bool :=
  match allowed with
  | None => true
  | Some ids => bool_decide (id ∈ ids)
  end.

(** [createToolFromSkill]; every skill type of the schema has its case. *)
Definition createToolFromSkill (skill : Skill) : option Tool :=
  match sk_skillType skill with
  | Template => Some (SkillTool skill)
  | Webhook => Some (SkillTool skill)
  | Code => Some (SkillTool skill)
  end.

(** The body of [for (const skill of skills)]. *)
Definition loadSkill (allowedSkillIds : option (gset string)) (tools : ToolSet)
    (skill : Skill) : ToolSet :=
  if negb (inScope allowedSkillIds (sk_id skill)) then tools
  else
    match createToolFromSkill skill with
    | Some toolFn => <[sanitizeName (sk_name skill) := toolFn]> tools
    | None => tools
    end.

Definition loadSkills (allowedSkillIds : option (gset string))
    (skills : list Skill) (tools : ToolSet) : ToolSet :=
  fold_left (loadSkill allowedSkillIds) skills tools.

(** The JSON-RPC 2.0 request object of [tools/list]. *)
Definition toolsListBody : json :=
  JObj [("jsonrpc", JStr "2.0");
        ("method", JStr "tools/list");
        ("params", JObj []);
        ("id", JNum 1)].

Definition toolsListPost (url : string) (headers : list (string * string)) : Request :=
  mkRequest url "POST" headers (Some (BodyJson toolsListBody)) false.

(** The fallback request: the same headers without [Content-Type]. *)
Definition toolsListGet (url : string) (headers : list (string * string)) : Request :=
  mkRequest url "GET"
    (filter (fun kv => negb (String.eqb (fst kv) "Content-Type")) headers)
    None false.

(** [data.result?.tools || data.tools || []] *)
Definition toolsOf (data : json) : Exn + json :=
  match Js.prop "result" (Some data) with
  | inl e => inl e
  | inr result =>
      match Js.or (Js.or (Js.optProp "tools" result) (Js.optProp "tools" (Some data)))
                  (Some (JArr [])) with
      | Some v => inr v
      | None => inr (JArr [])
      end
  end.

(** What [for (const mcpTool of mcpTools)] iterates over.  A string would be
    iterated by characters, and its first character has no [name] to call
    [replace] on; the other values are not iterable. *)
Definition iterate (mcpTools : json) : Exn + list json :=
  match mcpTools with
  | JArr items => inr items
  | JStr _ => inl (typeError "Cannot read properties of undefined (reading 'replace')")
  | _ => inl (typeError "mcpTools is not iterable")
  end.

(** [mcpTool.name.replace(...).replace(...).slice(0, 128)] *)
Definition mcpSafeName (mcpTool : json) : Exn + string :=
  match Js.prop "name" (Some mcpTool) with
  | inl e => inl e
  | inr (Some (JStr toolName)) => inr (sanitizeName toolName)
  | inr (Some JNull) =>
      inl (typeError "Cannot read properties of null (reading 'replace')")
  | inr None =>
      inl (typeError "Cannot read properties of undefined (reading 'replace')")
  | inr (Some _) => inl (typeError "toolName.replace is not a function")
  end.

(** [tools[safeName]] as a condition. *)
Definition hasTool (tools : ToolSet) (safeName : string) : bool :=
  match tools !! safeName with
  | Some _ => true
  | None => Js.inherited safeName
  end.

Definition CONFLICT_MESSAGE : string :=
  "[MCP] Tool " +:+ dquote +:+ "${safeName}" +:+ dquote
    +:+ " conflicts with existing skill, keeping MCP version".

Definition REGISTERING_MESSAGE : string :=
  "[MCP] Registering tool: ${toolName} (safe: ${safeName})".

Section ToolLoader.

Variable w : World.

(** [process.env[server.apiKeyEnvVar]] under [if (server.apiKeyEnvVar)]. *)
Definition serverApiKey (server : McpServer) : option string :=
  match srv_apiKeyEnvVar server with
  | Some var => if JsString.truthy var then w_env w var else None
  | None => None
  end.

Definition keyIsSet (apiKey : option string) : bool :=
  match apiKey with Some k => JsString.truthy k | None => false end.

(** The console line about the key, written wherever a key is resolved. *)
Definition reportApiKey (found missing : string) (server : McpServer) : Eff unit :=
  match srv_apiKeyEnvVar server with
  | Some var =>
      if JsString.truthy var then
        if keyIsSet (serverApiKey server)
        then consoleLog found [LStr (srv_name server); LStr var]
        else consoleWarn missing [LStr var; LStr (srv_name server)]
      else ret tt
  | None => ret tt
  end.

Definition LOADED_KEY_MESSAGE : string :=
  "[MCP] Loaded API key for ${server.name} from ${server.apiKeyEnvVar}".

Definition KEY_NOT_SET : string :=
  "[MCP] API key env var ${server.apiKeyEnvVar} not set for ${server.name}".

(** [discoveryHeaders] *)
Definition discoveryHeaders (server : McpServer) : list (string * string) :=
  if keyIsSet (serverApiKey server)
  then mcpBaseHeaders
         ++ [("Authorization", "Bearer " +:+ default "" (serverApiKey server))]
  else mcpBaseHeaders.

(** Lines 647-673: POST first, GET when the POST throws. *)
Definition fetchToolsList (url : string) (headers : list (string * string)) : Eff Response :=
  tryCatch
    (fetch w (toolsListPost url headers))
    (fun _ => fetch w (toolsListGet url headers)).

(** Lines 681-699: the body as JSON, or the JSON of a [data:] line; [None]
    is the [continue] of a body that is neither. *)
Definition parseDiscovery (server : McpServer) (responseText : string) : Eff (option json) :=
  match w_jsonParse w responseText with
  | inr data => ret (Some data)
  | inl _ =>
      match sseMatch responseText with
      | Some group =>
          match w_jsonParse w group with
          | inr data => ret (Some data)
          | inl _ => ret (Some (JObj [("tools", JArr [])]))
          end
      | None =>
          consoleError "[MCP] ${server.name} returned non-JSON:"
            [LStr (srv_name server); LStr (JsString.slice0 200 responseText)] ;;
          ret None
      end
  end.

(** The body of [for (const mcpTool of mcpTools)], lines 707-731. *)
Definition registerMcpTool (server : McpServer) (url : string) (tools : ToolSet)
    (mcpTool : json) : Eff ToolSet :=
  safeName <- lift (mcpSafeName mcpTool) ;;
  consoleLog REGISTERING_MESSAGE
    [LJson (default JNull (Js.optProp "name" (Some mcpTool))); LStr safeName] ;;
  (if hasTool tools safeName
   then consoleLog CONFLICT_MESSAGE [LStr safeName]
   else ret tt) ;;
  reportApiKey LOADED_KEY_MESSAGE KEY_NOT_SET server ;;
  ret (<[safeName := McpTool url mcpTool (srv_name server) (serverApiKey server)]> tools).

(** The loop over the discovered tools.  It updates [tools] in place, so the
    tools registered before an exception stay: the result carries the tool
    set reached and the exception that ended the loop, if any. *)
Fixpoint registerMcpTools (server : McpServer) (url : string)
    (mcpTools : list json) (tools : ToolSet) : Eff (ToolSet * option Exn) :=
  match mcpTools with
  | [] => ret (tools, None)
  | mcpTool :: rest =>
      r <- tryCatch
             (tools' <- registerMcpTool server url tools mcpTool ;; ret (inr tools'))
             (fun e => ret (inl e)) ;;
      match r with
      | inr tools' => registerMcpTools server url rest tools'
      | inl e => ret (tools, Some e)
      end
  end.

(** Lines 675-732: from the response to the registered tools. *)
Definition registerDiscovered (server : McpServer) (url : string) (tools : ToolSet)
    (response : Response) : Eff (ToolSet * option Exn) :=
  let responseText := resp_text response in
  if negb (resp_ok response) then
    consoleError "[MCP] ${server.name} returned status ${response.status}"
      [LStr (srv_name server); LNum (resp_status response)] ;;
    consoleError "[MCP] Response body:" [LStr (JsString.slice0 500 responseText)] ;;
    ret (tools, None)
  else
    parsed <- parseDiscovery server responseText ;;
    match parsed with
    | None => ret (tools, None)
    | Some data =>
        consoleLog "[MCP] ${server.name} response:" [LStr (srv_name server); LJson data] ;;
        mcpTools <- lift (toolsOf data) ;;
        consoleLog "[MCP] ${server.name} has ${mcpTools.length} tools"
          [LStr (srv_name server); LJson mcpTools] ;;
        items <- lift (iterate mcpTools) ;;
        registerMcpTools server url items tools
    end.

Definition FETCHING_MESSAGE : string :=
  "[MCP] Fetching tools from ${server.name} at ${server.url}".

Definition USING_KEY_MESSAGE : string :=
  "[MCP] Using API key for ${server.name} discovery from ${server.apiKeyEnvVar}".

(** Lines 627-735, the [try] block for one server that has a URL and is in
    scope; its [catch] hands the exception to the caller, which logs it. *)
Definition discoverServer (server : McpServer) (url : string) (tools : ToolSet)
    : Eff (ToolSet * option Exn) :=
  tryCatch
    (consoleLog FETCHING_MESSAGE [LStr (srv_name server); LStr url] ;;
     reportApiKey USING_KEY_MESSAGE KEY_NOT_SET server ;;
     response <- fetchToolsList url (discoveryHeaders server) ;;
     registerDiscovered server url tools response)
    (fun e => ret (tools, Some e)).

(** The body of [for (const server of mcpServers)], lines 616-736. *)
Definition loadServer (allowedMcpIds : option (gset string)) (tools : ToolSet)
    (server : McpServer) : Eff ToolSet :=
  match srv_url server with
  | Some url =>
      if negb (JsString.truthy url) then
        consoleLog "[MCP] Server ${server.name} has no URL, skipping" [LStr (srv_name server)] ;;
        ret tools
      else if negb (inScope allowedMcpIds (srv_id server)) then ret tools
      else
        r <- discoverServer server url tools ;;
        match snd r with
        | Some e =>
            consoleError "[MCP] Failed to load tools from ${server.name}:"
              [LStr (srv_name server); LExn e] ;;
            ret (fst r)
        | None => ret (fst r)
        end
  | None =>
      consoleLog "[MCP] Server ${server.name} has no URL, skipping" [LStr (srv_name server)] ;;
      ret tools
  end.

Fixpoint loadServers (allowedMcpIds : option (gset string))
    (servers : list McpServer) (tools : ToolSet) : Eff ToolSet :=
  match servers with
  | [] => ret tools
  | server :: rest =>
      tools' <- loadServer allowedMcpIds tools server ;;
      loadServers allowedMcpIds rest tools'
  end.

(** Lines 611-739: the MCP part, which never throws. *)
Definition loadMcpTools (allowedMcpIds : option (gset string)) (tools : ToolSet)
    : Eff ToolSet :=
  tryCatch
    (runQuery w QMcpEnabledApproved ;;
     let mcpServers := w_mcpEnabledApproved w in
     consoleLog "[MCP] Found ${mcpServers.length} enabled MCP servers"
       [LNum (Z.of_nat (length mcpServers))] ;;
     loadServers allowedMcpIds mcpServers tools)
    (fun e =>
       consoleError "[MCP] Failed to load MCP servers:" [LExn e] ;;
       ret tools).

(** The key of the tool that asks a peer agent, line 811. *)
Definition peerToolName (peer : AgentDoc) : string :=
  "ask_agent_" +:+ sanitizePeerName (ag_name peer).

Definition isPeer (agentId : string) (a : AgentDoc) : bool :=
  negb (String.eqb (ag_id a) agentId) && negb (String.eqb (ag_status a) "error").

Definition addPeers (agentId : string) (agents : list AgentDoc) (tools : ToolSet) : ToolSet :=
  fold_left
    (fun acc peer =>
       <[peerToolName peer := AgentTool agentId (ag_id peer) (ag_name peer)]> acc)
    (filter (isPeer agentId) agents) tools.

(** Lines 801-817. *)
Definition loadPeerTools (agentId : option string) (tools : ToolSet) : Eff ToolSet :=
  match givenAgent agentId with
  | Some a =>
      tryCatch
        (runQuery w QAgentsList ;;
         ret (addPeers a (w_agentsList w) tools))
        (fun _ => ret tools)
  | None => ret tools
  end.

(** Lines 571-588: the two sets of assigned identifiers, [None] standing
    for [null]. *)
Definition loadAssignments (agentId : option string)
    : Eff (option (gset string) * option (gset string)) :=
  match givenAgent agentId with
  | Some a =>
      runQuery w (QAgentSkillIds a) ;;
      let allowedSkillIds : gset string := list_to_set (w_agentSkillIds w a) in
      runQuery w (QAgentMcpIds a) ;;
      let allowedMcpIds : gset string := list_to_set (w_agentMcpIds w a) in
      ret (Some allowedSkillIds, Some allowedMcpIds)
  | None => ret (None, None)
  end.

(** [loadTools(ctx, agentId)] *)
Definition loadTools (agentId : option string) : Eff ToolSet :=
  allowed <- loadAssignments agentId ;;
  runQuery w QSkillsActiveApproved ;;
  let skills := w_skillsActiveApproved w in
  let tools := loadSkills (fst allowed) skills ∅ in
  tools <- loadMcpTools (snd allowed) tools ;;
  let tools := addBuiltins tools in
  loadPeerTools agentId tools.

End ToolLoader.

(** ** The dynamic agent (agent/clawsync.ts) *)

(** What [new Agent(components.agent, { ... })] is given. *)
Record Agent : Type := mkAgent {
  agent_name : string;
  agent_instructions : string;
  agent_tools : ToolSet;
}.

Definition nl : string := String "010"%char EmptyString.

(** An optional string under [if (...)]. *)
Definition provided (o : option string) : option string := givenAgent o.

Definition DEFAULT_INSTRUCTIONS : string :=
  "You are a helpful AI assistant." +:+ nl +:+ nl
  +:+ "When conducting research or searching for information, ALWAYS include:" +:+ nl
  +:+ "1. Source URLs/links for any information you find" +:+ nl
  +:+ "2. Reference the specific websites or sources you used" +:+ nl
  +:+ "3. Include relevant links that the user can click to verify or learn more"
  +:+ nl +:+ nl
  +:+ "Example format:" +:+ nl
  +:+ dquote +:+ "According to [Source Name](URL), the key findings are..." +:+ dquote
  +:+ nl +:+ nl
  +:+ "This helps users verify information and explore topics further.".

Section DynamicAgent.

Variable w : World.

(** [resolveModel(ctx)] and [resolveModelFromConfig(ctx, ...)], from the model
    router; only whether they throw matters here. *)
Definition resolveModel : Eff unit :=
  h <- history ;;
  emit EvResolveModel ;;
  match c_resolveModel (w_chat w) h with Some e => throw e | None => ret tt end.

Definition resolveModelFromConfig (provider model : string) : Eff unit :=
  h <- history ;;
  emit (EvResolveModelFromConfig provider model) ;;
  match c_resolveModel (w_chat w) h with Some e => throw e | None => ret tt end.

Definition newAgent (name instructions : string) (tools : ToolSet) : Eff Agent :=
  emit (EvNewAgent name) ;;
  ret (mkAgent name instructions tools).

(** Lines 497-519 of the file: the instructions of a configured agent. *)
Definition soulInstructions (agentConfig : AgentRecord) : Eff string :=
  fromSoul <-
    match provided (agr_soulId agentConfig) with
    | Some soulId =>
        tryCatch
          (runQuery w (QSoulsGetInternal soulId) ;;
           match c_soulsGetInternal (w_chat w) soulId with
           | Some soul =>
               match provided (soul_systemPrompt soul) with
               | Some p => ret (soul_document soul +:+ nl +:+ nl +:+ p)
               | None => ret (soul_document soul)
               end
           | None => ret "You are a helpful AI assistant."
           end)
          (fun _ => ret "You are a helpful AI assistant.")
    | None => ret "You are a helpful AI assistant."
    end ;;
  let instructions := default fromSoul (provided (agr_soulDocument agentConfig)) in
  match provided (agr_systemPrompt agentConfig) with
  | Some p => ret (instructions +:+ nl +:+ nl +:+ p)
  | None => ret instructions
  end.

(** [buildAgentFromConfig(ctx, agentConfig, agentId)] *)
Definition buildAgentFromConfig (agentConfig : AgentRecord) (agentId : string) : Eff Agent :=
  resolveModelFromConfig (agr_modelProvider agentConfig) (agr_model agentConfig) ;;
  tools <- loadTools w (Some agentId) ;;
  instructions <- soulInstructions agentConfig ;;
  newAgent (agr_name agentConfig) instructions tools.

(** [createDynamicAgent(ctx, agentId)] *)
Definition createDynamicAgent (agentId : option string) : Eff Agent :=
  configured <-
    match givenAgent agentId with
    | Some a =>
        runQuery w (QAgentsGetInternal a) ;;
        match c_agentsGetInternal (w_chat w) a with
        | Some agentConfig =>
            agent <- buildAgentFromConfig agentConfig a ;; ret (Some agent)
        | None => ret None
        end
    | None => ret None
    end ;;
  match configured with
  | Some agent => ret agent
  | None =>
      runQuery w QAgentsGetDefault ;;
      match c_agentsGetDefault (w_chat w) with
      | Some defaultAgent => buildAgentFromConfig defaultAgent (agr_id defaultAgent)
      | None =>
          resolveModel ;;
          tools <- loadTools w None ;;
          newAgent "ClawSync Agent" DEFAULT_INSTRUCTIONS tools
      end
  end.

End DynamicAgent.

(** ** The chat action (chat.ts, lines 24-343) *)

Record Attachment : Type := mkAttachment {
  att_uploadToken : string;
  att_url : string;
  att_fileName : string;
  att_fileType : string;
}.

Record SendArgs : Type := mkSendArgs {
  send_threadId : option string;
  send_message : string;
  send_sessionId : string;
  send_attachments : option (list Attachment);
}.

Record SendResult : Type := mkSendResult {
  res_response : option string;
  res_error : option string;
  res_threadId : option string;
  res_toolCalls : option (list ToolCall);
}.

(** A part of a multimodal message. *)
Inductive ContentPart : Type :=
| TextPart (text : string)
| ImagePart (image : string).

Definition MAX_MESSAGE_LENGTH : nat := 4000.

Definition PDF_TEXT_LIMIT : nat := 50 * 1000.

Definition RATE_LIMIT_MESSAGE : string :=
  "Rate limit exceeded. Please wait before sending another message.".

Definition BUSY_MESSAGE : string :=
  "The agent is currently busy. Please try again in a moment.".

Definition visionModelTokens : list string :=
  ["vision"; "claude-4"; "claude-opus"; "claude-sonnet"; "gpt-4.5"; "gpt-5";
   "gpt-4o"; "gpt-4.1"; "gpt-4.1-mini"; "gpt-4.1-nano"; "o3"; "o4"; "gemini";
   "flash"].

(** White space as [trim] sees it, among the code units below 256. *)
Definition isWhiteSpace (c : ascii) : bool :=
  let n := N_of_ascii c in
  (((9 <=? n) && (n <=? 13)) || (n =? 32) || (n =? 160))%N.

(** [s.trim()] as a condition: some character is not white space. *)
Definition hasNonBlank (s : string) : bool :=
  existsb (fun c => negb (isWhiteSpace c)) (JsString.chars s).

(** The prompt that carries the text of the uploaded PDF documents. *)
Definition pdfPrompt (pdfTexts : list string) (message : string) : string :=
  "User uploaded " +:+ showZ (Z.of_nat (length pdfTexts))
  +:+ " PDF document(s). Here is the extracted text:" +:+ nl +:+ nl
  +:+ JsString.join (nl +:+ nl) pdfTexts +:+ nl +:+ nl
  +:+ "User's question: " +:+ message.

Definition promptFor (pdfTexts : list string) (message : string) : string :=
  match pdfTexts with
  | [] => message
  | _ => pdfPrompt pdfTexts message
  end.

(** [logSummary] *)
Definition logSummary (args : SendArgs) : string :=
  let m := send_message args in
  let head := "Responded to: " +:+ dquote +:+ JsString.slice0 50 m
              +:+ (if Nat.ltb 50 (String.length m) then "..." else "") +:+ dquote in
  match send_attachments args with
  | Some (a :: rest) =>
      head +:+ " with " +:+ showZ (Z.of_nat (length (a :: rest))) +:+ " attachment(s)"
  | _ => head
  end.

Definition attachmentJson (a : Attachment) : json :=
  JObj [("uploadToken", JStr (att_uploadToken a)); ("url", JStr (att_url a));
        ("fileName", JStr (att_fileName a)); ("fileType", JStr (att_fileType a))].

Section Chat.

Variable w : World.

(** [await rateLimiter.limit(ctx, name, { key })], giving [ok].  The limiter
    is taken to answer: a call of the component that throws is outside the
    model, and what is proved of the actions is about runs in which the
    checks answered. *)
Definition rateLimit (name key : string) : Eff bool :=
  h <- history ;;
  let ok := w_rateLimit w h name key in
  emit (EvRateLimit name key ok) ;; ret ok.

Definition continueThread (threadId : string) : Eff unit :=
  h <- history ;;
  emit (EvContinueThread threadId) ;;
  match c_continueThread (w_chat w) h threadId with
  | Some e => throw e
  | None => ret tt
  end.

Definition createThread : Eff string :=
  h <- history ;;
  emit EvCreateThread ;;
  lift (c_createThread (w_chat w) h).

Definition threadGenerateText (prompt : string) (withTools : bool) : Eff GenResult :=
  h <- history ;;
  emit (EvThreadGenerateText prompt withTools) ;;
  lift (c_generateText (w_chat w) h prompt).

Definition aiGenerateText (content : list ContentPart) : Eff string :=
  h <- history ;;
  emit (EvAiGenerateText (length content)) ;;
  lift (c_aiGenerateText (w_chat w) h).

(** [await fetch(url)] *)
Definition fetchUrl (url : string) : Eff Response :=
  fetch w (mkRequest url "GET" [] None false).

(** Lines 120-138: the text of every PDF attachment. *)
Fixpoint extractPdfs (attachments : list Attachment) (pdfTexts : list string)
    : Eff (list string) :=
  match attachments with
  | [] => ret pdfTexts
  | attachment :: rest =>
      pdfTexts' <-
        (if c_isPDFFile (w_chat w) (att_fileType attachment) then
           tryCatch
             (consoleLog "Extracting text from PDF:" [LStr (att_fileName attachment)] ;;
              pdfResponse <- fetchUrl (att_url attachment) ;;
              if resp_ok pdfResponse then
                emit (EvExtractPdf (att_fileName attachment)) ;;
                pdfText <- lift (c_extractPdf (w_chat w) (resp_text pdfResponse)) ;;
                consoleLog "PDF text extracted, length:"
                  [LNum (Z.of_nat (String.length pdfText))] ;;
                ret (pdfTexts
                       ++ ["--- PDF: " +:+ att_fileName attachment +:+ " ---" +:+ nl
                             +:+ JsString.slice0 PDF_TEXT_LIMIT pdfText])
              else ret pdfTexts)
             (fun error =>
                consoleError "Error processing PDF:" [LExn error] ;;
                ret (pdfTexts
                       ++ ["--- PDF: " +:+ att_fileName attachment +:+ " ---" +:+ nl
                             +:+ "[Error: Could not extract text]"]))
         else ret pdfTexts) ;;
      extractPdfs rest pdfTexts'
  end.

(** Lines 183-220: the image parts, and whether any attachment is an image. *)
Fixpoint collectImages (attachments : list Attachment) (content : list ContentPart)
    (hasImages : bool) : Eff (list ContentPart * bool) :=
  match attachments with
  | [] => ret (content, hasImages)
  | attachment :: rest =>
      if JsString.startsWith "image/" (att_fileType attachment) then
        content' <-
          tryCatch
            (consoleLog "Processing image:" [LStr (att_fileName attachment)] ;;
             if JsString.startsWith "data:" (att_url attachment) then
               consoleLog "Using provided base64 image" [] ;;
               ret (content ++ [ImagePart (att_url attachment)])
             else
               imageResponse <- fetchUrl (att_url attachment) ;;
               if resp_ok imageResponse then
                 let mimeType :=
                   if JsString.truthy (att_fileType attachment)
                   then att_fileType attachment else "image/jpeg" in
                 consoleLog "Image processed successfully" [] ;;
                 ret (content
                        ++ [ImagePart ("data:" +:+ mimeType +:+ ";base64,"
                              +:+ c_base64 (w_chat w) (resp_text imageResponse))])
               else
                 consoleError "Failed to fetch image:" [LStr (att_url attachment)] ;;
                 ret content)
            (fun error =>
               consoleError "Error processing image:" [LExn error] ;;
               ret content) ;;
        collectImages rest content' true
      else collectImages rest content hasImages
  end.

Definition failure (message : string) (args : SendArgs) : SendResult :=
  mkSendResult None (Some message) (send_threadId args) None.

(** Lines 113-277: what the attachments add.  [inl r] is the early return of
    the vision branch, [inr prompt] goes on to [thread.generateText]. *)
Definition withAttachments (args : SendArgs) (attachments : list Attachment)
    (threadId : string) : Eff (SendResult + string) :=
  let metadata := JObj [("attachments", JArr (map attachmentJson attachments))] in
  pdfTexts <- extractPdfs attachments [] ;;
  let prompt := promptFor pdfTexts (send_message args) in
  modelConfig <- getConfig w ;;
  let supportsVision :=
    existsb
      (fun token =>
         match modelConfig with
         | Some c => JsString.includes token (cfg_model c)
         | None => false
         end)
      visionModelTokens in
  if supportsVision then
    let messageText := promptFor pdfTexts (send_message args) in
    let content := if hasNonBlank messageText then [TextPart messageText] else [] in
    r <- collectImages attachments content false ;;
    if snd r && Nat.ltb 0 (length (fst r)) then
      consoleLog "Using direct AI SDK for vision" [] ;;
      responseText <- aiGenerateText (fst r) ;;
      tryCatch
        (runMutation w
           (MutInsertMessage (Some threadId) "user" (send_message args) (Some metadata)))
        (fun e => consoleError "Failed to insert user message:" [LExn e]) ;;
      tryCatch
        (runMutation w (MutInsertMessage (Some threadId) "assistant" responseText None))
        (fun e => consoleError "Failed to insert assistant message:" [LExn e]) ;;
      runMutation w (MutActivityLog (mkActivity "chat_message" (logSummary args) "private")) ;;
      ret (inl (mkSendResult (Some responseText) None (Some threadId) None))
    else ret (inr prompt)
  else ret (inr prompt).

(** The [try] block of the handler, lines 79-334. *)
Definition respond (args : SendArgs) : Eff SendResult :=
  resolveModel w ;;
  agent <- createDynamicAgent w None ;;
  threadId <-
    match provided (send_threadId args) with
    | Some t => continueThread t ;; ret t
    | None => createThread
    end ;;
  config <- getConfig w ;;
  tools <- loadTools w None ;;
  early <-
    match send_attachments args with
    | Some (a :: rest) => withAttachments args (a :: rest) threadId
    | _ => ret (inr (send_message args))
    end ;;
  match early with
  | inl result => ret result
  | inr prompt =>
      let hasTools := negb (bool_decide (tools = ∅)) in
      result <- threadGenerateText prompt hasTools ;;
      runMutation w (MutActivityLog (mkActivity "chat_message" (logSummary args) "private")) ;;
      ret (mkSendResult (Some (gen_text result)) None (Some threadId)
             (match gen_toolCalls result with
              | [] => None
              | calls => Some calls
              end))
  end.

(** The handler of [send]. *)
Definition send (args : SendArgs) : Eff SendResult :=
  ok <- rateLimit "publicChat" (send_sessionId args) ;;
  if negb ok then ret (failure RATE_LIMIT_MESSAGE args)
  else
    globalOk <- rateLimit "globalMessages" "global" ;;
    if negb globalOk then ret (failure BUSY_MESSAGE args)
    else if Nat.ltb MAX_MESSAGE_LENGTH (String.length (send_message args)) then
      ret (failure "Message too long. Maximum 4000 characters." args)
    else
      tryCatch
        (respond args)
        (fun error =>
           consoleError "Chat error:" [LExn error] ;;
           ret (failure "Failed to generate response. Please try again." args)).

End Chat.

(** * Properties *)

(** ** Strings *)

Lemma length_slice0 n s :
  String.length (JsString.slice0 n s) = Nat.min n (String.length s).
Proof.
  revert s; induction n as [|n IH]; intros [|c s]; simpl; auto.
Qed.

Lemma chars_slice0 n s :
  JsString.chars (JsString.slice0 n s) = take n (JsString.chars s).
Proof.
  revert s; induction n as [|n IH]; intros [|c s]; simpl; auto.
  by rewrite IH.
Qed.

Lemma chars_app s t :
  JsString.chars (s +:+ t) = JsString.chars s ++ JsString.chars t.
Proof. induction s as [|c s IH]; simpl; [done|]. by rewrite IH. Qed.

(** ** Tool names *)

Definition validName (s : string) : Prop :=
  Forall (fun c => isNameChar c = true) (JsString.chars s).

Lemma replaceInvalid_valid s : validName (replaceInvalid s).
Proof.
  unfold validName. induction s as [|c s IH]; simpl; constructor; auto.
  destruct (isNameChar c) eqn:E; auto.
Qed.

Lemma collapse_valid s : validName s -> validName (collapseUnderscores s).
Proof.
  unfold validName. induction s as [|c s IH]; simpl; [done|].
  intros H. apply Forall_cons in H as [Hc Hs].
  destruct s as [|c' s']; [by constructor|].
  destruct (Ascii.eqb c underscore && Ascii.eqb c' underscore).
  - auto.
  - constructor; auto.
Qed.

Definition firstChar (s : string) : option ascii :=
  match s with EmptyString => None | String c _ => Some c end.

Lemma collapse_firstChar s : firstChar (collapseUnderscores s) = firstChar s.
Proof.
  induction s as [|c s IH]; [done|].
  destruct s as [|c' s']; [done|].
  change (collapseUnderscores (String c (String c' s')))
    with (if Ascii.eqb c underscore && Ascii.eqb c' underscore
          then collapseUnderscores (String c' s')
          else String c (collapseUnderscores (String c' s'))).
  destruct (Ascii.eqb c underscore) eqn:E1, (Ascii.eqb c' underscore) eqn:E2;
    simpl andb; cbv iota; try reflexivity.
  rewrite IH. simpl. apply Ascii.eqb_eq in E1, E2. congruence.
Qed.

Lemma collapse_no_run s : hasRun underscore (collapseUnderscores s) = false.
Proof.
  induction s as [|c s IH]; [done|].
  destruct s as [|c' s']; [done|].
  change (collapseUnderscores (String c (String c' s')))
    with (if Ascii.eqb c underscore && Ascii.eqb c' underscore
          then collapseUnderscores (String c' s')
          else String c (collapseUnderscores (String c' s'))).
  destruct (Ascii.eqb c underscore && Ascii.eqb c' underscore) eqn:E; [exact IH|].
  pose proof (collapse_firstChar (String c' s')) as Hh.
  destruct (collapseUnderscores (String c' s')) as [|d t] eqn:Ec; [done|].
  simpl in Hh. injection Hh as ->.
  change (hasRun underscore (String c (String c' t)))
    with ((Ascii.eqb c underscore && Ascii.eqb c' underscore)
          || hasRun underscore (String c' t)).
  by rewrite E, IH.
Qed.

Lemma slice0_no_run c n s :
  hasRun c s = false -> hasRun c (JsString.slice0 n s) = false.
Proof.
  revert s; induction n as [|n IH]; intros s H; [done|].
  destruct s as [|a s]; [done|].
  destruct s as [|b s']; [by destruct n|].
  change (hasRun c (String a (String b s')))
    with ((Ascii.eqb a c && Ascii.eqb b c) || hasRun c (String b s')) in H.
  apply orb_false_iff in H as [H1 H2].
  specialize (IH _ H2).
  destruct n as [|n']; [done|].
  change (JsString.slice0 (S (S n')) (String a (String b s')))
    with (String a (JsString.slice0 (S n') (String b s'))).
  change (JsString.slice0 (S n') (String b s'))
    with (String b (JsString.slice0 n' s')) in *.
  change (hasRun c (String a (String b (JsString.slice0 n' s'))))
    with ((Ascii.eqb a c && Ascii.eqb b c)
          || hasRun c (String b (JsString.slice0 n' s'))).
  by rewrite H1, IH.
Qed.

Lemma slice0_valid n s : validName s -> validName (JsString.slice0 n s).
Proof.
  unfold validName. rewrite chars_slice0. apply Forall_take.
Qed.

(** What a sanitized name looks like. *)
Definition wellFormedKey (k : string) : Prop :=
  validName k /\ hasRun underscore k = false /\ (String.length k <= 128)%nat.

Lemma sanitizeName_wellFormed name : wellFormedKey (sanitizeName name).
Proof.
  unfold wellFormedKey, sanitizeName. split; [|split].
  - apply slice0_valid, collapse_valid, replaceInvalid_valid.
  - apply slice0_no_run, collapse_no_run.
  - rewrite length_slice0. lia.
Qed.

Example sanitize_spaces :
  sanitizeName "get  weather (v2)" = "get_weather_v2_".
Proof. reflexivity. Qed.

Example sanitize_dots : sanitizeName "a.b..c__d" = "a_b_c_d".
Proof. reflexivity. Qed.

Example sanitize_keeps_proto_out : sanitizeName "__proto__" = "_proto_".
Proof. reflexivity. Qed.

(** ** Reasoning about computations *)

(** Unfolds the monad. *)
Ltac eff_red :=
  cbv beta iota zeta delta [bind ret throw tryCatch emit history lift getDb putDb
    consoleLog consoleWarn consoleError trace db fst snd].

Ltac eff_red_all :=
  cbv beta iota zeta delta [bind ret throw tryCatch emit history lift getDb putDb
    consoleLog consoleWarn consoleError trace db fst snd] in *.



(** An answer of the environment is given a name as soon as the history it
    depends on is made of names only: the terms stay small. *)
Ltac no_oracle h :=
  lazymatch h with
  | context [w_now _ _] => fail
  | context [w_fetch _ _ _] => fail
  | context [w_checkSecurity _ _ _ _ _] => fail
  | context [w_runAction _ _ _] => fail
  | context [w_mutationFailure _ _ _] => fail
  | context [w_queryFailure _ _ _] => fail
  | context [w_rateLimit _ _ _ _] => fail
  | _ => idtac
  end.

Ltac name_as x := let v := fresh "o" in set (v := x) in *; clearbody v.

Ltac name_oracle_in G :=
  match G with
  | context [w_now ?w ?h] => no_oracle h; name_as (w_now w h)
  | context [w_fetch ?w ?h ?r] => no_oracle h; name_as (w_fetch w h r)
  | context [w_checkSecurity ?w ?h ?a ?b ?c] =>
      no_oracle h; name_as (w_checkSecurity w h a b c)
  | context [w_runAction ?w ?h ?a] => no_oracle h; name_as (w_runAction w h a)
  | context [w_mutationFailure ?w ?h ?m] =>
      no_oracle h; no_oracle m; name_as (w_mutationFailure w h m)
  | context [w_queryFailure ?w ?h ?q] => no_oracle h; name_as (w_queryFailure w h q)
  | context [w_rateLimit ?w ?h ?a ?b] => no_oracle h; name_as (w_rateLimit w h a b)
  end.

Ltac name_oracle :=
  match goal with
  | H : ?T |- _ => name_oracle_in T
  | |- ?G => name_oracle_in G
  end.

(** Case analysis on everything the run branches on. *)
Ltac eff_cases :=
  repeat name_oracle;
  repeat (case_match; simplify_eq; eff_red_all; repeat name_oracle).

Ltac trace_norm := rewrite <- ?app_assoc; cbn [app].


(** [quiet φ m]: whatever the state, [m] leaves the tables alone and appends
    only events that satisfy [φ]. *)
Definition quiet {A : Type} (φ : event -> Prop) (m : Eff A) : Prop :=
  forall st, exists new,
    snd (m st) = mkState (trace st ++ new) (db st) /\ Forall φ new.

Lemma quiet_ret {A} φ (a : A) : quiet φ (ret a).
Proof. intros [tr d]. exists []. simpl. by rewrite app_nil_r. Qed.

Lemma quiet_throw {A} φ e : quiet φ (@throw A e).
Proof. intros [tr d]. exists []. simpl. by rewrite app_nil_r. Qed.

Lemma quiet_lift {A} φ (r : Exn + A) : quiet φ (lift r).
Proof. destruct r; [apply quiet_throw | apply quiet_ret]. Qed.

Lemma quiet_history φ : quiet φ history.
Proof. intros [tr d]. exists []. simpl. by rewrite app_nil_r. Qed.

Lemma quiet_emit (φ : event -> Prop) e : φ e -> quiet φ (emit e).
Proof. intros H st. exists [e]. split; [done|]. by constructor. Qed.

Lemma quiet_bind {A B} φ (m : Eff A) (k : A -> Eff B) :
  quiet φ m -> (forall a, quiet φ (k a)) -> quiet φ (bind m k).
Proof.
  intros Hm Hk st. unfold bind.
  destruct (Hm st) as (new1 & E1 & F1).
  destruct (m st) as [[e|a] st1]; simpl in E1; subst st1.
  - exists new1. by split.
  - destruct (Hk a (mkState (trace st ++ new1) (db st))) as (new2 & E2 & F2).
    exists (new1 ++ new2). simpl in E2. rewrite E2, app_assoc.
    split; [done|]. by apply Forall_app.
Qed.

Lemma quiet_tryCatch {A} φ (m : Eff A) (h : Exn -> Eff A) :
  quiet φ m -> (forall e, quiet φ (h e)) -> quiet φ (tryCatch m h).
Proof.
  intros Hm Hh st. unfold tryCatch.
  destruct (Hm st) as (new1 & E1 & F1).
  destruct (m st) as [[e|a] st1]; simpl in E1; subst st1.
  - destruct (Hh e (mkState (trace st ++ new1) (db st))) as (new2 & E2 & F2).
    exists (new1 ++ new2). simpl in E2. rewrite E2, app_assoc.
    split; [done|]. by apply Forall_app.
  - exists new1. by split.
Qed.

Lemma quiet_mono {A} (φ ψ : event -> Prop) (m : Eff A) :
  (forall e, φ e -> ψ e) -> quiet φ m -> quiet ψ m.
Proof.
  intros H Hm st. destruct (Hm st) as (new & E & F).
  exists new. split; [done|]. eapply Forall_impl; eauto.
Qed.

Lemma quiet_console φ level template args :
  φ (EvConsole level template args) -> quiet φ (emit (EvConsole level template args)).
Proof. apply quiet_emit. Qed.

Lemma quiet_fetch φ w r : φ (EvFetch r) -> quiet φ (fetch w r).
Proof.
  intros H. unfold fetch.
  apply quiet_bind; [apply quiet_history|]. intros h.
  apply quiet_bind; [by apply quiet_emit|]. intros _. apply quiet_lift.
Qed.

Lemma quiet_runQuery φ w q : φ (EvRunQuery q) -> quiet φ (runQuery w q).
Proof.
  intros H. unfold runQuery.
  apply quiet_bind; [apply quiet_history|]. intros h.
  apply quiet_bind; [by apply quiet_emit|]. intros _.
  destruct (w_queryFailure w h q); [apply quiet_throw | apply quiet_ret].
Qed.

(** Breaks a goal [quiet φ m] down along the structure of [m]. *)
Ltac quiet_step :=
  match goal with
  | |- quiet _ (bind _ _) => apply quiet_bind; [|intros ?]
  | |- quiet _ (tryCatch _ _) => apply quiet_tryCatch; [|intros ?]
  | |- quiet _ (ret _) => apply quiet_ret
  | |- quiet _ (throw _) => apply quiet_throw
  | |- quiet _ (lift _) => apply quiet_lift
  | |- quiet _ history => apply quiet_history
  | |- quiet _ (consoleLog _ _) => apply quiet_emit
  | |- quiet _ (consoleWarn _ _) => apply quiet_emit
  | |- quiet _ (consoleError _ _) => apply quiet_emit
  | |- quiet _ (emit _) => apply quiet_emit
  | |- quiet _ (fetch _ _) => apply quiet_fetch
  | |- quiet _ (runQuery _ _) => apply quiet_runQuery
  | |- quiet _ (if ?b then _ else _) => destruct b
  | |- quiet _ (match ?x with _ => _ end) => destruct x
  end.

Ltac quiet_auto := repeat quiet_step; try done.

(** An event that is neither a security check nor an audit-log mutation:
    all that the MCP client and the loader do. *)
Definition isClientEvent (e : event) : Prop :=
  match e with
  | EvFetch _ | EvConsole _ _ _ | EvRunQuery _ => True
  | _ => False
  end.

Lemma mcpPickResult_quiet φ data : quiet φ (mcpPickResult data).
Proof. unfold mcpPickResult. quiet_auto. Qed.

Lemma mcpAttempt_quiet w url apiKey toolName args :
  quiet isClientEvent (mcpAttempt w url apiKey toolName args).
Proof. unfold mcpAttempt. quiet_auto; apply mcpPickResult_quiet. Qed.

Lemma mcpTryUrls_quiet w urls lastError apiKey toolName args :
  quiet isClientEvent (mcpTryUrls w urls lastError apiKey toolName args).
Proof.
  revert lastError. induction urls as [|url rest IH]; intros lastError; simpl.
  - apply quiet_throw.
  - apply quiet_bind; [apply mcpAttempt_quiet|]. intros [e|v]; [apply IH|apply quiet_ret].
Qed.

Lemma mcpToolHandler_quiet w serverUrl mcpTool serverName apiKey args :
  quiet isClientEvent (mcpToolHandler w serverUrl mcpTool serverName apiKey args).
Proof.
  unfold mcpToolHandler.
  apply quiet_tryCatch; [|intros; quiet_auto].
  apply quiet_bind; [quiet_auto|]. intros _.
  apply quiet_bind; [quiet_auto|]. intros _.
  apply mcpTryUrls_quiet.
Qed.

(** ** The MCP client: one call *)

Definition isConsole (e : event) : Prop :=
  match e with EvConsole _ _ _ => True | _ => False end.

(** The requests of a trace, in order. *)
Definition requestsOf (tr : list event) : list Request :=
  omap (fun e => match e with EvFetch r => Some r | _ => None end) tr.

Lemma requestsOf_app a b : requestsOf (a ++ b) = requestsOf a ++ requestsOf b.
Proof. apply omap_app. Qed.

Lemma requestsOf_console tr : Forall isConsole tr -> requestsOf tr = [].
Proof.
  induction 1 as [|e tr He _ IH]; [done|].
  destruct e; done.
Qed.

(** The events of a run from [st] to [st']. *)
Definition eventsSince (st st' : State) : list event :=
  drop (length (trace st)) (trace st').

Lemma eventsSince_app tr new d d' :
  eventsSince (mkState tr d) (mkState (tr ++ new) d') = new.
Proof. unfold eventsSince. cbn [trace]. by rewrite drop_app_length. Qed.

(** A turn of the loop never throws, sends exactly one request, its first
    act, and then only writes to the console. *)
Lemma mcpAttempt_returns w url apiKey toolName args st :
  exists r rest,
    mcpAttempt w url apiKey toolName args st
    = (inr r, mkState (trace st ++ EvFetch (mcpCallRequest url apiKey toolName args) :: rest)
                      (db st))
    /\ Forall isConsole rest.
Proof.
  destruct st as [tr d].
  unfold mcpAttempt, fetch, mcpPickResult. eff_red. eff_cases.
  all: eexists _, _; (split; [rewrite <- ?app_assoc; cbn [app]; reflexivity|]);
  repeat constructor.
Qed.

(** The whole handler, in terms of its turns. *)
Lemma mcpToolHandler_run w serverUrl mcpTool serverName apiKey args st :
  let toolName := mcpToolName mcpTool in
  let rq url := mcpCallRequest url apiKey toolName args in
  exists v new pre,
    mcpToolHandler w serverUrl mcpTool serverName apiKey args st
      = (inr v, mkState (trace st ++ new) (db st))
    /\ Forall isConsole pre
    /\ exists r1 s1,
         mcpAttempt w serverUrl apiKey toolName args (mkState (trace st ++ pre) (db st))
           = (inr r1, s1)
         /\ match r1 with
            | inr v1 => v = v1 /\ requestsOf new = [rq serverUrl]
            | inl e1 =>
                exists r2 s2,
                  mcpAttempt w (toolsCallUrl serverUrl) apiKey toolName args s1 = (inr r2, s2)
                  /\ requestsOf new = [rq serverUrl; rq (toolsCallUrl serverUrl)]
                  /\ match r2 with
                     | inr v2 => v = v2
                     | inl e2 => v = errorObject (exn_message e2)
                     end
            end.
Proof.
  intros toolName rq. destruct st as [tr d].
  set (keyLog := match apiKey with
                 | Some k =>
                     if JsString.truthy k
                     then [EvConsole "log" "[MCP] Using API key for ${serverName}"
                             [LStr serverName]]
                     else []
                 | None => []
                 end).
  set (pre := EvConsole "log" CALLING_MESSAGE
                [LJson toolName; LStr serverUrl; LJson args] :: keyLog).
  assert (Hpre : Forall isConsole pre).
  { constructor; [done|]. subst keyLog. repeat case_match; repeat constructor. }
  destruct (mcpAttempt_returns w serverUrl apiKey toolName args (mkState (tr ++ pre) d))
    as (r1 & rest1 & E1 & F1).
  assert (Hstart : forall A (k : Eff A),
    bind (consoleLog CALLING_MESSAGE
            [LJson toolName; LStr serverUrl; LJson args])
      (fun _ => bind (match apiKey with
        | Some k0 => if JsString.truthy k0
            then consoleLog "[MCP] Using API key for ${serverName}" [LStr serverName]
            else ret tt
        | None => ret tt end) (fun _ => k)) (mkState tr d) = k (mkState (tr ++ pre) d)).
  { intros A k. subst pre keyLog. eff_red.
    destruct apiKey as [k0|]; [destruct (JsString.truthy k0)|];
      rewrite <- ?app_assoc, ?app_nil_r; reflexivity. }
  clearbody pre. clear keyLog.
  unfold mcpToolHandler, tryCatch. fold toolName. rewrite Hstart.
  unfold urlsToTry, mcpTryUrls, bind at 1. rewrite E1. cbn [trace db] in *.
  change (mcpCallRequest serverUrl apiKey toolName args) with (rq serverUrl) in *.
  destruct r1 as [e1|v1].
  - destruct (mcpAttempt_returns w (toolsCallUrl serverUrl) apiKey toolName args
                (mkState ((tr ++ pre) ++ EvFetch (rq serverUrl) :: rest1) d))
      as (r2 & rest2 & E2 & F2).
    cbn [trace db] in E2. unfold bind.
    change (mcpCallRequest (toolsCallUrl serverUrl) apiKey toolName args)
      with (rq (toolsCallUrl serverUrl)) in *.
    rewrite E2.
    assert (Hreq : requestsOf (pre ++ EvFetch (rq serverUrl) :: rest1
                     ++ EvFetch (rq (toolsCallUrl serverUrl)) :: rest2)
                   = [rq serverUrl; rq (toolsCallUrl serverUrl)]).
    { rewrite requestsOf_app. simpl. rewrite requestsOf_app. simpl.
      by rewrite (requestsOf_console pre), (requestsOf_console rest1),
        (requestsOf_console rest2). }
    destruct r2 as [e2|v2]; eff_red.
    + eexists _, (pre ++ EvFetch (rq serverUrl) :: rest1
                     ++ EvFetch (rq (toolsCallUrl serverUrl)) :: rest2 ++ [_]), pre.
      split; [by rewrite <- !app_assoc; cbn [app]; rewrite <- ?app_assoc|].
      split; [done|]. eexists _, _. split; [exact E1|].
      eexists _, _. split; [exact E2|]. split; [|done].
      rewrite !app_comm_cons, !app_assoc, requestsOf_app, <- !app_assoc, <- !app_comm_cons.
      rewrite Hreq. simpl. reflexivity.
    + eexists _, (pre ++ EvFetch (rq serverUrl) :: rest1
                     ++ EvFetch (rq (toolsCallUrl serverUrl)) :: rest2), pre.
      split; [by rewrite <- !app_assoc; cbn [app]; rewrite <- ?app_assoc|].
      split; [done|]. eexists _, _. split; [exact E1|].
      eexists _, _. split; [exact E2|]. split; [exact Hreq|done].
  - eff_red. eexists _, (pre ++ EvFetch (rq serverUrl) :: rest1), pre.
    split; [by rewrite <- !app_assoc|].
    split; [done|]. eexists _, _. split; [exact E1|].
    split; [done|].
    rewrite !requestsOf_app. simpl.
    rewrite (requestsOf_console pre), (requestsOf_console rest1); done.
Qed.

Example toolsCallUrl_plain :
  toolsCallUrl "https://mcp.example.com/mcp" = "https://mcp.example.com/mcp/tools/call".
Proof. reflexivity. Qed.

Example toolsCallUrl_slash :
  toolsCallUrl "https://mcp.example.com/" = "https://mcp.example.com/tools/call".
Proof. reflexivity. Qed.

(** ** Skill tools: the audit record *)






(** ** Skill tools: the security check comes first *)



(** ** Concrete environments *)

(** A string between double quotes. *)
Definition quoted (s : string) : string := dquote +:+ s +:+ dquote.

Definition syntaxError : Exn := mkExn "SyntaxError" "Unexpected end of JSON input".

Definition fetchFailed : Exn := mkExn "TypeError" "fetch failed".

(** A stand-in for [truncateForLog]: the first 1000 characters of a string. *)
Definition sampleTruncate (j : json) : string :=
  match j with
  | JStr s => JsString.slice0 1000 s
  | _ => "[object Object]"
  end.

Definition quietChat : ChatEnv :=
  mkChatEnv (fun _ => None) None (fun _ => None) (fun _ => None) (fun _ _ => None)
    (fun _ => inr "thread-1") (fun _ _ => inr (mkGenResult "Hello!" []))
    (fun _ => inr "I see an image.") (fun _ => false) (fun s => inr s) (fun s => s).

(** An environment in which the clock counts the events so far, nothing
    fails but what the arguments say, and every skill is allowed or denied
    according to [allowed]. *)
Definition sampleWorld
    (parse : string -> Exn + json) (newUrl : json -> option Url)
    (fetchAnswer : Request -> Exn + Response) (allowed : bool)
    (skills : list Skill) (servers : list McpServer)
    (skillIds mcpIds : list string) (rateOk : string -> bool) : World :=
  mkWorld
    (fun h => Z.of_nat (length h))
    parse newUrl (fun _ => None)
    (fun _ => fetchAnswer)
    (fun _ _ _ _ =>
       mkSecurity allowed "Skill is not permitted" (if allowed then "allowed" else "denied"))
    sampleTruncate
    (fun _ _ => inr (JStr "done"))
    (fun _ _ => None) (fun _ _ => None)
    (fun _ => skillIds) (fun _ => mcpIds)
    skills servers []
    ["anthropic"; "openai"; "openrouter"; "xai"]
    (fun _ name _ => rateOk name)
    quietChat.

Definition noParse (s : string) : Exn + json := inl syntaxError.

Definition noFetch (r : Request) : Exn + Response := inl fetchFailed.

Definition emptyDb : Db := mkDb None [] [] [].

Definition initial : State := mkState [] emptyDb.

Definition okResponse (url text : string) : Response :=
  mkResponse true 200 "OK" [("content-type", "application/json")] url text.

(** The text [{"result":"42"}]. *)
Definition resultText : string :=
  "{" +:+ quoted "result" +:+ ":" +:+ quoted "42" +:+ "}".

Definition mcpWorld : World :=
  sampleWorld
    (fun s => if String.eqb s resultText then inr (JObj [("result", JStr "42")])
              else inl syntaxError)
    (fun _ => None)
    (fun r => if String.eqb (req_url r) "https://mcp.example.com/mcp"
              then inr (okResponse (req_url r) resultText) else inl fetchFailed)
    true [] [] [] [] (fun _ => true).

Definition searchTool : json :=
  JObj [("name", JStr "search"); ("description", JStr "Search the web")].

Definition greetSkill : Skill :=
  mkSkill "skill-1" "greet" "Greets" Template (Some "greeting") None.



Lemma endsWithChar_dropLast c s :
  JsString.endsWithChar c s = true ->
  s = JsString.dropLast s +:+ String c EmptyString.
Proof.
  induction s as [|a s IH]; [done|].
  destruct s as [|b s'].
  - simpl. intros H. apply Ascii.eqb_eq in H. by subst.
  - intros H. specialize (IH H).
    change (String a (String b s')
            = String a (JsString.dropLast (String b s') +:+ String c EmptyString)).
    f_equal. exact IH.
Qed.

Lemma requestsOf_In r tr : In r (requestsOf tr) -> In (EvFetch r) tr.
Proof.
  induction tr as [|e tr IH]; [done|].
  unfold requestsOf. destruct e; simpl; try (intros H; right; exact (IH H)).
  intros [->|H]; [by left | right; exact (IH H)].
Qed.

(** C1 (the code at the failing input).  A call of an MCP-proxied tool
    returns after sending its request to the server, and nothing it does is a
    security check or a write to the audit log: all its events are requests
    and console lines, and the tables are as before. *)
Theorem mcp_tool_call_unchecked w serverUrl mcpTool serverName apiKey args st :
  exists v new,
    mcpToolHandler w serverUrl mcpTool serverName apiKey args st
      = (inr v, mkState (trace st ++ new) (db st))
    /\ In (EvFetch (mcpCallRequest serverUrl apiKey (mcpToolName mcpTool) args)) new
    /\ Forall isClientEvent new.
Proof.
  destruct (mcpToolHandler_run w serverUrl mcpTool serverName apiKey args st)
    as (v & new & pre & E & _ & r1 & s1 & _ & Hr).
  destruct (mcpToolHandler_quiet w serverUrl mcpTool serverName apiKey args st)
    as (new' & E' & F).
  rewrite E in E'. cbn [snd] in E'.
  assert (new = new') as <-.
  { injection E' as E'. by apply app_inv_head in E'. }
  exists v, new. split; [exact E|]. split; [|exact F].
  apply requestsOf_In.
  destruct r1 as [e1|v1].
  - destruct Hr as (r2 & s2 & _ & -> & _). by left.
  - destruct Hr as (_ & ->). by left.
Qed.





(** ** The MCP client: what an endpoint's answer comes to *)

(** The value read off a parsed answer: [result] when the document has one,
    else [output], else [content], else the document; reading [result] off
    [null] throws. *)
Definition pickedResult (data : json) : Exn + json :=
  match Js.prop "result" (Some data) with
  | inl e => inl e
  | inr (Some v) => inr v
  | inr None =>
      inr (match Js.optProp "output" (Some data) with
           | Some v => v
           | None =>
               match Js.optProp "content" (Some data) with
               | Some v => v
               | None => data
               end
           end)
  end.

(** What one turn of the loop makes of the outcome of its request: the value
    it returns, or the error it keeps as [lastError]. *)
Definition endpointAnswer (w : World) (r : Exn + Response) : Exn + json :=
  match r with
  | inl e => inl e
  | inr response =>
      if resp_ok response then
        match w_jsonParse w (resp_text response) with
        | inr data => pickedResult data
        | inl _ =>
            match sseMatch (resp_text response) with
            | Some group =>
                match w_jsonParse w group with
                | inr data => pickedResult data
                | inl _ => inl (mkExn "Error" "Invalid SSE format")
                end
            | None => inl (mkExn "Error" "Non-JSON response")
            end
        end
      else
        inl (mkExn "Error"
               ("HTTP " +:+ showZ (resp_status response) +:+ ": "
                  +:+ JsString.slice0 200 (resp_text response)))
  end.

(** The lines written before the first request of a call. *)
Definition callPrelude (serverUrl : string) (mcpTool : json) (serverName : string)
    (apiKey : option string) (args : json) : list event :=
  EvConsole "log" CALLING_MESSAGE [LJson (mcpToolName mcpTool); LStr serverUrl; LJson args]
  :: match apiKey with
     | Some k =>
         if JsString.truthy k
         then [EvConsole "log" "[MCP] Using API key for ${serverName}" [LStr serverName]]
         else []
     | None => []
     end.

Lemma callPrelude_console serverUrl mcpTool serverName apiKey args :
  Forall isConsole (callPrelude serverUrl mcpTool serverName apiKey args).
Proof. constructor; [done|]. repeat case_match; repeat constructor. Qed.

(** A turn of the loop: one request, then console lines, and the outcome
    read off the answer to the request. *)
Lemma mcpAttempt_exact w url apiKey toolName args st :
  exists logs,
    mcpAttempt w url apiKey toolName args st
    = (inr (endpointAnswer w (w_fetch w (trace st) (mcpCallRequest url apiKey toolName args))),
       mkState (trace st ++ EvFetch (mcpCallRequest url apiKey toolName args) :: logs)
         (db st))
    /\ Forall isConsole logs.
Proof.
  destruct st as [tr d].
  unfold mcpAttempt, fetch, mcpPickResult, endpointAnswer, pickedResult. eff_red.
  eff_cases.
  all: eexists; (split; [rewrite <- ?app_assoc; cbn [app]; reflexivity|]);
    repeat constructor.
Qed.

Lemma mcpToolHandler_start {A} serverUrl mcpTool serverName apiKey args
    (k : Eff A) tr d :
  bind (consoleLog CALLING_MESSAGE [LJson (mcpToolName mcpTool); LStr serverUrl; LJson args])
    (fun _ => bind (match apiKey with
                    | Some k0 =>
                        if JsString.truthy k0
                        then consoleLog "[MCP] Using API key for ${serverName}"
                               [LStr serverName]
                        else ret tt
                    | None => ret tt
                    end) (fun _ => k)) (mkState tr d)
  = k (mkState (tr ++ callPrelude serverUrl mcpTool serverName apiKey args) d).
Proof.
  unfold callPrelude. eff_red.
  destruct apiKey as [k0|]; [destruct (JsString.truthy k0)|];
    rewrite <- ?app_assoc, ?app_nil_r; reflexivity.
Qed.

(** C7.  A call of an MCP-proxied tool posts the JSON-RPC [tools/call]
    request to the bare server URL first.  The answer to a request is a
    success when the response is [ok] and its body, as JSON or as the JSON of
    a [data:] line, gives a value; a request that throws, a status that is not
    [ok] and a body that is not understood are failures.  When the first
    request succeeds its value is returned and no other request is made.
    Otherwise the same request goes to the server URL with its final slash,
    if it has one, replaced by [/tools/call]: the value of a success there is
    returned, and when that attempt fails too the caller gets the message of
    its error, the last one. *)
Theorem mcp_call_endpoints w serverUrl mcpTool serverName apiKey args st :
  let toolName := mcpToolName mcpTool in
  let rq url := mcpCallRequest url apiKey toolName args in
  let run := mcpToolHandler w serverUrl mcpTool serverName apiKey args st in
  let h := trace st ++ callPrelude serverUrl mcpTool serverName apiKey args in
  (forall url,
     req_url (rq url) = url /\ req_method (rq url) = "POST"
     /\ req_body (rq url) = Some (BodyJson (toolsCallBody toolName args)))
  /\ (exists base,
        toolsCallUrl serverUrl = base +:+ "/tools/call"
        /\ ((serverUrl = base /\ JsString.endsWithChar "/" serverUrl = false)
            \/ serverUrl = base +:+ "/"))
  /\ match endpointAnswer w (w_fetch w h (rq serverUrl)) with
     | inr v1 =>
         fst run = inr v1
         /\ requestsOf (eventsSince st (snd run)) = [rq serverUrl]
     | inl e1 =>
         exists logs,
           Forall isConsole logs
           /\ requestsOf (eventsSince st (snd run))
              = [rq serverUrl; rq (toolsCallUrl serverUrl)]
           /\ fst run
              = inr match endpointAnswer w
                            (w_fetch w (h ++ EvFetch (rq serverUrl) :: logs)
                               (rq (toolsCallUrl serverUrl))) with
                    | inr v2 => v2
                    | inl e2 => errorObject (exn_message e2)
                    end
     end.
Proof.
  intros toolName rq run h. split; [done|]. split.
  { unfold toolsCallUrl.
    destruct (JsString.endsWithChar "/" serverUrl) eqn:E.
    - exists (JsString.dropLast serverUrl). split; [done|]. right.
      by apply endsWithChar_dropLast.
    - exists serverUrl. split; [done|]. by left. }
  subst h. destruct st as [tr d]. cbn [trace].
  pose proof (callPrelude_console serverUrl mcpTool serverName apiKey args) as Hpre.
  set (pre := callPrelude serverUrl mcpTool serverName apiKey args) in *.
  assert (HR : run = mcpToolHandler w serverUrl mcpTool serverName apiKey args
                       (mkState tr d)) by reflexivity.
  clearbody run.
  unfold mcpToolHandler, tryCatch in HR.
  rewrite mcpToolHandler_start in HR. fold pre toolName in HR. clearbody pre.
  destruct (mcpAttempt_exact w serverUrl apiKey toolName args (mkState (tr ++ pre) d))
    as (logs1 & E1 & F1).
  cbn [trace db] in E1.
  unfold urlsToTry, mcpTryUrls in HR. unfold bind at 1 in HR. rewrite E1 in HR.
  change (mcpCallRequest serverUrl apiKey toolName args) with (rq serverUrl) in *.
  destruct (endpointAnswer w (w_fetch w (tr ++ pre) (rq serverUrl))) as [e1|v1].
  - destruct (mcpAttempt_exact w (toolsCallUrl serverUrl) apiKey toolName args
                (mkState ((tr ++ pre) ++ EvFetch (rq serverUrl) :: logs1) d))
      as (logs2 & E2 & F2).
    cbn [trace db] in E2. unfold bind in HR.
    change (mcpCallRequest (toolsCallUrl serverUrl) apiKey toolName args)
      with (rq (toolsCallUrl serverUrl)) in *.
    rewrite E2 in HR.
    assert (Hreq : requestsOf (pre ++ EvFetch (rq serverUrl) :: logs1
                     ++ EvFetch (rq (toolsCallUrl serverUrl)) :: logs2)
                   = [rq serverUrl; rq (toolsCallUrl serverUrl)]).
    { rewrite requestsOf_app. simpl. rewrite requestsOf_app. simpl.
      by rewrite (requestsOf_console pre), (requestsOf_console logs1),
        (requestsOf_console logs2). }
    exists logs1. split; [exact F1|].
    rewrite <- (app_assoc tr pre) in *.
    destruct (endpointAnswer w
                (w_fetch w (tr ++ pre ++ EvFetch (rq serverUrl) :: logs1)
                   (rq (toolsCallUrl serverUrl)))) as [e2|v2]; eff_red_all; subst run;
      cbn [fst snd]; (split; [|reflexivity]).
    + rewrite <- ?app_assoc. cbn [app]. rewrite <- ?app_assoc, eventsSince_app.
      rewrite !app_comm_cons, !app_assoc, requestsOf_app, <- !app_assoc, <- !app_comm_cons.
      rewrite Hreq. simpl. reflexivity.
    + rewrite <- ?app_assoc. cbn [app]. rewrite <- ?app_assoc, eventsSince_app.
      exact Hreq.
  - eff_red_all. subst run. cbn [fst snd]. split; [reflexivity|].
    rewrite <- ?app_assoc, eventsSince_app.
    rewrite !requestsOf_app. simpl.
    rewrite (requestsOf_console pre), (requestsOf_console logs1); done.
Qed.

(** The bare URL answers 404 and the [/tools/call] endpoint answers: the
    value of the second attempt is returned. *)
Definition gatewayWorld : World :=
  sampleWorld
    (fun s => if String.eqb s resultText then inr (JObj [("result", JStr "42")])
              else inl syntaxError)
    (fun _ => None)
    (fun r => if String.eqb (req_url r) "https://gw.example.com/tools/call"
              then inr (okResponse (req_url r) resultText)
              else inr (mkResponse false 404 "Not Found" [] (req_url r) "no such route"))
    true [] [] [] [] (fun _ => true).

Example mcp_call_second_endpoint :
  fst (mcpToolHandler gatewayWorld "https://gw.example.com/" searchTool "exa" None
         (JObj []) initial) = inr (JStr "42")
  /\ requestsOf (trace (snd (mcpToolHandler gatewayWorld "https://gw.example.com/"
                               searchTool "exa" None (JObj []) initial)))
     = [mcpCallRequest "https://gw.example.com/" None (JStr "search") (JObj []);
        mcpCallRequest "https://gw.example.com/tools/call" None (JStr "search") (JObj [])].
Proof. vm_compute. split; reflexivity. Qed.

(** Both endpoints fail: the message of the second failure is returned. *)
Example mcp_call_last_error :
  fst (mcpToolHandler mcpWorld "https://down.example.com" searchTool "exa" None
         (JObj []) initial) = inr (errorObject "fetch failed")
  /\ requestsOf (trace (snd (mcpToolHandler mcpWorld "https://down.example.com"
                               searchTool "exa" None (JObj []) initial)))
     = [mcpCallRequest "https://down.example.com" None (JStr "search") (JObj []);
        mcpCallRequest "https://down.example.com/tools/call" None (JStr "search") (JObj [])].
Proof. vm_compute. split; reflexivity. Qed.

(** ** The model switching action *)

Definition isMutation (e : event) : bool :=
  match e with EvRunMutation _ _ => true | _ => false end.

Lemma find_provider_none provider (providers : list string) :
  ~ In provider providers ->
  find (fun p => String.eqb p provider) providers = None.
Proof.
  induction providers as [|p ps IH]; [done|].
  intros H. simpl. destruct (String.eqb p provider) eqn:E.
  - apply String.eqb_eq in E. subst. exfalso. apply H. by left.
  - apply IH. intros Hin. apply H. by right.
Qed.

(** C10.  When the provider given to [switchModel] is not one of the
    available providers, the action answers [success: false] and runs no
    mutation: the tables are as before, so the stored configuration keeps its
    model and provider and the activity log gains nothing. *)
Theorem switchModel_invalid_provider w provider model st :
  ~ In provider (w_providers w) ->
  exists message new,
    switchModel w provider model st
      = (inr (mkSwitchResult false message None None), mkState (trace st ++ new) (db st))
    /\ existsb isMutation new = false
    /\ agentConfig (db (snd (switchModel w provider model st))) = agentConfig (db st)
    /\ activityLog (db (snd (switchModel w provider model st))) = activityLog (db st).
Proof.
  intros Hp. destruct st as [tr d].
  unfold switchModel, getConfig, runQuery.
  rewrite (find_provider_none _ _ Hp). eff_red. eff_cases.
  all: eexists _, _; (split; [trace_norm; reflexivity|]); done.
Qed.

(** ** The web_fetch tool *)

Definition timeoutWithin (limit : Z) (e : event) : Prop :=
  match e with EvSetTimeout ms => ms <= limit | _ => True end.

(** C9.  When the [url] given to the web_fetch handler does not parse, or
    parses with a protocol other than [http:] and [https:], the handler
    answers an object with [success: false] and an [error] and leaves the
    state as it was: no request is sent.  In every case the timeout in effect
    is at most 60000 ms, as is every timer the handler sets. *)
Theorem webFetch_guard w args st :
  (w_newUrl w (JStr (wf_url args)) = None
   \/ (exists u, w_newUrl w (JStr (wf_url args)) = Some u
                 /\ url_protocol u <> "http:" /\ url_protocol u <> "https:") ->
   exists error message,
     webFetchHandler w args st = (inr (webFetchFailure error message), st))
  /\ finalTimeout args <= 60000
  /\ exists v new,
       webFetchHandler w args st = (inr v, mkState (trace st ++ new) (db st))
       /\ Forall (timeoutWithin 60000) new.
Proof.
  assert (Ht : finalTimeout args <= 60000).
  { unfold finalTimeout, MAX_TIMEOUT. lia. }
  split; [|split; [exact Ht|]].
  - unfold webFetchHandler. intros [-> | (u & -> & H1 & H2)]; [by eexists _, _|].
    apply String.eqb_neq in H1, H2. rewrite H1, H2. by eexists _, _.
  - destruct st as [tr d]. unfold webFetchHandler, fetch.
    generalize dependent (finalTimeout args). intros ft Ht.
    generalize (webFetchRequest args), (webFetchResult w args), (webFetchError args).
    intros rq res err.
    eff_red. eff_cases.
    all: first [ eexists _, []; split; [by rewrite app_nil_r | constructor]
               | eexists _, _; split; [trace_norm; reflexivity | repeat constructor; done] ].
Qed.

(** ** The chat action *)

Definition isRateLimit (e : event) : Prop :=
  match e with EvRateLimit _ _ _ => True | _ => False end.

(** Creating an agent, continuing or creating a thread, invoking the model. *)
Definition agentWork (e : event) : bool :=
  match e with
  | EvNewAgent _ | EvContinueThread _ | EvCreateThread
  | EvThreadGenerateText _ _ | EvAiGenerateText _
  | EvResolveModel | EvResolveModelFromConfig _ _ => true
  | _ => false
  end.

(** C8.  When the per-session rate-limit check of [chat.send] fails, or it
    passes and the global one fails, the action answers an error message
    together with the [threadId] it was given, and all it did is the
    rate-limit checks: no agent was created, no thread continued or created,
    the model was not invoked, and the tables are as before. *)
Theorem send_rate_limited w args st :
  let sessionOk := w_rateLimit w (trace st) "publicChat" (send_sessionId args) in
  let globalOk :=
    w_rateLimit w (trace st ++ [EvRateLimit "publicChat" (send_sessionId args) true])
      "globalMessages" "global" in
  sessionOk = false \/ (sessionOk = true /\ globalOk = false) ->
  exists message new,
    send w args st
      = (inr (mkSendResult None (Some message) (send_threadId args) None),
         mkState (trace st ++ new) (db st))
    /\ Forall isRateLimit new
    /\ existsb agentWork new = false
    /\ (message = RATE_LIMIT_MESSAGE \/ message = BUSY_MESSAGE).
Proof.
  intros sessionOk globalOk H. subst sessionOk globalOk. destruct st as [tr d].
  unfold send, rateLimit, failure. eff_red. cbn [trace db] in H.
  destruct H as [H | [H1 H2]].
  - rewrite H. cbn [negb]. eff_red.
    eexists _, _. split; [reflexivity|]. repeat split; [repeat constructor | by left].
  - rewrite H1. cbn [negb]. eff_red. rewrite H2. cbn [negb]. eff_red.
    eexists _, _. split; [trace_norm; reflexivity|].
    repeat split; [repeat constructor | by right].
Qed.

Definition busyWorld : World :=
  sampleWorld noParse (fun _ => None) noFetch true [] [] [] []
    (fun name => negb (String.eqb name "globalMessages")).

Definition openWorld : World :=
  sampleWorld noParse (fun _ => None) noFetch true [] [] [] [] (fun _ => true).

Definition helloArgs : SendArgs := mkSendArgs (Some "thread-7") "hi" "session-1" None.

Lemma send_rate_limited_witness :
  (w_rateLimit busyWorld (trace initial) "publicChat" (send_sessionId helloArgs) = true
   /\ w_rateLimit busyWorld
        (trace initial ++ [EvRateLimit "publicChat" (send_sessionId helloArgs) true])
        "globalMessages" "global" = false)
  /\ exists message new,
       send busyWorld helloArgs initial
         = (inr (mkSendResult None (Some message) (send_threadId helloArgs) None),
            mkState (trace initial ++ new) (db initial))
       /\ Forall isRateLimit new
       /\ existsb agentWork new = false
       /\ (message = RATE_LIMIT_MESSAGE \/ message = BUSY_MESSAGE).
Proof.
  split; [split; reflexivity|].
  apply (send_rate_limited busyWorld helloArgs initial).
  right. split; reflexivity.
Defined.

(** When both checks pass the action goes on to the agent and the model. *)
Example send_goes_through :
  fst (send openWorld helloArgs initial)
    = inr (mkSendResult (Some "Hello!") None (Some "thread-7") None)
  /\ existsb agentWork (trace (snd (send openWorld helloArgs initial))) = true
  /\ activityLog (db (snd (send openWorld helloArgs initial)))
     = [mkActivity "chat_message" ("Responded to: " +:+ quoted "hi") "private"].
Proof. vm_compute. repeat split; reflexivity. Qed.

Definition ftpWorld : World :=
  sampleWorld noParse
    (fun j => match j with
              | JStr "ftp://example.com/file" => Some (mkUrl "ftp:" "example.com")
              | _ => None
              end)
    noFetch true [] [] [] [] (fun _ => true).

Definition ftpArgs : WebFetchArgs :=
  mkWebFetchArgs "ftp://example.com/file" None None None (Some 120000).

Lemma webFetch_guard_witness :
  (exists u, w_newUrl ftpWorld (JStr (wf_url ftpArgs)) = Some u
             /\ url_protocol u <> "http:" /\ url_protocol u <> "https:")
  /\ exists error message,
       webFetchHandler ftpWorld ftpArgs initial
         = (inr (webFetchFailure error message), initial).
Proof.
  assert (H : exists u, w_newUrl ftpWorld (JStr (wf_url ftpArgs)) = Some u
             /\ url_protocol u <> "http:" /\ url_protocol u <> "https:").
  { exists (mkUrl "ftp:" "example.com"). repeat split; discriminate. }
  split; [exact H|].
  apply (proj1 (webFetch_guard ftpWorld ftpArgs initial)). right. exact H.
Defined.

Lemma switchModel_invalid_provider_witness :
  ~ In "mistral" (w_providers openWorld)
  /\ exists message new,
       switchModel openWorld "mistral" "mistral-large" initial
         = (inr (mkSwitchResult false message None None),
            mkState (trace initial ++ new) (db initial))
       /\ existsb isMutation new = false
       /\ agentConfig (db (snd (switchModel openWorld "mistral" "mistral-large" initial)))
          = agentConfig (db initial)
       /\ activityLog (db (snd (switchModel openWorld "mistral" "mistral-large" initial)))
          = activityLog (db initial).
Proof.
  assert (H : ~ In "mistral" (w_providers openWorld)).
  { simpl. intros [H|[H|[H|[H|[]]]]]; discriminate. }
  split; [exact H|].
  apply (switchModel_invalid_provider openWorld "mistral" "mistral-large" initial H).
Defined.


(** ** The tool loader: the MCP part as a sequence of steps *)

Definition isRegistering (e : event) : bool :=
  match e with
  | EvConsole _ template _ => String.eqb template REGISTERING_MESSAGE
  | _ => false
  end.

Definition registeringEvent (toolName : json) (safeName : string) : event :=
  EvConsole "log" REGISTERING_MESSAGE [LJson toolName; LStr safeName].

Definition conflictEvent (safeName : string) : event :=
  EvConsole "log" CONFLICT_MESSAGE [LStr safeName].

(** What [reportApiKey] writes. *)
Definition reportEvents (w : World) (found missing : string) (server : McpServer)
    : list event :=
  match srv_apiKeyEnvVar server with
  | Some var =>
      if JsString.truthy var then
        if keyIsSet (serverApiKey w server)
        then [EvConsole "log" found [LStr (srv_name server); LStr var]]
        else [EvConsole "warn" missing [LStr var; LStr (srv_name server)]]
      else []
  | None => []
  end.

(** What the registration of one tool writes. *)
Definition registrationEvents (w : World) (server : McpServer) (tools : ToolSet)
    (toolName : string) : list event :=
  registeringEvent (JStr toolName) (sanitizeName toolName)
  :: (if hasTool tools (sanitizeName toolName)
      then [conflictEvent (sanitizeName toolName)] else [])
  ++ reportEvents w LOADED_KEY_MESSAGE KEY_NOT_SET server.

(** The tool a registration stores. *)
Definition registered (w : World) (server : McpServer) (url : string) (mcpTool : json)
    : Tool :=
  McpTool url mcpTool (srv_name server) (serverApiKey w server).

(** The MCP part of a run, seen from outside: events that register nothing,
    and registrations, each of a tool with a string [name] found on a server
    of [S] that has a URL and is in scope. *)
Inductive Steps (w : World) (S : McpServer -> Prop) (allowed : option (gset string))
    (t0 : ToolSet) : list event -> ToolSet -> Prop :=
| steps_refl : Steps w S allowed t0 [] t0
| steps_quiet l t e :
    Steps w S allowed t0 l t ->
    isRegistering e = false ->
    Steps w S allowed t0 (l ++ [e]) t
| steps_register l t server url mcpTool toolName :
    Steps w S allowed t0 l t ->
    S server ->
    srv_url server = Some url ->
    JsString.truthy url = true ->
    inScope allowed (srv_id server) = true ->
    Js.prop "name" (Some mcpTool) = inr (Some (JStr toolName)) ->
    Steps w S allowed t0
      (l ++ registrationEvents w server t toolName)
      (<[sanitizeName toolName := registered w server url mcpTool]> t).

Lemma Steps_quiet_list w S allowed t0 l t l' :
  Steps w S allowed t0 l t ->
  Forall (fun e => isRegistering e = false) l' ->
  Steps w S allowed t0 (l ++ l') t.
Proof.
  intros H. induction l' as [|e l' IH] using rev_ind; intros F.
  - by rewrite app_nil_r.
  - apply Forall_app in F as [F1 F2]. rewrite Forall_singleton in F2.
    rewrite app_assoc. apply steps_quiet; [exact (IH F1) | exact F2].
Qed.

Lemma Steps_trans w S allowed t0 l1 t1 l2 t2 :
  Steps w S allowed t0 l1 t1 ->
  Steps w S allowed t1 l2 t2 ->
  Steps w S allowed t0 (l1 ++ l2) t2.
Proof.
  intros H1 H2. induction H2.
  - by rewrite app_nil_r.
  - rewrite app_assoc. by apply steps_quiet.
  - rewrite app_assoc. by eapply steps_register.
Qed.

Lemma Steps_mono w (S S' : McpServer -> Prop) allowed t0 l t :
  (forall s, S s -> S' s) ->
  Steps w S allowed t0 l t -> Steps w S' allowed t0 l t.
Proof.
  intros HS H. induction H.
  - apply steps_refl.
  - by apply steps_quiet.
  - eapply steps_register; eauto.
Qed.

Lemma console_not_registering level template args :
  String.eqb template REGISTERING_MESSAGE = false ->
  isRegistering (EvConsole level template args) = false.
Proof. done. Qed.

Lemma reportApiKey_run w found missing server st :
  reportApiKey w found missing server st
  = (inr tt, mkState (trace st ++ reportEvents w found missing server) (db st)).
Proof.
  destruct st as [tr d]. unfold reportApiKey, reportEvents. eff_red.
  repeat case_match; rewrite ?app_nil_r; reflexivity.
Qed.

Lemma mcpSafeName_inr mcpTool k :
  mcpSafeName mcpTool = inr k ->
  exists toolName,
    Js.prop "name" (Some mcpTool) = inr (Some (JStr toolName))
    /\ k = sanitizeName toolName.
Proof.
  unfold mcpSafeName. intros H. repeat case_match; simplify_eq. eauto.
Qed.

(** One registration: it throws before doing anything, or it writes its
    lines and stores the tool. *)
Lemma registerMcpTool_run w server url tools mcpTool st :
  (exists e, registerMcpTool w server url tools mcpTool st = (inl e, st))
  \/ exists toolName,
       Js.prop "name" (Some mcpTool) = inr (Some (JStr toolName))
       /\ registerMcpTool w server url tools mcpTool st
          = (inr (<[sanitizeName toolName := registered w server url mcpTool]> tools),
             mkState (trace st ++ registrationEvents w server tools toolName) (db st)).
Proof.
  destruct st as [tr d]. unfold registerMcpTool.
  destruct (mcpSafeName mcpTool) as [e|k] eqn:Ek.
  - left. exists e. reflexivity.
  - right. apply mcpSafeName_inr in Ek as (toolName & Hn & ->).
    exists toolName. split; [exact Hn|].
    unfold bind at 1. unfold lift, ret. unfold bind at 1. unfold consoleLog at 1.
    unfold emit at 1. cbn [trace db].
    unfold bind at 1.
    assert (Hc : forall s,
      (if hasTool tools (sanitizeName toolName)
       then consoleLog CONFLICT_MESSAGE [LStr (sanitizeName toolName)]
       else ret tt) s
      = (inr tt, mkState (trace s ++ (if hasTool tools (sanitizeName toolName)
                                      then [conflictEvent (sanitizeName toolName)] else []))
                         (db s))).
    { intros [tr' d']. destruct (hasTool tools (sanitizeName toolName)); eff_red;
        rewrite ?app_nil_r; reflexivity. }
    rewrite Hc. cbn [trace db]. unfold bind at 1. rewrite reportApiKey_run. cbn [trace db].
    unfold ret, registered, registrationEvents, registeringEvent.
    unfold Js.optProp. unfold Js.prop in Hn.
    destruct mcpTool; simplify_eq. rewrite Hn. cbn [default].
    f_equal. f_equal. rewrite <- !app_assoc. reflexivity.
Qed.

Lemma reportEvents_console w found missing server :
  Forall isConsole (reportEvents w found missing server).
Proof. unfold reportEvents. repeat case_match; repeat constructor. Qed.

Lemma registrationEvents_console w server tools toolName :
  Forall isConsole (registrationEvents w server tools toolName).
Proof.
  unfold registrationEvents. constructor; [done|].
  apply Forall_app. split; [case_match; repeat constructor|].
  apply reportEvents_console.
Qed.

(** The loop over the discovered tools never throws; it is a sequence of
    registrations on the one server, and writes to the console only. *)
Lemma registerMcpTools_run w allowed server url items tools st :
  srv_url server = Some url ->
  JsString.truthy url = true ->
  inScope allowed (srv_id server) = true ->
  exists tools' oe new,
    registerMcpTools w server url items tools st
      = (inr (tools', oe), mkState (trace st ++ new) (db st))
    /\ Steps w (eq server) allowed tools new tools'
    /\ Forall isConsole new.
Proof.
  intros Hu Ht Hs. revert tools st.
  induction items as [|mcpTool rest IH]; intros tools [tr d].
  - exists tools, None, []. cbn [registerMcpTools ret trace db].
    rewrite app_nil_r. split; [done|]. split; [apply steps_refl | constructor].
  - cbn [registerMcpTools]. unfold bind at 1. unfold tryCatch, bind at 1.
    destruct (registerMcpTool_run w server url tools mcpTool (mkState tr d))
      as [(e & E) | (toolName & Hn & E)]; rewrite E.
    + exists tools, (Some e), []. cbn [ret trace db]. rewrite app_nil_r.
      split; [done|]. split; [apply steps_refl | constructor].
    + cbn [ret trace db].
      destruct (IH (<[sanitizeName toolName := registered w server url mcpTool]> tools)
                  (mkState (tr ++ registrationEvents w server tools toolName) d))
        as (tools' & oe & new & E' & S' & F').
      rewrite E'. cbn [trace db].
      exists tools', oe, (registrationEvents w server tools toolName ++ new).
      split; [by rewrite app_assoc|]. split.
      * eapply Steps_trans; [|exact S'].
        apply (steps_register w (eq server) allowed tools [] tools server url mcpTool
                 toolName); auto using steps_refl.
      * apply Forall_app. split; [apply registrationEvents_console | exact F'].
Qed.

Lemma Steps_cons w S allowed t e l t' :
  isRegistering e = false ->
  Steps w S allowed t l t' ->
  Steps w S allowed t (e :: l) t'.
Proof.
  intros He H.
  apply (Steps_trans w S allowed t [e] t l t'); [|exact H].
  apply (steps_quiet w S allowed t [] t e); [apply steps_refl | exact He].
Qed.

Lemma quiet_steps w S allowed t l :
  Forall (fun e => isRegistering e = false) l ->
  Steps w S allowed t l t.
Proof.
  intros F. apply (Steps_quiet_list w S allowed t [] t l); [apply steps_refl | exact F].
Qed.

(** Closes [Steps t (e1 :: ... :: en :: l) t'] given [Steps t l t']. *)
Ltac steps_prefix S :=
  repeat (apply Steps_cons; [reflexivity|]);
  first [exact S | apply steps_refl].

Ltac console_prefix F :=
  repeat (apply List.Forall_cons; [exact I|]);
  first [exact F | apply List.Forall_nil].

(** From the response to the tool set: console lines and registrations; an
    exception leaves the tool set as it was. *)
Lemma registerDiscovered_run w allowed server url tools response st :
  srv_url server = Some url ->
  JsString.truthy url = true ->
  inScope allowed (srv_id server) = true ->
  exists r tools' new,
    registerDiscovered w server url tools response st
      = (r, mkState (trace st ++ new) (db st))
    /\ Steps w (eq server) allowed tools new tools'
    /\ Forall isConsole new
    /\ match r with
       | inr res => fst res = tools'
       | inl _ => tools' = tools
       end.
Proof.
  intros Hu Ht Hs. destruct st as [tr d].
  unfold registerDiscovered, parseDiscovery. eff_red.
  repeat (case_match; simplify_eq; eff_red_all).
  all: lazymatch goal with
       | |- context [registerMcpTools _ _ _ ?items _ ?s] =>
           destruct (registerMcpTools_run w allowed server url items tools s Hu Ht Hs)
             as (tools' & oe & new & E & S & F);
           rewrite E; cbn [trace db];
           eexists _, tools', _; (split; [trace_norm; reflexivity|]);
           split; [steps_prefix S | split; [console_prefix F | reflexivity]]
       | |- _ =>
           first [ eexists _, tools, []; split; [rewrite app_nil_r; reflexivity|]
                 | eexists _, tools, _; split; [trace_norm; reflexivity|] ];
           (split; [steps_prefix I | split; [console_prefix I | reflexivity]])
       end.
Qed.

Lemma fetchToolsList_run w url headers st :
  let post := toolsListPost url headers in
  let get := toolsListGet url headers in
  fetchToolsList w url headers st
  = match w_fetch w (trace st) post with
    | inr response => (inr response, mkState (trace st ++ [EvFetch post]) (db st))
    | inl _ =>
        (w_fetch w (trace st ++ [EvFetch post]) get,
         mkState (trace st ++ [EvFetch post; EvFetch get]) (db st))
    end.
Proof.
  destruct st as [tr d]. unfold fetchToolsList, fetch. eff_red.
  destruct (w_fetch w tr (toolsListPost url headers)); [|reflexivity].
  rewrite <- app_assoc.
  by destruct (w_fetch w (tr ++ [EvFetch (toolsListPost url headers)])
                 (toolsListGet url headers)).
Qed.

Lemma reportEvents_quiet w found missing server :
  String.eqb found REGISTERING_MESSAGE = false ->
  String.eqb missing REGISTERING_MESSAGE = false ->
  Forall (fun e => isRegistering e = false) (reportEvents w found missing server).
Proof.
  intros H1 H2. unfold reportEvents. repeat case_match; repeat constructor; done.
Qed.

(** What is written before the first request to a server. *)
Definition discoveryPrelude (w : World) (server : McpServer) (url : string) : list event :=
  EvConsole "log" FETCHING_MESSAGE [LStr (srv_name server); LStr url]
  :: reportEvents w USING_KEY_MESSAGE KEY_NOT_SET server.

Lemma discoveryPrelude_console w server url :
  Forall isConsole (discoveryPrelude w server url).
Proof. constructor; [done | apply reportEvents_console]. Qed.

(** Discovery on one server: it never throws, it sends the POST and, when
    that throws, the GET, and no other request; what it does to the tool set
    is a sequence of registrations. *)
Lemma discoverServer_run w allowed server url tools st :
  srv_url server = Some url ->
  JsString.truthy url = true ->
  inScope allowed (srv_id server) = true ->
  let post := toolsListPost url (discoveryHeaders w server) in
  let get := toolsListGet url (discoveryHeaders w server) in
  exists tools' oe new,
    discoverServer w server url tools st
      = (inr (tools', oe), mkState (trace st ++ new) (db st))
    /\ Steps w (eq server) allowed tools new tools'
    /\ match w_fetch w (trace st ++ discoveryPrelude w server url) post with
       | inr _ => requestsOf new = [post]
       | inl _ => requestsOf new = [post; get]
       end.
Proof.
  intros Hu Ht Hs post get. destruct st as [tr d].
  pose proof (discoveryPrelude_console w server url) as Fpre.
  assert (Qpre : Forall (fun e => isRegistering e = false) (discoveryPrelude w server url)).
  { constructor; [done | by apply reportEvents_quiet]. }
  unfold discoverServer, tryCatch.
  unfold bind at 1. unfold consoleLog at 1, emit at 1. cbn [trace db].
  unfold bind at 1. rewrite reportApiKey_run. cbn [trace db].
  rewrite <- app_assoc.
  change ([EvConsole "log" FETCHING_MESSAGE [LStr (srv_name server); LStr url]]
            ++ reportEvents w USING_KEY_MESSAGE KEY_NOT_SET server)
    with (discoveryPrelude w server url).
  set (pre := discoveryPrelude w server url) in *. clearbody pre.
  unfold bind at 1. rewrite fetchToolsList_run. cbn [trace db].
  fold post get.
  destruct (w_fetch w (tr ++ pre) post) as [e1|response].
  - destruct (w_fetch w ((tr ++ pre) ++ [EvFetch post]) get) as [e2|response].
    + exists tools, (Some e2), (pre ++ [EvFetch post; EvFetch get]).
      cbn [ret]. split; [by rewrite <- app_assoc|]. split.
      * apply quiet_steps, Forall_app. split; [exact Qpre | by repeat constructor].
      * rewrite requestsOf_app, (requestsOf_console pre Fpre). reflexivity.
    + destruct (registerDiscovered_run w allowed server url tools response
                  (mkState ((tr ++ pre) ++ [EvFetch post; EvFetch get]) d) Hu Ht Hs)
        as (r & tools' & new & E & S & F & Hr).
      rewrite E. cbn [trace db].
      assert (Hq : requestsOf ((pre ++ [EvFetch post; EvFetch get]) ++ new)
                   = [post; get]).
      { rewrite !requestsOf_app, (requestsOf_console pre Fpre),
          (requestsOf_console new F). reflexivity. }
      assert (HS : Steps w (eq server) allowed tools
                     ((pre ++ [EvFetch post; EvFetch get]) ++ new) tools').
      { eapply Steps_trans; [|exact S].
        apply quiet_steps, Forall_app. split; [exact Qpre | by repeat constructor]. }
      destruct r as [e|[tools'' oe]]; cbn [fst] in Hr; cbn [ret];
        [rewrite Hr in HS | rewrite <- Hr in HS].
      * exists tools, (Some e), ((pre ++ [EvFetch post; EvFetch get]) ++ new).
        split; [by rewrite <- !app_assoc|]. by split.
      * exists tools'', oe, ((pre ++ [EvFetch post; EvFetch get]) ++ new).
        split; [by rewrite <- !app_assoc|]. by split.
  - destruct (registerDiscovered_run w allowed server url tools response
                (mkState ((tr ++ pre) ++ [EvFetch post]) d) Hu Ht Hs)
      as (r & tools' & new & E & S & F & Hr).
    rewrite E. cbn [trace db].
    assert (Hq : requestsOf ((pre ++ [EvFetch post]) ++ new) = [post]).
    { rewrite !requestsOf_app, (requestsOf_console pre Fpre),
        (requestsOf_console new F). reflexivity. }
    assert (HS : Steps w (eq server) allowed tools ((pre ++ [EvFetch post]) ++ new) tools').
    { eapply Steps_trans; [|exact S].
      apply quiet_steps, Forall_app. split; [exact Qpre | by repeat constructor]. }
    destruct r as [e|[tools'' oe]]; cbn [fst] in Hr; cbn [ret];
      [rewrite Hr in HS | rewrite <- Hr in HS].
    + exists tools, (Some e), ((pre ++ [EvFetch post]) ++ new).
      split; [by rewrite <- !app_assoc|]. by split.
    + exists tools'', oe, ((pre ++ [EvFetch post]) ++ new).
      split; [by rewrite <- !app_assoc|]. by split.
Qed.

(** A server whose tools are looked up: it has a URL and is in scope. *)
Definition eligible (allowed : option (gset string)) (server : McpServer) (url : string)
    : Prop :=
  srv_url server = Some url
  /\ JsString.truthy url = true
  /\ inScope allowed (srv_id server) = true.

Definition discoveryPost (w : World) (server : McpServer) (url : string) : Request :=
  toolsListPost url (discoveryHeaders w server).

Definition discoveryGet (w : World) (server : McpServer) (url : string) : Request :=
  toolsListGet url (discoveryHeaders w server).

(** One turn of the loop over the servers. *)
Lemma loadServer_run w allowed tools server st :
  exists tools' new,
    loadServer w allowed tools server st
      = (inr tools', mkState (trace st ++ new) (db st))
    /\ Steps w (eq server) allowed tools new tools'
    /\ (forall url,
          eligible allowed server url ->
          match w_fetch w (trace st ++ discoveryPrelude w server url)
                  (discoveryPost w server url) with
          | inr _ => requestsOf new = [discoveryPost w server url]
          | inl _ => requestsOf new
                     = [discoveryPost w server url; discoveryGet w server url]
          end)
    /\ ((forall url, ~ eligible allowed server url) ->
        requestsOf new = [] /\ tools' = tools).
Proof.
  destruct st as [tr d]. unfold loadServer, eligible.
  destruct (srv_url server) as [url|] eqn:Hu.
  - destruct (JsString.truthy url) eqn:Ht; cbn [negb].
    + destruct (inScope allowed (srv_id server)) eqn:Hs; cbn [negb].
      * destruct (discoverServer_run w allowed server url tools (mkState tr d) Hu Ht Hs)
          as (tools' & oe & new & E & S & Hq).
        unfold bind. rewrite E. cbn [snd fst trace db] in *.
        destruct oe as [e|]; eff_red.
        -- eexists tools', (new ++ [_]). split; [by rewrite <- app_assoc|].
           split; [by apply steps_quiet|]. split.
           ++ intros url' (Hu' & _ & _). simplify_eq.
              rewrite requestsOf_app. cbn [requestsOf omap]. simpl.
              rewrite app_nil_r. exact Hq.
           ++ intros Hn. exfalso. by apply (Hn url).
        -- exists tools', new. split; [done|]. split; [done|]. split.
           ++ intros url' (Hu' & _ & _). simplify_eq. exact Hq.
           ++ intros Hn. exfalso. by apply (Hn url).
      * exists tools, []. cbn [ret trace db]. rewrite app_nil_r.
        split; [done|]. split; [apply steps_refl|]. split; [|done].
        intros url' (Hu' & _ & Hs'). congruence.
    + eff_red. eexists tools, [_]. split; [reflexivity|].
      split; [apply (steps_quiet w _ _ tools [] tools); [apply steps_refl | done]|].
      split; [|done]. intros url' (Hu' & Ht' & _). congruence.
  - eff_red. eexists tools, [_]. split; [reflexivity|].
    split; [apply (steps_quiet w _ _ tools [] tools); [apply steps_refl | done]|].
    split; [|done]. intros url' (Hu' & _). congruence.
Qed.

(** The loop over the servers: every registration is on a server of the
    list, and every eligible server of the list is sent the POST. *)
Lemma loadServers_run w allowed servers tools st :
  exists tools' new,
    loadServers w allowed servers tools st
      = (inr tools', mkState (trace st ++ new) (db st))
    /\ Steps w (fun s => In s servers) allowed tools new tools'
    /\ forall server url,
         In server servers -> eligible allowed server url ->
         In (EvFetch (discoveryPost w server url)) new.
Proof.
  revert tools st. induction servers as [|server rest IH]; intros tools [tr d].
  - exists tools, []. cbn [loadServers ret trace db]. rewrite app_nil_r.
    split; [done|]. split; [apply steps_refl | by intros ?? []].
  - cbn [loadServers]. unfold bind.
    destruct (loadServer_run w allowed tools server (mkState tr d))
      as (tools1 & new1 & E1 & S1 & Hq & _).
    rewrite E1. cbn [trace db] in *.
    destruct (IH tools1 (mkState (tr ++ new1) d)) as (tools2 & new2 & E2 & S2 & Hin).
    rewrite E2. cbn [trace db].
    exists tools2, (new1 ++ new2). split; [by rewrite app_assoc|]. split.
    + eapply Steps_trans.
      * eapply Steps_mono; [|exact S1]. intros s <-. by left.
      * eapply Steps_mono; [|exact S2]. intros s Hs. by right.
    + intros s url [<-|Hs] He; apply in_or_app.
      * left. apply requestsOf_In. specialize (Hq url He).
        destruct (w_fetch w (tr ++ discoveryPrelude w server url)
                    (discoveryPost w server url)); rewrite Hq; by left.
      * right. by apply (Hin s url).
Qed.

(** The whole MCP part: it never throws. *)
Lemma loadMcpTools_run w allowed tools st :
  exists tools' new,
    loadMcpTools w allowed tools st
      = (inr tools', mkState (trace st ++ new) (db st))
    /\ Steps w (fun s => In s (w_mcpEnabledApproved w)) allowed tools new tools'
    /\ (w_queryFailure w (trace st) QMcpEnabledApproved = None ->
        forall server url,
          In server (w_mcpEnabledApproved w) -> eligible allowed server url ->
          In (EvFetch (discoveryPost w server url)) new).
Proof.
  destruct st as [tr d]. unfold loadMcpTools, runQuery. eff_red.
  destruct (w_queryFailure w tr QMcpEnabledApproved) as [e|].
  - eexists tools, [_; _]. split; [by rewrite <- app_assoc|].
    split; [apply quiet_steps; by repeat constructor | done].
  - match goal with
    | |- context [loadServers w allowed ?l tools ?s] =>
        destruct (loadServers_run w allowed l tools s) as (tools' & new & E & S & Hin);
        rewrite E
    end.
    cbn [trace db]. exists tools', ([EvRunQuery QMcpEnabledApproved;
      EvConsole "log" "[MCP] Found ${mcpServers.length} enabled MCP servers"
        [LNum (Z.of_nat (length (w_mcpEnabledApproved w)))]] ++ new).
    split; [by rewrite <- !app_assoc|]. split.
    + eapply Steps_trans; [|exact S]. apply quiet_steps. by repeat constructor.
    + intros _ server url Hs He. apply in_or_app. right. by apply Hin.
Qed.

(** ** The tool loader as a whole *)

(** The assigned skills and servers when an agent is given, [None] otherwise. *)
Definition skillScope (w : World) (agentId : option string) : option (gset string) :=
  match givenAgent agentId with
  | Some a => Some (list_to_set (w_agentSkillIds w a))
  | None => None
  end.

Definition mcpScope (w : World) (agentId : option string) : option (gset string) :=
  match givenAgent agentId with
  | Some a => Some (list_to_set (w_agentMcpIds w a))
  | None => None
  end.

Definition isQuery (e : event) : Prop :=
  match e with EvRunQuery _ => True | _ => False end.

(** The queries that precede the MCP part. *)
Definition preludeQueries (agentId : option string) : list event :=
  match givenAgent agentId with
  | Some a => [EvRunQuery (QAgentSkillIds a); EvRunQuery (QAgentMcpIds a)]
  | None => []
  end ++ [EvRunQuery QSkillsActiveApproved].

(** The tool set once the built-in tools and, for a given agent whose peers
    can be listed, the peer tools are added. *)
Definition completed (w : World) (agentId : option string) (tools ts : ToolSet) : Prop :=
  ts = addBuiltins tools
  \/ exists a, givenAgent agentId = Some a
               /\ ts = addPeers a (w_agentsList w) (addBuiltins tools).

(** A run of [loadTools] that returns a tool set. *)
Lemma loadTools_run w agentId st ts st' :
  loadTools w agentId st = (inr ts, st') ->
  exists new last tools1,
    st' = mkState (trace st ++ preludeQueries agentId ++ new ++ last) (db st)
    /\ Steps w (fun s => In s (w_mcpEnabledApproved w)) (mcpScope w agentId)
         (loadSkills (skillScope w agentId) (w_skillsActiveApproved w) ∅) new tools1
    /\ completed w agentId tools1 ts
    /\ Forall isQuery last
    /\ (w_queryFailure w (trace st ++ preludeQueries agentId) QMcpEnabledApproved = None ->
        forall server url,
          In server (w_mcpEnabledApproved w) ->
          eligible (mcpScope w agentId) server url ->
          In (EvFetch (discoveryPost w server url)) new).
Proof.
  destruct st as [tr d].
  unfold loadTools, loadAssignments, loadPeerTools, skillScope, mcpScope, preludeQueries,
    completed, runQuery.
  destruct (givenAgent agentId) as [a|] eqn:Ha; eff_red; intros H.
  all: repeat first
       [ match type of H with ?T => name_oracle_in T end
       | match type of H with
         | context [match ?o with Some _ => _ | None => _ end] =>
             is_var o; destruct o; eff_red_all; try discriminate
         end ].
  all: match type of H with
       | context [loadMcpTools ?w0 ?al ?t ?s] =>
           destruct (loadMcpTools_run w0 al t s) as (tools1 & new & E & S & Hin);
           rewrite E in H; cbn [trace db] in *
       end.
  all: eff_red_all.
  all: try match type of H with
       | context [w_queryFailure ?w0 ?h QAgentsList] =>
           destruct (w_queryFailure w0 h QAgentsList); eff_red_all
       end.
  all: simplify_eq.
  all: first
       [ exists new, [], tools1;
         split; [rewrite <- ?app_assoc; cbn [app]; rewrite ?app_nil_r; reflexivity|]
       | eexists new, [_], tools1;
         split; [rewrite <- ?app_assoc; cbn [app]; reflexivity|] ].
  all: (split; [exact S|]).
  all: (split; [eauto|]).
  all: (split; [repeat constructor|]).
  all: rewrite <- ?app_assoc in Hin; cbn [app] in Hin; exact Hin.
Qed.


(** ** Invariants of the tool set *)

Section Entries.

Variable P : string -> Tool -> Prop.

Lemma fold_insert_entries {A} (key : A -> string) (val : A -> Tool) (l : list A)
    (tools : ToolSet) :
  map_Forall P tools ->
  (forall x, In x l -> P (key x) (val x)) ->
  map_Forall P (fold_left (fun acc x => <[key x := val x]> acc) l tools).
Proof.
  revert tools. induction l as [|x l IH]; intros tools Ht Hl; [done|].
  cbn [fold_left]. apply IH.
  - apply map_Forall_insert_2; [apply Hl; by left | exact Ht].
  - intros y Hy. apply Hl. by right.
Qed.

Lemma loadSkills_entries allowed skills tools :
  map_Forall P tools ->
  (forall sk, In sk skills -> inScope allowed (sk_id sk) = true ->
              P (sanitizeName (sk_name sk)) (SkillTool sk)) ->
  map_Forall P (loadSkills allowed skills tools).
Proof.
  unfold loadSkills. revert tools.
  induction skills as [|sk rest IH]; intros tools Ht Hs; [done|].
  cbn [fold_left]. apply IH.
  - unfold loadSkill, createToolFromSkill.
    destruct (inScope allowed (sk_id sk)) eqn:E; cbn [negb]; [|exact Ht].
    destruct (sk_skillType sk);
      (apply map_Forall_insert_2; [apply Hs; [by left | exact E] | exact Ht]).
  - intros y Hy. apply Hs. by right.
Qed.

Lemma Steps_entries w S allowed t0 l t :
  Steps w S allowed t0 l t ->
  map_Forall P t0 ->
  (forall server url mcpTool toolName,
     S server -> eligible allowed server url ->
     Js.prop "name" (Some mcpTool) = inr (Some (JStr toolName)) ->
     P (sanitizeName toolName) (registered w server url mcpTool)) ->
  map_Forall P t.
Proof.
  intros H H0 Hr. induction H; [done | done |].
  apply map_Forall_insert_2; [|done].
  apply Hr; [done | by repeat split | done].
Qed.

(** Every entry of the tool set [loadTools] returns is a skill of the list
    that is in scope, a tool with a string [name] of an eligible server of the
    list, a built-in tool, or the tool of a peer. *)
Lemma loadTools_entries w agentId st ts st' :
  loadTools w agentId st = (inr ts, st') ->
  (forall sk, In sk (w_skillsActiveApproved w) ->
              inScope (skillScope w agentId) (sk_id sk) = true ->
              P (sanitizeName (sk_name sk)) (SkillTool sk)) ->
  (forall server url mcpTool toolName,
     In server (w_mcpEnabledApproved w) ->
     eligible (mcpScope w agentId) server url ->
     Js.prop "name" (Some mcpTool) = inr (Some (JStr toolName)) ->
     P (sanitizeName toolName) (registered w server url mcpTool)) ->
  (forall kb, In kb builtinTools -> P (fst kb) (BuiltinTool (snd kb))) ->
  (forall a peer, givenAgent agentId = Some a ->
     P (peerToolName peer) (AgentTool a (ag_id peer) (ag_name peer))) ->
  map_Forall P ts.
Proof.
  intros H Hs Hm Hb Hp.
  apply loadTools_run in H as (new & last & tools1 & _ & S & Hc & _).
  assert (H1 : map_Forall P tools1).
  { eapply Steps_entries; [exact S | | exact Hm].
    apply loadSkills_entries; [apply map_Forall_empty | exact Hs]. }
  assert (H2 : map_Forall P (addBuiltins tools1)).
  { unfold addBuiltins.
    apply (fold_insert_entries fst (fun kb => BuiltinTool (snd kb))); done. }
  destruct Hc as [-> | (a & Ha & ->)]; [exact H2|].
  unfold addPeers.
  apply (fold_insert_entries peerToolName
           (fun peer => AgentTool a (ag_id peer) (ag_name peer))); [exact H2|].
  intros peer _. by apply Hp.
Qed.

End Entries.

(** The name a tool of the set was made from: the skill's name, the [name]
    of the MCP tool. *)
Definition externalName (t : Tool) : option string :=
  match t with
  | SkillTool sk => Some (sk_name sk)
  | McpTool _ mcpTool _ _ =>
      match Js.optProp "name" (Some mcpTool) with
      | Some (JStr n) => Some n
      | _ => None
      end
  | _ => None
  end.

Definition isExternal (t : Tool) : bool :=
  match t with SkillTool _ | McpTool _ _ _ _ => true | _ => false end.

Lemma prop_optProp k v x : Js.prop k (Some v) = inr x -> Js.optProp k (Some v) = x.
Proof. unfold Js.prop, Js.optProp. intros H. destruct v; by simplify_eq. Qed.

(** C4 (amended).  Every skill tool and every MCP tool of the tool set
    returned by [loadTools] is registered under the sanitized form of its
    name: the key contains only letters, digits, underscores and hyphens, it
    has no run of two or more underscores (runs of hyphens are kept), and it
    is at most 128 characters long. *)
Theorem tool_keys_sanitized w agentId st ts st' k t :
  loadTools w agentId st = (inr ts, st') ->
  ts !! k = Some t ->
  isExternal t = true ->
  exists name,
    externalName t = Some name
    /\ k = sanitizeName name
    /\ validName k
    /\ hasRun underscore k = false
    /\ (String.length k <= 128)%nat.
Proof.
  intros H Hk Hx.
  assert (Hall : map_Forall
            (fun k t => isExternal t = true ->
                        exists name, externalName t = Some name /\ k = sanitizeName name)
            ts).
  { eapply loadTools_entries; [exact H | | | |]; try done.
    - intros sk _ _ _. by exists (sk_name sk).
    - intros server url mcpTool toolName _ _ Hn _. exists toolName.
      unfold registered, externalName. by rewrite (prop_optProp _ _ _ Hn). }
  destruct (Hall k t Hk Hx) as (name & Hn & ->).
  exists name. split; [done|]. split; [done|].
  apply sanitizeName_wellFormed.
Qed.


(** ** Keys stay, MCP tools win *)

Definition isMcp (o : option Tool) : Prop :=
  exists url mcpTool name key, o = Some (McpTool url mcpTool name key).


Lemma fold_insert_lookup_ne {A} (key : A -> string) (val : A -> Tool) (l : list A)
    (tools : ToolSet) k :
  (forall x, In x l -> key x <> k) ->
  fold_left (fun acc x => <[key x := val x]> acc) l tools !! k = tools !! k.
Proof.
  revert tools. induction l as [|x l IH]; intros tools H; [done|].
  cbn [fold_left]. rewrite IH.
  - apply lookup_insert_ne. apply H. by left.
  - intros y Hy. apply H. by right.
Qed.

Lemma loadSkill_is_Some allowed tools sk k :
  is_Some (tools !! k) -> is_Some (loadSkill allowed tools sk !! k).
Proof.
  intros H. unfold loadSkill, createToolFromSkill.
  destruct (inScope allowed (sk_id sk)); cbn [negb]; [|done].
  destruct (sk_skillType sk);
    (destruct (decide (sanitizeName (sk_name sk) = k)) as [->|Hne];
     [rewrite lookup_insert_eq; eauto | by rewrite lookup_insert_ne]).
Qed.

Lemma loadSkills_is_Some allowed skills tools k :
  is_Some (tools !! k) -> is_Some (loadSkills allowed skills tools !! k).
Proof.
  unfold loadSkills. revert tools.
  induction skills as [|sk rest IH]; intros tools H; [done|].
  cbn [fold_left]. by apply IH, loadSkill_is_Some.
Qed.

(** A skill in scope leaves a tool under its sanitized name. *)
Lemma loadSkills_registers allowed skills tools sk :
  In sk skills ->
  inScope allowed (sk_id sk) = true ->
  is_Some (loadSkills allowed skills tools !! sanitizeName (sk_name sk)).
Proof.
  unfold loadSkills. revert tools.
  induction skills as [|sk' rest IH]; intros tools Hin Hs; [destruct Hin|].
  destruct Hin as [<-|Hin].
  - cbn [fold_left]. apply (loadSkills_is_Some allowed rest).
    unfold loadSkill, createToolFromSkill. rewrite Hs. cbn [negb].
    destruct (sk_skillType sk'); rewrite lookup_insert_eq; eauto.
  - cbn [fold_left]. by apply IH.
Qed.

Lemma registering_is_registering toolName k :
  isRegistering (registeringEvent toolName k) = true.
Proof. reflexivity. Qed.

Lemma In_reportEvents_not_registering w found missing server toolName k :
  String.eqb found REGISTERING_MESSAGE = false ->
  String.eqb missing REGISTERING_MESSAGE = false ->
  ~ In (registeringEvent toolName k) (reportEvents w found missing server).
Proof.
  intros H1 H2 Hin.
  pose proof (reportEvents_quiet w found missing server H1 H2) as F.
  rewrite List.Forall_forall in F. specialize (F _ Hin). done.
Qed.

(** The registrations of a run, read off its console: once a key has been
    registered it holds an MCP tool for the rest of the run, and if the key
    was taken when the run began the conflict line was written. *)
Lemma Steps_conflict w S allowed t0 l t :
  Steps w S allowed t0 l t ->
  (forall k, is_Some (t0 !! k) -> is_Some (t !! k))
  /\ (forall k toolName,
        In (registeringEvent toolName k) l ->
        isMcp (t !! k)
        /\ (is_Some (t0 !! k) -> In (conflictEvent k) l)).
Proof.
  induction 1 as [| l t e H [IH1 IH2] He
                  | l t server url mcpTool toolName H [IH1 IH2] HS Hu Ht Hs Hn].
  - split; [done|]. intros k toolName [].
  - split; [done|]. intros k toolName Hin.
    apply in_app_or in Hin as [Hin|[Heq|[]]].
    + destruct (IH2 k toolName Hin) as [Hm Hc]. split; [done|].
      intros H0. apply in_or_app. left. by apply Hc.
    + subst e. by rewrite registering_is_registering in He.
  - split.
    + intros k Hk. specialize (IH1 k Hk).
      destruct (decide (sanitizeName toolName = k)) as [->|Hne].
      * rewrite lookup_insert_eq. eauto.
      * by rewrite lookup_insert_ne.
    + intros k tn Hin. apply in_app_or in Hin as [Hin|Hin].
      * destruct (IH2 k tn Hin) as [Hm Hc]. split.
        -- destruct (decide (sanitizeName toolName = k)) as [->|Hne].
           ++ rewrite lookup_insert_eq. unfold registered, isMcp. eauto.
           ++ by rewrite lookup_insert_ne.
        -- intros H0. apply in_or_app. left. by apply Hc.
      * unfold registrationEvents in Hin.
        destruct Hin as [Heq|Hin].
        -- injection Heq as _ <-. split.
           ++ rewrite lookup_insert_eq. unfold registered, isMcp. eauto.
           ++ intros H0. apply in_or_app. right. right. apply in_or_app. left.
              specialize (IH1 _ H0). unfold hasTool.
              destruct IH1 as [x ->]. by left.
        -- apply in_app_or in Hin as [Hin|Hin].
           ++ destruct (hasTool t (sanitizeName toolName)); [|done].
              destruct Hin as [Heq|[]]. discriminate Heq.
           ++ exfalso.
              by apply (In_reportEvents_not_registering w LOADED_KEY_MESSAGE KEY_NOT_SET
                          server tn k eq_refl eq_refl).
Qed.

(** ** What a run of the loader wrote *)

Lemma preludeQueries_queries agentId : Forall isQuery (preludeQueries agentId).
Proof. unfold preludeQueries. destruct (givenAgent agentId); repeat constructor. Qed.

Lemma query_not_registering l toolName k :
  Forall isQuery l -> ~ In (registeringEvent toolName k) l.
Proof.
  intros F Hin. rewrite List.Forall_forall in F. exact (F _ Hin).
Qed.

Lemma elem_of_peers a agents peer :
  In peer (filter (isPeer a) agents) -> In peer agents /\ isPeer a peer = true.
Proof.
  intros H. apply list_elem_of_In, list_elem_of_filter in H as [H1 H2].
  split; [by apply list_elem_of_In | by apply Is_true_true].
Qed.

(** C5 (amended).  When a skill in scope has the sanitized name [k] and an
    MCP tool is registered under [k] in the same run of [loadTools], the
    conflict is logged; and the returned tool set maps [k] to an MCP tool
    provided that [k] is neither the name of a built-in tool nor the name of
    a peer-agent tool, both of which are added later and replace it. *)
Theorem mcp_tool_wins_conflict w agentId st ts st' sk toolName k :
  loadTools w agentId st = (inr ts, st') ->
  In sk (w_skillsActiveApproved w) ->
  inScope (skillScope w agentId) (sk_id sk) = true ->
  sanitizeName (sk_name sk) = k ->
  In (registeringEvent toolName k) (eventsSince st st') ->
  In (conflictEvent k) (eventsSince st st')
  /\ (~ In k (map fst builtinTools) ->
      (forall a peer, givenAgent agentId = Some a -> In peer (w_agentsList w) ->
                      isPeer a peer = true -> peerToolName peer <> k) ->
      isMcp (ts !! k)).
Proof.
  intros H Hsk Hscope Hk Hreg. destruct st as [tr d].
  apply loadTools_run in H as (new & last & tools1 & -> & S & Hc & Fl & _).
  cbn [trace db] in *. rewrite eventsSince_app in *.
  assert (Hnew : In (registeringEvent toolName k) new).
  { apply in_app_or in Hreg as [Hq|Hr].
    - by apply query_not_registering in Hq; [|apply preludeQueries_queries].
    - apply in_app_or in Hr as [Hr|Hq]; [done|].
      by apply query_not_registering in Hq. }
  destruct (Steps_conflict _ _ _ _ _ _ S) as [_ Hconf].
  destruct (Hconf k toolName Hnew) as [Hm Hlog].
  split.
  - apply in_or_app. right. apply in_or_app. left. apply Hlog.
    subst k. by apply loadSkills_registers.
  - intros Hb Hp.
    assert (Hbuilt : addBuiltins tools1 !! k = tools1 !! k).
    { unfold addBuiltins.
      apply (fold_insert_lookup_ne fst (fun kb => BuiltinTool (snd kb))).
      intros kb Hin Heq. apply Hb. rewrite <- Heq. by apply in_map. }
    destruct Hc as [-> | (a & Ha & ->)]; [by rewrite Hbuilt|].
    unfold addPeers.
    rewrite (fold_insert_lookup_ne peerToolName
               (fun peer => AgentTool a (ag_id peer) (ag_name peer))).
    + by rewrite Hbuilt.
    + intros peer Hin. apply elem_of_peers in Hin as [Hin Hpeer]. by apply (Hp a).
Qed.

(** ** The tool loader: what discovery registers *)

(** The key of a discovered tool, when its name is a string. *)
Definition safeNameOf (mcpTool : json) : string :=
  match mcpSafeName mcpTool with inr k => k | inl _ => "" end.

(** The tools of an answer that the loop reaches: it ends at the first one
    whose name is not a string. *)
Fixpoint namedPrefix (items : list json) : list json :=
  match items with
  | [] => []
  | item :: rest =>
      match mcpSafeName item with
      | inr _ => item :: namedPrefix rest
      | inl _ => []
      end
  end.

(** The tools a parsed answer announces. *)
Definition announced (data : json) : list json :=
  match toolsOf data with
  | inr (JArr items) => namedPrefix items
  | _ => []
  end.

(** [tools[safeName] = createMcpTool(...)] for each tool of a list, in order. *)
Definition registerAll (w : World) (server : McpServer) (url : string)
    (items : list json) (tools : ToolSet) : ToolSet :=
  fold_left (fun acc item => <[safeNameOf item := registered w server url item]> acc)
    items tools.

(** The key a line of the console says was registered. *)
Definition registeredKey (e : event) : option string :=
  match e with
  | EvConsole _ template [_; LStr k] =>
      if String.eqb template REGISTERING_MESSAGE then Some k else None
  | _ => None
  end.

(** The keys registered during a run, in order, as the console has them. *)
Definition registeredKeys (l : list event) : list string := omap registeredKey l.

Lemma registeredKeys_app a b : registeredKeys (a ++ b) = registeredKeys a ++ registeredKeys b.
Proof. apply omap_app. Qed.

Lemma registeredKey_quiet e : isRegistering e = false -> registeredKey e = None.
Proof.
  destruct e; try done. simpl. intros ->. by repeat case_match.
Qed.

Lemma registeredKeys_quiet l :
  Forall (fun e => isRegistering e = false) l -> registeredKeys l = [].
Proof.
  induction 1 as [|e l He _ IH]; [done|].
  unfold registeredKeys in *. cbn [omap list_omap]. simpl. by rewrite (registeredKey_quiet e He).
Qed.

Lemma registeredKeys_registration w server tools toolName :
  registeredKeys (registrationEvents w server tools toolName) = [sanitizeName toolName].
Proof.
  unfold registrationEvents.
  change (registeringEvent (JStr toolName) (sanitizeName toolName) :: ?l)
    with ([registeringEvent (JStr toolName) (sanitizeName toolName)] ++ l).
  rewrite !registeredKeys_app.
  rewrite (registeredKeys_quiet (reportEvents _ _ _ _)) by (by apply reportEvents_quiet).
  rewrite (registeredKeys_quiet (if hasTool _ _ then _ else _))
    by (case_match; by repeat constructor).
  reflexivity.
Qed.

Lemma registerMcpTool_unnamed w server url tools mcpTool e st :
  mcpSafeName mcpTool = inl e ->
  registerMcpTool w server url tools mcpTool st = (inl e, st).
Proof. intros E. unfold registerMcpTool. rewrite E. reflexivity. Qed.

Lemma registerMcpTool_named w server url tools mcpTool k st :
  mcpSafeName mcpTool = inr k ->
  exists toolName,
    Js.prop "name" (Some mcpTool) = inr (Some (JStr toolName))
    /\ k = sanitizeName toolName
    /\ registerMcpTool w server url tools mcpTool st
       = (inr (<[k := registered w server url mcpTool]> tools),
          mkState (trace st ++ registrationEvents w server tools toolName) (db st)).
Proof.
  intros Ek.
  destruct (registerMcpTool_run w server url tools mcpTool st)
    as [(e & E) | (toolName & Hn & E)].
  - exfalso. unfold registerMcpTool in E. rewrite Ek in E.
    destruct st as [tr d]. eff_red_all.
    destruct (hasTool tools k); eff_red_all; rewrite reportApiKey_run in E; discriminate E.
  - exists toolName. split; [exact Hn|].
    assert (k = sanitizeName toolName) as ->.
    { apply mcpSafeName_inr in Ek as (n & Hn' & ->). congruence. }
    by split.
Qed.

(** The entries that registering a list of discovered tools makes. *)
Definition discovered (w : World) (server : McpServer) (url : string)
    (items : list json) : list (string * Tool) :=
  map (fun item => (safeNameOf item, registered w server url item)) items.

(** [tools[k] = t] for each entry, in order. *)
Definition putAll (entries : list (string * Tool)) (tools : ToolSet) : ToolSet :=
  fold_left (fun acc kt => <[fst kt := snd kt]> acc) entries tools.


(** The loop over the discovered tools: it registers them in order up to the
    first one without a name, and writes one line per registration. *)
Lemma registerMcpTools_exact w server url items tools st :
  exists oe new,
    registerMcpTools w server url items tools st
      = (inr (putAll (discovered w server url (namedPrefix items)) tools, oe),
         mkState (trace st ++ new) (db st))
    /\ registeredKeys new = map fst (discovered w server url (namedPrefix items))
    /\ Forall isConsole new.
Proof.
  revert tools st. induction items as [|item rest IH]; intros tools [tr d].
  - exists None, []. cbn. rewrite app_nil_r. done.
  - cbn [registerMcpTools namedPrefix]. unfold bind at 1. unfold tryCatch, bind at 1.
    destruct (mcpSafeName item) as [e|k] eqn:Ek.
    + rewrite (registerMcpTool_unnamed _ _ _ _ _ e _ Ek).
      exists (Some e), []. cbn. rewrite app_nil_r. done.
    + destruct (registerMcpTool_named w server url tools item k (mkState tr d) Ek)
        as (toolName & Hn & -> & E).
      rewrite E. cbn [ret trace db].
      destruct (IH (<[sanitizeName toolName := registered w server url item]> tools)
                  (mkState (tr ++ registrationEvents w server tools toolName) d))
        as (oe & new & E' & K & F).
      rewrite E'. cbn [trace db].
      exists oe, (registrationEvents w server tools toolName ++ new).
      assert (Hk : safeNameOf item = sanitizeName toolName)
        by (unfold safeNameOf; by rewrite Ek).
      change (discovered w server url (item :: namedPrefix rest))
        with ((safeNameOf item, registered w server url item)
              :: discovered w server url (namedPrefix rest)).
      rewrite Hk.
      split; [by rewrite app_assoc|]. split.
      * rewrite registeredKeys_app, registeredKeys_registration, K. reflexivity.
      * apply Forall_app. split; [apply registrationEvents_console | exact F].
Qed.

(** The document a response body is taken for: the body as JSON, or the JSON
    of its first [data:] line, which counts as an empty list of tools when it
    does not parse. *)
Definition acceptedBody (w : World) (text : string) : option json :=
  match w_jsonParse w text with
  | inr data => Some data
  | inl _ =>
      match sseMatch text with
      | Some group =>
          Some (match w_jsonParse w group with
                | inr data => data
                | inl _ => JObj [("tools", JArr [])]
                end)
      | None => None
      end
  end.

(** The tools a response makes the loader register. *)
Definition discoveredTools (w : World) (response : Response) : list json :=
  if resp_ok response then
    match acceptedBody w (resp_text response) with
    | Some data => announced data
    | None => []
    end
  else [].

Lemma registerDiscovered_exact w server url tools response st :
  exists r new,
    registerDiscovered w server url tools response st
      = (r, mkState (trace st ++ new) (db st))
    /\ match r with inr res => fst res | inl _ => tools end
       = putAll (discovered w server url (discoveredTools w response)) tools
    /\ registeredKeys new = map fst (discovered w server url (discoveredTools w response))
    /\ Forall isConsole new.
Proof.
  destruct st as [tr d].
  unfold registerDiscovered, parseDiscovery, discoveredTools, acceptedBody, announced, iterate.
  eff_red.
  repeat (case_match; simplify_eq; eff_red_all).
  all: lazymatch goal with
       | |- context [registerMcpTools _ _ _ ?items _ ?s] =>
           destruct (registerMcpTools_exact w server url items tools s)
             as (oe & new & E & K & F);
           rewrite E; cbn [trace db];
           eexists _, _; (split; [trace_norm; reflexivity|]);
           split; [reflexivity | split; [exact K | console_prefix F]]
       | |- _ =>
           first [ eexists _, []; split; [rewrite app_nil_r; reflexivity|]
                 | eexists _, _; split; [trace_norm; reflexivity|] ];
           (split; [reflexivity | split; [reflexivity | console_prefix I]])
       end.
Qed.

(** What the two requests of discovery come to: the answer to the POST, or
    to the GET that follows a POST that threw. *)
Definition discoveryAnswer (w : World) (server : McpServer) (url : string)
    (h : list event) : Exn + Response :=
  match w_fetch w h (discoveryPost w server url) with
  | inr response => inr response
  | inl _ =>
      w_fetch w (h ++ [EvFetch (discoveryPost w server url)]) (discoveryGet w server url)
  end.

Definition toolsFound (w : World) (server : McpServer) (url : string)
    (h : list event) : list json :=
  match discoveryAnswer w server url h with
  | inr response => discoveredTools w response
  | inl _ => []
  end.

Lemma discoverServer_exact w server url tools st :
  let post := discoveryPost w server url in
  let get := discoveryGet w server url in
  let h := trace st ++ discoveryPrelude w server url in
  exists oe new,
    discoverServer w server url tools st
      = (inr (putAll (discovered w server url (toolsFound w server url h)) tools, oe),
         mkState (trace st ++ new) (db st))
    /\ registeredKeys new = map fst (discovered w server url (toolsFound w server url h))
    /\ requestsOf new
       = match w_fetch w h post with inr _ => [post] | inl _ => [post; get] end.
Proof.
  intros post get h. subst h. destruct st as [tr d].
  pose proof (discoveryPrelude_console w server url) as Fpre.
  assert (Qpre : Forall (fun e => isRegistering e = false) (discoveryPrelude w server url)).
  { constructor; [done | by apply reportEvents_quiet]. }
  unfold discoverServer, tryCatch, toolsFound, discoveryAnswer.
  unfold bind at 1. unfold consoleLog at 1, emit at 1. cbn [trace db].
  unfold bind at 1. rewrite reportApiKey_run. cbn [trace db].
  rewrite <- app_assoc.
  change ([EvConsole "log" FETCHING_MESSAGE [LStr (srv_name server); LStr url]]
            ++ reportEvents w USING_KEY_MESSAGE KEY_NOT_SET server)
    with (discoveryPrelude w server url).
  set (pre := discoveryPrelude w server url) in *. clearbody pre.
  unfold bind at 1. rewrite fetchToolsList_run. cbn [trace db].
  fold (discoveryPost w server url) (discoveryGet w server url). fold post get.
  assert (Kpre : registeredKeys pre = []) by (by apply registeredKeys_quiet).
  destruct (w_fetch w (tr ++ pre) post) as [e1|response].
  - destruct (w_fetch w ((tr ++ pre) ++ [EvFetch post]) get) as [e2|response].
    + exists (Some e2), (pre ++ [EvFetch post; EvFetch get]).
      cbn [ret]. split; [by rewrite <- app_assoc|]. split.
      * rewrite registeredKeys_app, Kpre. reflexivity.
      * rewrite requestsOf_app, (requestsOf_console pre Fpre). reflexivity.
    + destruct (registerDiscovered_exact w server url tools response
                  (mkState ((tr ++ pre) ++ [EvFetch post; EvFetch get]) d))
        as (r & new & E & Hr & K & F).
      rewrite E. cbn [trace db].
      assert (Hq : requestsOf ((pre ++ [EvFetch post; EvFetch get]) ++ new)
                   = [post; get]).
      { rewrite !requestsOf_app, (requestsOf_console pre Fpre),
          (requestsOf_console new F). reflexivity. }
      assert (HK : registeredKeys ((pre ++ [EvFetch post; EvFetch get]) ++ new)
                   = map fst (discovered w server url (discoveredTools w response))).
      { rewrite !registeredKeys_app, Kpre, K. reflexivity. }
      destruct r as [e|[tools'' oe]]; cbn [fst] in Hr; cbn [ret]; rewrite <- Hr.
      * exists (Some e), ((pre ++ [EvFetch post; EvFetch get]) ++ new).
        split; [by rewrite <- !app_assoc|]. by split.
      * exists oe, ((pre ++ [EvFetch post; EvFetch get]) ++ new).
        split; [by rewrite <- !app_assoc|]. by split.
  - destruct (registerDiscovered_exact w server url tools response
                (mkState ((tr ++ pre) ++ [EvFetch post]) d))
      as (r & new & E & Hr & K & F).
    rewrite E. cbn [trace db].
    assert (Hq : requestsOf ((pre ++ [EvFetch post]) ++ new) = [post]).
    { rewrite !requestsOf_app, (requestsOf_console pre Fpre),
        (requestsOf_console new F). reflexivity. }
    assert (HK : registeredKeys ((pre ++ [EvFetch post]) ++ new)
                 = map fst (discovered w server url (discoveredTools w response))).
    { rewrite !registeredKeys_app, Kpre, K. reflexivity. }
    destruct r as [e|[tools'' oe]]; cbn [fst] in Hr; cbn [ret]; rewrite <- Hr.
    + exists (Some e), ((pre ++ [EvFetch post]) ++ new).
      split; [by rewrite <- !app_assoc|]. by split.
    + exists oe, ((pre ++ [EvFetch post]) ++ new).
      split; [by rewrite <- !app_assoc|]. by split.
Qed.

Definition SKIP_MESSAGE : string := "[MCP] Server ${server.name} has no URL, skipping".

(** The line written for a server that is passed over for want of a URL. *)
Definition skipEvent (server : McpServer) : event :=
  EvConsole "log" SKIP_MESSAGE [LStr (srv_name server)].

(** [server.url] as a condition. *)
Definition hasUrl (server : McpServer) : bool :=
  match srv_url server with
  | Some url => JsString.truthy url
  | None => false
  end.

(** One turn of the loop over the servers, by what it registers. *)
Lemma loadServer_exact w allowed tools server st :
  exists entries new,
    loadServer w allowed tools server st
      = (inr (putAll entries tools), mkState (trace st ++ new) (db st))
    /\ registeredKeys new = map fst entries
    /\ (forall url,
          eligible allowed server url ->
          let h := trace st ++ discoveryPrelude w server url in
          entries = discovered w server url (toolsFound w server url h)
          /\ requestsOf new
             = match w_fetch w h (discoveryPost w server url) with
               | inr _ => [discoveryPost w server url]
               | inl _ => [discoveryPost w server url; discoveryGet w server url]
               end)
    /\ ((forall url, ~ eligible allowed server url) -> entries = [] /\ requestsOf new = [])
    /\ (hasUrl server = false -> new = [skipEvent server]).
Proof.
  destruct st as [tr d]. unfold loadServer, eligible, hasUrl.
  destruct (srv_url server) as [url|] eqn:Hu.
  - destruct (JsString.truthy url) eqn:Ht; cbn [negb].
    + destruct (inScope allowed (srv_id server)) eqn:Hs; cbn [negb].
      * destruct (discoverServer_exact w server url tools (mkState tr d))
          as (oe & new & E & K & Hq).
        unfold bind. rewrite E. cbn [snd fst trace db] in *.
        destruct oe as [e|]; eff_red.
        -- eexists _, (new ++ [_]). split; [by rewrite <- app_assoc|].
           split; [rewrite registeredKeys_app, K; cbn; by rewrite app_nil_r|].
           split; [|split; [|done]].
           ++ intros url' (Hu' & _ & _). simplify_eq. split; [done|].
              rewrite requestsOf_app. cbn. rewrite app_nil_r. exact Hq.
           ++ intros Hn. exfalso. by apply (Hn url).
        -- eexists _, new. split; [done|]. split; [done|].
           split; [|split; [|done]].
           ++ intros url' (Hu' & _ & _). simplify_eq. by split.
           ++ intros Hn. exfalso. by apply (Hn url).
      * exists [], []. cbn [ret trace db putAll fold_left]. rewrite app_nil_r.
        split; [done|]. split; [done|]. split; [|done].
        intros url' (Hu' & _ & Hs'). congruence.
    + eff_red. eexists [], [_]. split; [reflexivity|]. split; [done|].
      split; [|done]. intros url' (Hu' & Ht' & _). congruence.
  - eff_red. eexists [], [_]. split; [reflexivity|]. split; [done|].
    split; [|done]. intros url' (Hu' & _). congruence.
Qed.








(** ** Looking a key up after a sequence of registrations *)












(** ** Tool discovery on one server *)

Fixpoint noTerminator (s : string) : bool :=
  match s with
  | EmptyString => true
  | String c s' => negb (isLineTerminator c) && noTerminator s'
  end.

(** What follows a line: nothing, or a line terminator. *)
Definition endsLine (after : string) : bool :=
  match after with
  | EmptyString => true
  | String c _ => isLineTerminator c
  end.

(** The pattern matches at no position of [pre] in [pre +:+ s]. *)
Fixpoint noMatchIn (pre s : string) : bool :=
  match pre with
  | EmptyString => true
  | String c pre' =>
      match sseAt (String c pre' +:+ s) with
      | Some _ => false
      | None => noMatchIn pre' s
      end
  end.

Lemma append_cons c a b : String c a +:+ b = String c (a +:+ b).
Proof. reflexivity. Qed.

Lemma append_nil b : "" +:+ b = b.
Proof. reflexivity. Qed.

Lemma lineOf_app a after :
  noTerminator a = true -> endsLine after = true -> lineOf (a +:+ after) = a.
Proof.
  intros Ha Hafter. induction a as [|c a IH].
  - rewrite append_nil. destruct after as [|c after]; [done|].
    cbn [endsLine] in Hafter. cbn [lineOf]. by rewrite Hafter.
  - cbn [noTerminator] in Ha. apply andb_true_iff in Ha as [Hc Ha].
    rewrite append_cons. cbn [lineOf].
    apply negb_true_iff in Hc. rewrite Hc. by rewrite IH.
Qed.

Lemma lastBrace_snoc s : lastBrace (s +:+ "}") = Some (String.length s).
Proof.
  induction s as [|c s IH]; [reflexivity|].
  rewrite append_cons. cbn [lastBrace String.length]. by rewrite IH.
Qed.

Lemma slice0_app a b : JsString.slice0 (String.length a) (a +:+ b) = a.
Proof.
  induction a as [|c a IH].
  - by destruct b.
  - rewrite append_cons. cbn [String.length JsString.slice0]. by rewrite IH.
Qed.

Lemma sseMatch_skip pre s : noMatchIn pre s = true -> sseMatch (pre +:+ s) = sseMatch s.
Proof.
  induction pre as [|c pre IH]; [done|].
  cbn [noMatchIn]. destruct (sseAt (String c pre +:+ s)) eqn:E; [done|].
  intros H. rewrite append_cons in *. cbn [sseMatch]. rewrite E. by apply IH.
Qed.

Lemma append_assoc a b c : (a +:+ b) +:+ c = a +:+ (b +:+ c).
Proof. induction a as [|x a IH]; [done|]. rewrite !append_cons. by rewrite IH. Qed.

Lemma length_append a b :
  String.length (a +:+ b) = (String.length a + String.length b)%nat.
Proof. induction a as [|x a IH]; [done|]. rewrite append_cons. cbn. by rewrite IH. Qed.

Lemma noTerminator_snoc s : noTerminator s = true -> noTerminator (s +:+ "}") = true.
Proof.
  induction s as [|x s IH]; [done|].
  rewrite append_cons. cbn [noTerminator]. intros H.
  apply andb_true_iff in H as [-> H]. by rewrite IH.
Qed.

Lemma matchBraces_line c inner after :
  noTerminator (String c inner) = true ->
  endsLine after = true ->
  matchBraces (String "{" (String c inner +:+ "}" +:+ after))
  = Some (String "{" (String c inner +:+ "}")).
Proof.
  intros Hline Hafter. unfold matchBraces.
  change (Ascii.eqb "{" "{") with true. cbv iota.
  rewrite <- append_assoc.
  rewrite (lineOf_app _ _ (noTerminator_snoc _ Hline) Hafter).
  rewrite append_cons, lastBrace_snoc. do 2 f_equal.
  rewrite <- append_cons.
  replace (S (S (String.length inner))) with (String.length (String c inner +:+ "}")).
  - apply slice0_app.
  - rewrite length_append. cbn [String.length]. lia.
Qed.

Lemma sseAt_data s : sseAt ("data: " +:+ s) = matchBraces s.
Proof. reflexivity. Qed.

(** A JSON object alone on a [data:] line is what the pattern captures. *)
Lemma sseMatch_data_line c inner after :
  noTerminator (String c inner) = true ->
  endsLine after = true ->
  sseMatch ("data: " +:+ String "{" (String c inner +:+ "}" +:+ after))
  = Some (String "{" (String c inner +:+ "}")).
Proof.
  intros Hline Hafter.
  pose proof (matchBraces_line c inner after Hline Hafter) as E.
  rewrite <- sseAt_data in E.
  destruct ("data: " +:+ String "{" (String c inner +:+ "}" +:+ after)) eqn:Es.
  - discriminate.
  - cbn [sseMatch]. by rewrite E.
Qed.

Lemma acceptedBody_json w text data :
  w_jsonParse w text = inr data -> acceptedBody w text = Some data.
Proof. unfold acceptedBody. by intros ->. Qed.

Lemma acceptedBody_sse w pre c inner after data :
  let object := String "{" (String c inner +:+ "}") in
  let line := "data: " +:+ String "{" (String c inner +:+ "}" +:+ after) in
  noMatchIn pre line = true ->
  noTerminator (String c inner) = true ->
  endsLine after = true ->
  (forall d, w_jsonParse w (pre +:+ line) <> inr d) ->
  w_jsonParse w object = inr data ->
  acceptedBody w (pre +:+ line) = Some data.
Proof.
  intros object line Hpre Hline Hafter Hno Hdata. unfold acceptedBody.
  destruct (w_jsonParse w (pre +:+ line)) as [e|d]; [|by destruct (Hno d)].
  subst line. rewrite (sseMatch_skip _ _ Hpre), sseMatch_data_line by done.
  fold object. by rewrite Hdata.
Qed.

(** C6.  On a server that has a URL (and is in scope), tool discovery posts
    the JSON-RPC 2.0 request of method [tools/list] to the server's URL; when
    that request throws, and only then, it sends a GET to the same URL; no
    other request is made.  When the response so obtained is [ok], its text is
    taken as JSON when it parses, and otherwise, when a line of it holds
    [data: ] followed by an object in braces and the pattern matches nowhere
    before, as the JSON of that object; either way the tools that the
    document announces are what the server adds to the tool set, each under
    its sanitized name. *)
Theorem mcp_discovery_protocol w allowed tools server url st :
  eligible allowed server url ->
  let post := discoveryPost w server url in
  let get := discoveryGet w server url in
  let h := trace st ++ discoveryPrelude w server url in
  let run := loadServer w allowed tools server st in
  (req_url post = url /\ req_method post = "POST"
   /\ req_body post = Some (BodyJson toolsListBody)
   /\ Js.optProp "jsonrpc" (Some toolsListBody) = Some (JStr "2.0")
   /\ Js.optProp "method" (Some toolsListBody) = Some (JStr "tools/list"))
  /\ (req_url get = url /\ req_method get = "GET" /\ req_body get = None)
  /\ requestsOf (eventsSince st (snd run))
     = match w_fetch w h post with
       | inr _ => [post]
       | inl _ => [post; get]
       end
  /\ (forall response,
        match w_fetch w h post with
        | inr posted => response = posted
        | inl _ => w_fetch w (h ++ [EvFetch post]) get = inr response
        end ->
        resp_ok response = true ->
        (forall data,
           w_jsonParse w (resp_text response) = inr data ->
           fst run = inr (putAll (discovered w server url (announced data)) tools))
        /\ (forall pre c inner after data,
              let object := String "{" (String c inner +:+ "}") in
              let line := "data: " +:+ String "{" (String c inner +:+ "}" +:+ after) in
              resp_text response = pre +:+ line ->
              noMatchIn pre line = true ->
              noTerminator (String c inner) = true ->
              endsLine after = true ->
              (forall d, w_jsonParse w (resp_text response) <> inr d) ->
              w_jsonParse w object = inr data ->
              fst run = inr (putAll (discovered w server url (announced data)) tools))).
Proof.
  intros He post get h run.
  destruct (loadServer_exact w allowed tools server st)
    as (entries & new & E & _ & Hel & _).
  destruct (Hel url He) as [-> Hq]. fold post get h in Hq.
  assert (Hfst : fst run = inr (putAll (discovered w server url (toolsFound w server url h))
                                  tools)) by (subst run; by rewrite E).
  assert (Hsnd : eventsSince st (snd run) = new).
  { subst run. rewrite E. destruct st as [tr d]. apply eventsSince_app. }
  split; [done|]. split; [done|]. split; [by rewrite Hsnd|].
  intros response Hresp Hok.
  assert (Hfound : toolsFound w server url h
                   = match acceptedBody w (resp_text response) with
                     | Some data => announced data
                     | None => []
                     end).
  { unfold toolsFound, discoveryAnswer, discoveredTools. fold post get.
    destruct (w_fetch w h post) as [e|posted].
    - by rewrite Hresp, Hok.
    - subst posted. by rewrite Hok. }
  rewrite Hfst, Hfound. split.
  - intros data Hdata. by rewrite (acceptedBody_json w _ data Hdata).
  - intros pre c inner after data object line Htext Hpre Hline Hafter Hno Hdata.
    rewrite Htext in Hno |- *. subst object line.
    by rewrite (acceptedBody_sse w pre c inner after data Hpre Hline Hafter Hno Hdata).
Qed.


(** ** A registry with three skills and three servers *)

Definition lineFeed : string := String "010"%char EmptyString.

(** The text [{"name":"n"}]. *)
Definition toolText (n : string) : string :=
  "{" +:+ quoted "name" +:+ ":" +:+ quoted n +:+ "}".

(** The text [{"tools":[...]}] of the tools [search], [greet] and
    [web_fetch]. *)
Definition catalogText : string :=
  "{" +:+ quoted "tools" +:+ ":["
  +:+ toolText "search" +:+ "," +:+ toolText "greet" +:+ "," +:+ toolText "web_fetch"
  +:+ "]}".

Definition namedTool (n : string) : json := JObj [("name", JStr n)].

Definition catalog : json :=
  JObj [("tools", JArr [namedTool "search"; namedTool "greet"; namedTool "web_fetch"])].

(** The text [{"result":{"tools":[{"name":"lookup"}]}}]. *)
Definition streamObjectText : string :=
  "{" +:+ quoted "result" +:+ ":{" +:+ quoted "tools" +:+ ":["
  +:+ toolText "lookup" +:+ "]}}".

Definition streamObject : json :=
  JObj [("result", JObj [("tools", JArr [namedTool "lookup"])])].

(** A body of server-sent events. *)
Definition streamText : string :=
  "event: message" +:+ lineFeed +:+ "data: " +:+ streamObjectText +:+ lineFeed +:+ lineFeed.

Definition docsUrl : string := "https://docs.example.com/mcp".

Definition streamUrl : string := "https://stream.example.com/mcp".

Definition docsServer : McpServer := mkServer "mcp-1" "docs" (Some docsUrl) None.

Definition streamServer : McpServer := mkServer "mcp-2" "stream" (Some streamUrl) None.

Definition offlineServer : McpServer := mkServer "mcp-3" "offline" None None.

Definition fetchSkill : Skill :=
  mkSkill "skill-3" "web_fetch" "Fetches a page" Code None None.

Definition mailSkill : Skill :=
  mkSkill "skill-4" "send--mail (v2)" "Sends a mail" Template (Some "mail") None.

Definition registryParse (s : string) : Exn + json :=
  if String.eqb s catalogText then inr catalog
  else if String.eqb s streamObjectText then inr streamObject
  else inl syntaxError.

(** The first server answers the POST with JSON; the second one refuses the
    POST and answers the GET with server-sent events. *)
Definition registryFetch (r : Request) : Exn + Response :=
  if String.eqb (req_url r) docsUrl then inr (okResponse docsUrl catalogText)
  else if String.eqb (req_url r) streamUrl && String.eqb (req_method r) "GET"
       then inr (mkResponse true 200 "OK" [("content-type", "text/event-stream")]
                   streamUrl streamText)
       else inl fetchFailed.

(** The agents have the first skill and the first server. *)
Definition registryWorld : World :=
  sampleWorld registryParse (fun _ => None) registryFetch true
    [greetSkill; fetchSkill; mailSkill]
    [docsServer; streamServer; offlineServer]
    ["skill-1"] ["mcp-1"] (fun _ => true).

(** The run without agent identifier, and the run for an agent. *)
Definition unscopedRun : (Exn + ToolSet) * State :=
  Eval vm_compute in loadTools registryWorld None initial.


(** The tool set of a run, empty when it threw. *)
Definition toolsOfRun (r : (Exn + ToolSet) * State) : ToolSet :=
  match fst r with
  | inr ts => ts
  | inl _ => ∅
  end.

Lemma unscopedRun_eq :
  loadTools registryWorld None initial = (inr (toolsOfRun unscopedRun), snd unscopedRun).
Proof. exact (eq_refl unscopedRun). Qed.



Ltac in_list := repeat first [left; reflexivity | right].











(** A run of hyphens in a name stays in the key. *)
Lemma hyphen_run_kept :
  exists ts st',
    loadTools registryWorld None initial = (inr ts, st')
    /\ sk_name mailSkill = "send--mail (v2)"
    /\ ts !! "send--mail_v2_" = Some (SkillTool mailSkill)
    /\ hasRun hyphen "send--mail_v2_" = true
    /\ hasSeparatorRun "send--mail_v2_" = true.
Proof.
  exists (toolsOfRun unscopedRun), (snd unscopedRun).
  split; [exact unscopedRun_eq|]. repeat split.
Qed.

Lemma tool_keys_sanitized_witness :
  loadTools registryWorld None initial = (inr (toolsOfRun unscopedRun), snd unscopedRun)
  /\ toolsOfRun unscopedRun !! "send--mail_v2_" = Some (SkillTool mailSkill)
  /\ isExternal (SkillTool mailSkill) = true
  /\ exists name,
       externalName (SkillTool mailSkill) = Some name
       /\ "send--mail_v2_" = sanitizeName name
       /\ validName "send--mail_v2_"
       /\ hasRun underscore "send--mail_v2_" = false
       /\ (String.length "send--mail_v2_" <= 128)%nat.
Proof.
  split; [exact unscopedRun_eq|]. split; [reflexivity|]. split; [reflexivity|].
  apply (tool_keys_sanitized registryWorld None initial
           (toolsOfRun unscopedRun) (snd unscopedRun) "send--mail_v2_"
           (SkillTool mailSkill) unscopedRun_eq eq_refl eq_refl).
Defined.

(** A built-in tool replaces the MCP tool of the same name: the skill
    [web_fetch] and the MCP tool [web_fetch] collide, the conflict is logged,
    and the tool set ends with the built-in [web_fetch]. *)
Lemma builtin_replaces_mcp_tool :
  exists ts st',
    loadTools registryWorld None initial = (inr ts, st')
    /\ In fetchSkill (w_skillsActiveApproved registryWorld)
    /\ sanitizeName (sk_name fetchSkill) = "web_fetch"
    /\ In (registeringEvent (JStr "web_fetch") "web_fetch") (eventsSince initial st')
    /\ In (conflictEvent "web_fetch") (eventsSince initial st')
    /\ ts !! "web_fetch" = Some (BuiltinTool WebFetch).
Proof.
  exists (toolsOfRun unscopedRun), (snd unscopedRun).
  split; [exact unscopedRun_eq|]. split; [in_list|]. split; [reflexivity|].
  split; [in_list|]. split; [in_list|]. reflexivity.
Qed.

Lemma not_builtin_greet : ~ In "greet" (map fst builtinTools).
Proof. intros H. repeat (destruct H as [H|H]; [discriminate|]). destruct H. Qed.

Lemma mcp_tool_wins_conflict_witness :
  loadTools registryWorld None initial = (inr (toolsOfRun unscopedRun), snd unscopedRun)
  /\ In greetSkill (w_skillsActiveApproved registryWorld)
  /\ inScope (skillScope registryWorld None) (sk_id greetSkill) = true
  /\ sanitizeName (sk_name greetSkill) = "greet"
  /\ In (registeringEvent (JStr "greet") "greet") (eventsSince initial (snd unscopedRun))
  /\ In (conflictEvent "greet") (eventsSince initial (snd unscopedRun))
  /\ isMcp (toolsOfRun unscopedRun !! "greet").
Proof.
  assert (Hin : In greetSkill (w_skillsActiveApproved registryWorld)) by in_list.
  assert (Hreg : In (registeringEvent (JStr "greet") "greet")
                   (eventsSince initial (snd unscopedRun))) by in_list.
  split; [exact unscopedRun_eq|]. split; [exact Hin|]. split; [reflexivity|].
  split; [reflexivity|]. split; [exact Hreg|].
  destruct (mcp_tool_wins_conflict registryWorld None initial
              (toolsOfRun unscopedRun) (snd unscopedRun) greetSkill (JStr "greet") "greet"
              unscopedRun_eq Hin eq_refl eq_refl Hreg) as [Hlog Hmcp].
  split; [exact Hlog|]. apply Hmcp; [exact not_builtin_greet|].
  intros a peer Ha. discriminate Ha.
Defined.

Lemma stream_text_no_json d : w_jsonParse registryWorld streamText <> inr d.
Proof. discriminate. Qed.

Definition streamResponse : Response :=
  mkResponse true 200 "OK" [("content-type", "text/event-stream")] streamUrl streamText.

Lemma mcp_discovery_protocol_witness :
  eligible None streamServer streamUrl
  /\ requestsOf (eventsSince initial
                   (snd (loadServer registryWorld None ∅ streamServer initial)))
     = [discoveryPost registryWorld streamServer streamUrl;
        discoveryGet registryWorld streamServer streamUrl]
  /\ fst (loadServer registryWorld None ∅ streamServer initial)
     = inr (putAll (discovered registryWorld streamServer streamUrl (announced streamObject))
              ∅)
  /\ putAll (discovered registryWorld streamServer streamUrl (announced streamObject)) ∅
       !! "lookup"
     = Some (McpTool streamUrl (namedTool "lookup") "stream" None).
Proof.
  assert (He : eligible None streamServer streamUrl) by (repeat split).
  destruct (mcp_discovery_protocol registryWorld None ∅ streamServer streamUrl initial He)
    as (_ & _ & Hreq & Hbody).
  split; [exact He|]. split; [exact Hreq|]. split; [|vm_compute; reflexivity].
  assert (Hresp : match w_fetch registryWorld
                          (trace initial
                           ++ discoveryPrelude registryWorld streamServer streamUrl)
                          (discoveryPost registryWorld streamServer streamUrl) with
                  | inr posted => streamResponse = posted
                  | inl _ =>
                      w_fetch registryWorld
                        ((trace initial
                          ++ discoveryPrelude registryWorld streamServer streamUrl)
                         ++ [EvFetch (discoveryPost registryWorld streamServer streamUrl)])
                        (discoveryGet registryWorld streamServer streamUrl)
                      = inr streamResponse
                  end) by (vm_compute; reflexivity).
  destruct (Hbody streamResponse Hresp eq_refl) as [_ Hsse].
  apply (Hsse ("event: message" +:+ lineFeed) "034"%char
           (JsString.drop 2 (JsString.dropLast streamObjectText))
           (lineFeed +:+ lineFeed) streamObject);
    first [vm_compute; reflexivity | exact stream_text_no_json].
Defined.

(** * Further properties *)

(** ** Tool names: sanitizing twice *)

Lemma replaceInvalid_id s : validName s -> replaceInvalid s = s.
Proof.
  unfold validName. induction s as [|c s IH]; [done|].
  cbn [JsString.chars replaceInvalid]. intros H.
  apply Forall_cons in H as [Hc Hs]. by rewrite Hc, IH.
Qed.

Lemma collapse_id s : hasRun underscore s = false -> collapseUnderscores s = s.
Proof.
  induction s as [|c s IH]; [done|].
  destruct s as [|c' s']; [done|].
  change (hasRun underscore (String c (String c' s')))
    with ((Ascii.eqb c underscore && Ascii.eqb c' underscore)
          || hasRun underscore (String c' s')).
  intros H. apply orb_false_iff in H as [H1 H2].
  change (collapseUnderscores (String c (String c' s')))
    with (if Ascii.eqb c underscore && Ascii.eqb c' underscore
          then collapseUnderscores (String c' s')
          else String c (collapseUnderscores (String c' s'))).
  by rewrite H1, IH.
Qed.

Lemma slice0_id n s : (String.length s <= n)%nat -> JsString.slice0 n s = s.
Proof.
  revert s. induction n as [|n IH]; intros [|c s] H; cbn in *; try done; try lia.
  rewrite IH; [done | lia].
Qed.

(** X2.  Sanitizing is idempotent: a name that went through the chain
    [replace], [replace], [slice(0, 128)] comes out of it unchanged, so a key
    of the tool set is its own sanitized form. *)
Theorem sanitizeName_idempotent name :
  sanitizeName (sanitizeName name) = sanitizeName name.
Proof.
  destruct (sanitizeName_wellFormed name) as (Hv & Hr & Hl).
  unfold sanitizeName at 1.
  by rewrite (replaceInvalid_id _ Hv), (collapse_id _ Hr), (slice0_id _ _ Hl).
Qed.

(** ** The tool set: built-in tools and peer tools *)

Lemma fold_insert_lookup_last {A} (key : A -> string) (val : A -> Tool) (l : list A)
    (tools : ToolSet) x :
  NoDup (map key l) -> In x l ->
  fold_left (fun acc y => <[key y := val y]> acc) l tools !! key x = Some (val x).
Proof.
  revert tools. induction l as [|y l IH]; intros tools Hnd Hin; [destruct Hin|].
  cbn [map] in Hnd. apply NoDup_cons in Hnd as [Hy Hnd].
  cbn [fold_left]. destruct Hin as [->|Hin].
  - rewrite fold_insert_lookup_ne; [apply lookup_insert_eq|].
    intros z Hz Heq. apply Hy. rewrite <- Heq. apply list_elem_of_In. by apply in_map.
  - by apply IH.
Qed.

Lemma builtin_keys_distinct : NoDup (map fst builtinTools).
Proof.
  apply (bool_decide_unpack (NoDup (map fst builtinTools))). vm_compute. exact I.
Qed.

Lemma peerToolName_prefix peer : JsString.startsWith "ask_agent_" (peerToolName peer) = true.
Proof. reflexivity. Qed.

Lemma builtin_not_peer kb peer : In kb builtinTools -> peerToolName peer <> fst kb.
Proof.
  intros Hin Heq. pose proof (peerToolName_prefix peer) as Hp. rewrite Heq in Hp.
  revert Hp. clear Heq.
  repeat (destruct Hin as [<-|Hin]; [discriminate|]). destruct Hin.
Qed.

Lemma addBuiltins_lookup tools k b :
  In (k, b) builtinTools -> addBuiltins tools !! k = Some (BuiltinTool b).
Proof.
  intros Hin. unfold addBuiltins.
  apply (fold_insert_lookup_last fst (fun kb => BuiltinTool (snd kb)) builtinTools tools (k, b));
    [apply builtin_keys_distinct | exact Hin].
Qed.

(** X3.  The tool set returned by [loadTools] always holds the fifteen
    built-in tools under their own names: no skill, MCP tool or peer-agent
    tool can take the name of a built-in tool. *)
Theorem builtins_always_loaded w agentId st ts st' k b :
  loadTools w agentId st = (inr ts, st') ->
  In (k, b) builtinTools ->
  ts !! k = Some (BuiltinTool b).
Proof.
  intros H Hin.
  apply loadTools_run in H as (new & last & tools1 & _ & _ & Hc & _).
  destruct Hc as [-> | (a & _ & ->)]; [by apply addBuiltins_lookup|].
  unfold addPeers.
  rewrite (fold_insert_lookup_ne peerToolName
             (fun peer => AgentTool a (ag_id peer) (ag_name peer))).
  - by apply addBuiltins_lookup.
  - intros peer _. by apply (builtin_not_peer (k, b)).
Qed.

(** What an entry that asks a peer agent looks like, for the agent [a]. *)
Definition peerEntry (w : World) (agentId : option string) (k : string) (t : Tool) : Prop :=
  match t with
  | AgentTool fromAgentId toAgentId toAgentName =>
      givenAgent agentId = Some fromAgentId
      /\ exists peer,
           In peer (w_agentsList w)
           /\ ag_id peer = toAgentId
           /\ ag_name peer = toAgentName
           /\ toAgentId <> fromAgentId
           /\ ag_status peer <> "error"
           /\ k = peerToolName peer
  | _ => True
  end.

(** X4.  A tool of the returned set that asks another agent is there for the
    agent [loadTools] was called for, and it asks an agent of the list that is
    not that agent itself and whose status is not [error]; without an agent
    identifier there is no such tool. *)
Theorem peer_tools_are_peers w agentId st ts st' k fromAgentId toAgentId toAgentName :
  loadTools w agentId st = (inr ts, st') ->
  ts !! k = Some (AgentTool fromAgentId toAgentId toAgentName) ->
  givenAgent agentId = Some fromAgentId
  /\ exists peer,
       In peer (w_agentsList w)
       /\ ag_id peer = toAgentId
       /\ ag_name peer = toAgentName
       /\ toAgentId <> fromAgentId
       /\ ag_status peer <> "error"
       /\ k = peerToolName peer.
Proof.
  intros H Hk.
  apply loadTools_run in H as (new & last & tools1 & _ & S & Hc & _).
  assert (H1 : map_Forall (peerEntry w agentId) tools1).
  { eapply Steps_entries; [exact S | | done].
    apply loadSkills_entries; [apply map_Forall_empty | done]. }
  assert (H2 : map_Forall (peerEntry w agentId) (addBuiltins tools1)).
  { unfold addBuiltins. by apply fold_insert_entries. }
  assert (H3 : map_Forall (peerEntry w agentId) ts).
  { destruct Hc as [-> | (a & Ha & ->)]; [exact H2|].
    unfold addPeers. apply fold_insert_entries; [exact H2|].
    intros peer Hin. apply elem_of_peers in Hin as [Hin Hp].
    unfold isPeer in Hp. apply andb_true_iff in Hp as [Hid Hst].
    apply negb_true_iff in Hid, Hst. apply String.eqb_neq in Hid, Hst.
    split; [exact Ha|]. by exists peer. }
  exact (H3 k _ Hk).
Qed.

(** ** The tool loader never fails on the servers' account *)

(** The queries [loadTools] makes outside of any [try]. *)
Definition isLoaderPrelude (q : Query) : bool :=
  match q with
  | QAgentSkillIds _ | QAgentMcpIds _ | QSkillsActiveApproved => true
  | _ => false
  end.

(** X5.  When the queries for the agent's assignments and for the skills
    do not fail, [loadTools] returns a tool set, whatever the MCP servers
    answer and whether or not the lists of servers and of agents can be read;
    and it writes to no table. *)
Theorem loadTools_returns w agentId st :
  (forall h q, isLoaderPrelude q = true -> w_queryFailure w h q = None) ->
  exists ts new,
    loadTools w agentId st = (inr ts, mkState (trace st ++ new) (db st)).
Proof.
  intros Hq. destruct st as [tr d].
  unfold loadTools, loadAssignments, loadPeerTools, runQuery.
  destruct (givenAgent agentId) as [a|] eqn:Ha; eff_red.
  all: rewrite ?Hq by reflexivity; eff_red.
  all: rewrite ?Hq by reflexivity; eff_red.
  all: rewrite ?Hq by reflexivity; eff_red.
  all: match goal with
       | |- context [loadMcpTools ?w0 ?al ?t ?s] =>
           destruct (loadMcpTools_run w0 al t s) as (tools1 & new & E & _);
           rewrite E; cbn [trace db] in *
       end.
  all: eff_red.
  all: try match goal with
       | |- context [w_queryFailure ?w0 ?h QAgentsList] =>
           destruct (w_queryFailure w0 h QAgentsList); eff_red
       end.
  all: eexists _, _; rewrite <- ?app_assoc; reflexivity.
Qed.

(** ** The API key of a server *)

(** The [Authorization] header that goes with a key. *)
Definition bearerOf (apiKey : option string) : option string :=
  match apiKey with
  | Some k => if JsString.truthy k then Some ("Bearer " +:+ k) else None
  | None => None
  end.

Lemma mcpCallHeaders_authorization apiKey :
  headerGet "Authorization" (mcpCallHeaders apiKey) = bearerOf apiKey.
Proof.
  unfold mcpCallHeaders, bearerOf.
  destruct apiKey as [k|]; [destruct (JsString.truthy k)|]; reflexivity.
Qed.

Lemma discoveryHeaders_authorization w server :
  headerGet "Authorization" (discoveryHeaders w server) = bearerOf (serverApiKey w server).
Proof.
  unfold discoveryHeaders, bearerOf, keyIsSet.
  destruct (serverApiKey w server) as [k|]; [destruct (JsString.truthy k)|]; reflexivity.
Qed.

Lemma discoveryGet_authorization w server url :
  headerGet "Authorization" (req_headers (discoveryGet w server url))
  = bearerOf (serverApiKey w server)
  /\ headerGet "Content-Type" (req_headers (discoveryGet w server url)) = None.
Proof.
  unfold discoveryGet, toolsListGet, discoveryHeaders, bearerOf, keyIsSet.
  destruct (serverApiKey w server) as [k|]; [destruct (JsString.truthy k)|];
    split; reflexivity.
Qed.

(** The server an MCP tool of the set comes from, with the key it holds. *)
Definition keyedEntry (w : World) (k : string) (t : Tool) : Prop :=
  match t with
  | McpTool url _ name key =>
      exists server,
        In server (w_mcpEnabledApproved w)
        /\ srv_url server = Some url
        /\ srv_name server = name
        /\ key = serverApiKey w server
  | _ => True
  end.

(** X22.  An MCP tool of the returned tool set holds the API key of its
    server as the environment gave it when the tools were loaded, and every
    request the tool makes carries the [Authorization] header that the
    discovery requests to that server carried: [Bearer] and the key when the
    server names an environment variable that is set and not empty, no such
    header otherwise.  The fallback GET of discovery has that header too, and
    no [Content-Type]. *)
Theorem mcp_tool_sends_server_key w agentId st ts st' k url mcpTool name key :
  loadTools w agentId st = (inr ts, st') ->
  ts !! k = Some (McpTool url mcpTool name key) ->
  exists server,
    In server (w_mcpEnabledApproved w)
    /\ srv_url server = Some url
    /\ srv_name server = name
    /\ key = serverApiKey w server
    /\ (forall callUrl toolName args,
          headerGet "Authorization"
            (req_headers (mcpCallRequest callUrl key toolName args))
          = bearerOf key)
    /\ headerGet "Authorization" (req_headers (discoveryPost w server url)) = bearerOf key
    /\ headerGet "Authorization" (req_headers (discoveryGet w server url)) = bearerOf key
    /\ headerGet "Content-Type" (req_headers (discoveryGet w server url)) = None.
Proof.
  intros H Hk.
  assert (Hall : map_Forall (keyedEntry w) ts).
  { eapply loadTools_entries; [exact H | | | |]; try done.
    intros server url0 mcpTool0 toolName Hs (Hu & _ & _) _.
    by exists server. }
  destruct (Hall k _ Hk) as (server & Hs & Hu & Hn & ->).
  exists server. split; [done|]. split; [done|]. split; [done|]. split; [done|].
  split; [intros; apply mcpCallHeaders_authorization|].
  split; [apply discoveryHeaders_authorization|].
  apply discoveryGet_authorization.
Qed.

(** ** The web_fetch tool: headers, the answer, the failures *)









(** The note that ends a body cut at the limit. *)
Definition TRUNCATION_NOTE : string :=
  String "010"%char "...[truncated: response exceeds 100KB]".

(** What the handler writes before the request. *)
Definition webFetchPrelude (args : WebFetchArgs) : list event :=
  [EvConsole "log" "[WebFetch] ${method} ${url}"
     [LStr (default "GET" (wf_method args)); LStr (wf_url args)];
   EvSetTimeout (finalTimeout args)].

Definition httpUrl (u : Url) : Prop :=
  url_protocol u = "http:" \/ url_protocol u = "https:".

Lemma webFetch_goes_on w args u :
  w_newUrl w (JStr (wf_url args)) = Some u ->
  httpUrl u ->
  webFetchHandler w args
  = tryCatch
      (consoleLog "[WebFetch] ${method} ${url}"
         [LStr (default "GET" (wf_method args)); LStr (wf_url args)] ;;
       emit (EvSetTimeout (finalTimeout args)) ;;
       response <- fetch w (webFetchRequest args) ;;
       emit EvClearTimeout ;;
       ret (webFetchResult w args response))%eff
      (fun error =>
         consoleError "[WebFetch] Error:" [LExn error] ;;
         ret (webFetchError args error))%eff.
Proof.
  intros Hu Hp. unfold webFetchHandler. rewrite Hu.
  destruct Hp as [-> | ->]; reflexivity.
Qed.

Lemma webFetchResult_fields w args response :
  let v := webFetchResult w args response in
  let text := resp_text response in
  let tooLong := Nat.ltb MAX_RESPONSE_SIZE (String.length text) in
  Js.optProp "success" (Some v) = Some (JBool (resp_ok response))
  /\ Js.optProp "status" (Some v) = Some (JNum (resp_status response))
  /\ Js.optProp "size" (Some v) = Some (JNum (Z.of_nat (String.length text)))
  /\ Js.optProp "truncated" (Some v) = Some (JBool tooLong)
  /\ Js.optProp "body" (Some v)
     = Some (JStr (if tooLong
                   then JsString.slice0 MAX_RESPONSE_SIZE text +:+ TRUNCATION_NOTE
                   else text)).
Proof.
  unfold webFetchResult, TRUNCATION_NOTE.
  generalize MAX_RESPONSE_SIZE. intros n.
  set (body := if Nat.ltb n (String.length (resp_text response)) then _ else _).
  clearbody body.
  destruct (JsString.includes "application/json" _);
    [destruct (w_jsonParse w body) as [e|[]] | ];
    destruct (resp_ok response); repeat split; reflexivity.
Qed.

(** X7.  When the URL is an http(s) one and the request is answered,
    web_fetch sends exactly that one request, to the URL it was given and
    with redirects refused, between setting and clearing its timer.  Its
    answer reports the response's [ok] as [success] and the full length of
    the text as [size]; the [body] is the text itself when it has at most
    102400 characters, and otherwise its first 102400 characters followed by
    a note, with [truncated] set. *)
Theorem webFetch_answer w args st u response :
  w_newUrl w (JStr (wf_url args)) = Some u ->
  httpUrl u ->
  w_fetch w (trace st ++ webFetchPrelude args) (webFetchRequest args) = inr response ->
  let text := resp_text response in
  let tooLong := Nat.ltb MAX_RESPONSE_SIZE (String.length text) in
  exists v body,
    webFetchHandler w args st
    = (inr v,
       mkState (trace st ++ webFetchPrelude args
                  ++ [EvFetch (webFetchRequest args); EvClearTimeout]) (db st))
    /\ req_url (webFetchRequest args) = wf_url args
    /\ req_redirectError (webFetchRequest args) = true
    /\ Js.optProp "success" (Some v) = Some (JBool (resp_ok response))
    /\ Js.optProp "size" (Some v) = Some (JNum (Z.of_nat (String.length text)))
    /\ Js.optProp "truncated" (Some v) = Some (JBool tooLong)
    /\ Js.optProp "body" (Some v) = Some (JStr body)
    /\ body = (if tooLong
               then JsString.slice0 MAX_RESPONSE_SIZE text +:+ TRUNCATION_NOTE
               else text)
    /\ (String.length body <= MAX_RESPONSE_SIZE + 39)%nat.
Proof.
  intros Hu Hp Hf text tooLong.
  destruct (webFetchResult_fields w args response) as (F1 & _ & F3 & F4 & F5).
  eexists (webFetchResult w args response), _.
  split; [|split; [reflexivity|split; [reflexivity|]]].
  - rewrite (webFetch_goes_on w args u Hu Hp). destruct st as [tr d].
    unfold fetch, webFetchPrelude in *. eff_red. cbn [trace] in Hf.
    rewrite <- !app_assoc. cbn [app]. rewrite Hf. eff_red.
    rewrite <- !app_assoc. reflexivity.
  - split; [exact F1|]. split; [exact F3|]. split; [exact F4|]. split; [exact F5|].
    split; [reflexivity|].
    subst tooLong text. generalize MAX_RESPONSE_SIZE. intros n.
    destruct (Nat.ltb n (String.length (resp_text response))) eqn:E.
    + rewrite length_append, length_slice0.
      change (String.length TRUNCATION_NOTE) with 39%nat. lia.
    + apply Nat.ltb_ge in E. lia.
Qed.

(** X8.  When the URL is an http(s) one and the request fails (the fetch or
    the reading of the body throws), web_fetch does not throw: it logs the
    error, which is the last thing it does, and answers [success: false],
    calling a failure named [AbortError] a timeout and one whose message
    mentions a redirect a blocked redirect.  It has sent that one request. *)
Theorem webFetch_failure w args st u e :
  w_newUrl w (JStr (wf_url args)) = Some u ->
  httpUrl u ->
  w_fetch w (trace st ++ webFetchPrelude args) (webFetchRequest args) = inl e ->
  exists error message new,
    webFetchHandler w args st
    = (inr (webFetchFailure error message), mkState (trace st ++ new) (db st))
    /\ requestsOf new = [webFetchRequest args]
    /\ last new = Some (EvConsole "error" "[WebFetch] Error:" [LExn e])
    /\ error = (if String.eqb (exn_name e) "AbortError" then "Request timeout"
                else if JsString.includes "redirect" (exn_message e)
                     then "Redirect blocked"
                     else exn_message e).
Proof.
  intros Hu Hp Hf.
  rewrite (webFetch_goes_on w args u Hu Hp). destruct st as [tr d].
  unfold fetch, webFetchPrelude in *. eff_red. cbn [trace] in Hf.
  rewrite <- !app_assoc. cbn [app]. rewrite Hf. eff_red.
  rewrite <- !app_assoc. cbn [app]. unfold webFetchError.
  destruct (String.eqb (exn_name e) "AbortError");
    [|destruct (JsString.includes "redirect" (exn_message e))];
    eexists _, _, _; (split; [reflexivity|]); repeat split; reflexivity.
Qed.

(** ** Switching the model: the successful path, and what an answer means *)

Lemma find_provider_some providers provider :
  In provider providers ->
  exists p, find (fun p => String.eqb p provider) providers = Some p.
Proof.
  induction providers as [|p rest IH]; intros Hin; [destruct Hin|].
  cbn [find]. destruct (String.eqb p provider) eqn:E; [by exists p|].
  destruct Hin as [->|Hin]; [by rewrite String.eqb_refl in E | by apply IH].
Qed.

Lemma find_provider_In providers provider p :
  find (fun p => String.eqb p provider) providers = Some p -> In provider providers.
Proof.
  intros H. apply find_some in H as [Hin Heq]. apply String.eqb_eq in Heq. by subst.
Qed.

(** The model named as the previous one. *)
Definition previousModelOf (d : Db) : string :=
  match agentConfig d with Some c => cfg_model c | None => "unknown" end.

Definition switchUpdate (provider model : string) : Mutation :=
  MutAgentConfigUpdate model provider.

Definition switchEntry (d : Db) (provider model : string) : Mutation :=
  MutActivityLog
    (mkActivity "model_switch"
       ("Switched from " +:+ previousModelOf d +:+ " to " +:+ provider +:+ "/" +:+ model)
       "private").

(** What a successful switch does, in order. *)
Definition switchEvents (d : Db) (provider model : string) : list event :=
  [EvRunQuery QAgentConfig;
   EvRunMutation (switchUpdate provider model) None;
   EvRunMutation (switchEntry d provider model) None].

(** X9.  When the provider is an available one and neither the query nor the
    two mutations fail, [switchModel] reads the configuration, updates its
    model and provider, then logs a [model_switch] activity that names the
    previous model ([unknown] when there is no configuration); it answers
    [success: true] with the previous and the new model. *)
Theorem switchModel_switches w provider model st :
  In provider (w_providers w) ->
  w_queryFailure w (trace st) QAgentConfig = None ->
  w_mutationFailure w (trace st ++ [EvRunQuery QAgentConfig])
    (switchUpdate provider model) = None ->
  w_mutationFailure w
    (trace st ++ [EvRunQuery QAgentConfig; EvRunMutation (switchUpdate provider model) None])
    (switchEntry (db st) provider model) = None ->
  exists message,
    switchModel w provider model st
    = (inr (mkSwitchResult true message (Some (previousModelOf (db st))) (Some model)),
       mkState (trace st ++ switchEvents (db st) provider model)
         (applyMutation (switchEntry (db st) provider model)
            (applyMutation (switchUpdate provider model) (db st)))).
Proof.
  intros Hp Hq Hu He. destruct st as [tr d].
  destruct (find_provider_some _ _ Hp) as [p Hfind].
  unfold switchModel, getConfig, runQuery, runMutation, switchEvents, switchEntry,
    switchUpdate, previousModelOf in *.
  cbn [trace db] in *. eff_red. rewrite Hq. eff_red. rewrite Hfind. eff_red.
  rewrite Hu. eff_red. rewrite <- ?app_assoc. cbn [app]. rewrite He. eff_red.
  rewrite <- ?app_assoc. cbn [app]. eexists. reflexivity.
Qed.

(** A mutation that went through. *)
Definition wroteActivity (e : event) : bool :=
  match e with EvRunMutation (MutActivityLog _) None => true | _ => false end.

(** X10.  [switchModel] never throws.  It answers [success: true] only when
    the provider is an available one and the whole sequence of the successful
    path was carried out; an answer [success: false] means that no activity
    was logged, and it names no previous and no new model. *)
Theorem switchModel_outcome w provider model st :
  exists r new d',
    switchModel w provider model st = (inr r, mkState (trace st ++ new) d')
    /\ (sw_success r = true ->
        In provider (w_providers w)
        /\ new = switchEvents (db st) provider model
        /\ sw_newModel r = Some model)
    /\ (sw_success r = false ->
        existsb wroteActivity new = false
        /\ sw_previousModel r = None /\ sw_newModel r = None).
Proof.
  destruct st as [tr d].
  unfold switchModel, getConfig, runQuery, runMutation, switchEvents, switchEntry,
    switchUpdate, previousModelOf.
  cbn [trace db]. eff_red.
  destruct (w_queryFailure w tr QAgentConfig); eff_red.
  { eexists _, _, _. rewrite <- ?app_assoc. split; [reflexivity|]. by split. }
  destruct (find _ (w_providers w)) as [p|] eqn:Hfind; eff_red.
  2: { eexists _, _, _. split; [reflexivity|]. by split. }
  apply find_provider_In in Hfind.
  destruct (w_mutationFailure w _ (MutAgentConfigUpdate model provider)); eff_red.
  { eexists _, _, _. rewrite <- ?app_assoc. cbn [app].
    split; [reflexivity|]. by split. }
  rewrite <- ?app_assoc. cbn [app].
  destruct (w_mutationFailure w _ (MutActivityLog _)); eff_red.
  - eexists _, _, _. rewrite <- ?app_assoc. cbn [app].
    split; [reflexivity|]. by split.
  - eexists _, _, _. rewrite <- ?app_assoc. cbn [app].
    split; [reflexivity|]. by split.
Qed.

(** ** What a computation returns *)

(** [post φ m]: whenever [m] returns, [φ] holds of its value and of the
    state it returns in. *)
Definition post {A : Type} (φ : A -> State -> Prop) (m : Eff A) : Prop :=
  forall st v st', m st = (inr v, st') -> φ v st'.

Lemma post_ret {A} (φ : A -> State -> Prop) a : (forall st, φ a st) -> post φ (ret a).
Proof. intros H st v st' E. injection E as <- <-. apply H. Qed.

Lemma post_throw {A} (φ : A -> State -> Prop) e : post φ (throw e).
Proof. intros st v st' E. discriminate E. Qed.

Lemma post_bind_gen {A B} (ψ : A -> State -> Prop) (φ : B -> State -> Prop)
    (m : Eff A) (k : A -> Eff B) :
  post ψ m ->
  (forall x st1 v st', ψ x st1 -> k x st1 = (inr v, st') -> φ v st') ->
  post φ (bind m k).
Proof.
  intros Hm Hk st v st' E. unfold bind in E.
  destruct (m st) as [[e|x] st1] eqn:Em; [discriminate|].
  exact (Hk x st1 v st' (Hm _ _ _ Em) E).
Qed.

Lemma post_bind {A B} (φ : B -> State -> Prop) (m : Eff A) (k : A -> Eff B) :
  (forall x, post φ (k x)) -> post φ (bind m k).
Proof.
  intros Hk. apply (post_bind_gen (fun _ _ => True)); [done|].
  intros x st1 v st' _. apply Hk.
Qed.

Lemma post_bind_value {A B} (ψ : A -> Prop) (φ : B -> State -> Prop)
    (m : Eff A) (k : A -> Eff B) :
  post (fun x _ => ψ x) m ->
  (forall x, ψ x -> post φ (k x)) ->
  post φ (bind m k).
Proof.
  intros Hm Hk. apply (post_bind_gen (fun x _ => ψ x)); [exact Hm|].
  intros x st1 v st' Hx. by apply Hk.
Qed.

Lemma post_tryCatch {A} (φ : A -> State -> Prop) (m : Eff A) (h : Exn -> Eff A) :
  post φ m -> (forall e, post φ (h e)) -> post φ (tryCatch m h).
Proof.
  intros Hm Hh st v st' E. unfold tryCatch in E.
  destruct (m st) as [[e|x] st1] eqn:Em.
  - exact (Hh e _ _ _ E).
  - injection E as <- <-. exact (Hm _ _ _ Em).
Qed.

Lemma post_mono {A} (φ ψ : A -> State -> Prop) (m : Eff A) :
  post φ m -> (forall v st, φ v st -> ψ v st) -> post ψ m.
Proof. intros H Hi st v st' E. apply Hi, (H _ _ _ E). Qed.

(** A mutation that went through is the last event. *)
Lemma post_runMutation_ret {A} w m (r : A) :
  post (fun v st' => v = r /\ last (trace st') = Some (EvRunMutation m None))
       (runMutation w m ;; ret r).
Proof.
  intros [tr d] v st' E. unfold runMutation in E. eff_red_all.
  destruct (w_mutationFailure w tr m); eff_red_all; [discriminate|].
  injection E as <- <-. split; [done|]. cbn [trace]. apply last_snoc.
Qed.

(** ** The chat action: what an answer looks like *)

Definition chatActivity (args : SendArgs) : Mutation :=
  MutActivityLog (mkActivity "chat_message" (logSummary args) "private").

(** A result that carries a response. *)
Definition answered (args : SendArgs) (r : SendResult) (st' : State) : Prop :=
  res_error r = None
  /\ is_Some (res_response r)
  /\ is_Some (res_threadId r)
  /\ (forall t, provided (send_threadId args) = Some t -> res_threadId r = Some t)
  /\ last (trace st') = Some (EvRunMutation (chatActivity args) None).

Lemma withAttachments_post w args attachments threadId :
  (forall t, provided (send_threadId args) = Some t -> threadId = t) ->
  post (fun early st' =>
          match early with
          | inl r => answered args r st'
          | inr _ => True
          end)
       (withAttachments w args attachments threadId).
Proof.
  intros Ht. unfold withAttachments.
  apply post_bind; intros pdfTexts.
  apply post_bind; intros modelConfig.
  destruct (existsb _ visionModelTokens); [|by apply post_ret].
  apply post_bind; intros r.
  destruct (snd r && Nat.ltb 0 (length (fst r))); [|by apply post_ret].
  apply post_bind; intros _.
  apply post_bind; intros responseText.
  apply post_bind; intros _.
  apply post_bind; intros _.
  eapply post_mono; [apply post_runMutation_ret|].
  intros v st' [-> Hl]. unfold answered. cbn.
  repeat split; eauto. intros t Hp. by rewrite (Ht t Hp).
Qed.

Lemma respond_post w args : post (answered args) (respond w args).
Proof.
  unfold respond.
  apply post_bind; intros _.
  apply post_bind; intros agent.
  apply (post_bind_value
           (fun threadId => forall t, provided (send_threadId args) = Some t -> threadId = t)).
  { destruct (provided (send_threadId args)) as [t|].
    - apply post_bind; intros _. apply post_ret. intros _ t' E. by injection E.
    - intros st v st' _ t E. discriminate E. }
  intros threadId Ht.
  apply post_bind; intros config.
  apply post_bind; intros tools.
  eapply post_bind_gen.
  { instantiate (1 := fun early st' =>
                        match early with inl r => answered args r st' | inr _ => True end).
    destruct (send_attachments args) as [[|a rest]|];
      [by apply post_ret | by apply withAttachments_post | by apply post_ret]. }
  intros [r|prompt] st1 v st' He E.
  - injection E as <- <-. exact He.
  - clear He.
    match type of E with
    | ?k st1 = _ => assert (Hpost : post (answered args) k); [|exact (Hpost _ _ _ E)]
    end.
    apply post_bind; intros result.
    eapply post_mono; [apply post_runMutation_ret|].
    intros r st2 [-> Hl]. unfold answered. cbn.
    repeat split; eauto. intros t Hp. by rewrite (Ht t Hp).
Qed.

(** X12.  Once both rate-limit checks have passed, [chat.send] does not
    throw.  Its result carries either an error or a response, never both: an
    error comes with the [threadId] the caller gave and nothing else; a
    response comes with a thread identifier, which is the caller's when one
    was given, and the last thing done before answering was to log the
    [chat_message] activity. *)
Theorem send_outcome w args st :
  w_rateLimit w (trace st) "publicChat" (send_sessionId args) = true ->
  w_rateLimit w (trace st ++ [EvRateLimit "publicChat" (send_sessionId args) true])
    "globalMessages" "global" = true ->
  exists r st',
    send w args st = (inr r, st')
    /\ match res_error r with
       | Some _ =>
           res_response r = None
           /\ res_threadId r = send_threadId args
           /\ res_toolCalls r = None
       | None => answered args r st'
       end.
Proof.
  intros H1 H2. destruct st as [tr d]. cbn [trace] in *.
  unfold send, rateLimit, failure. eff_red.
  rewrite H1. cbn [negb]. eff_red. rewrite H2. cbn [negb]. eff_red.
  destruct (Nat.ltb MAX_MESSAGE_LENGTH (String.length (send_message args)));
    eff_red; [by eexists _, _|].
  match goal with
  | |- context [respond w args ?s] =>
      destruct (respond w args s) as [[e|r] st1] eqn:E
  end.
  - by eexists _, _.
  - exists r, st1. split; [reflexivity|].
    destruct (respond_post w args _ _ _ E) as (He & Hrest).
    rewrite He. by split.
Qed.

(** X11.  A message of more than 4000 characters is refused after the two
    rate-limit checks have passed (and counted): the answer is an error with
    the caller's [threadId], and nothing else was done. *)
Theorem send_too_long w args st :
  w_rateLimit w (trace st) "publicChat" (send_sessionId args) = true ->
  w_rateLimit w (trace st ++ [EvRateLimit "publicChat" (send_sessionId args) true])
    "globalMessages" "global" = true ->
  (MAX_MESSAGE_LENGTH < String.length (send_message args))%nat ->
  send w args st
  = (inr (mkSendResult None (Some "Message too long. Maximum 4000 characters.")
            (send_threadId args) None),
     mkState (trace st ++ [EvRateLimit "publicChat" (send_sessionId args) true;
                           EvRateLimit "globalMessages" "global" true]) (db st)).
Proof.
  intros H1 H2 Hl. destruct st as [tr d]. cbn [trace db] in *.
  unfold send, rateLimit, failure. eff_red.
  rewrite H1. cbn [negb]. eff_red. rewrite H2. cbn [negb]. eff_red.
  apply Nat.ltb_lt in Hl. rewrite Hl. by rewrite <- app_assoc.
Qed.

(** ** The dynamic agent: whose tools it gets *)

(** The agent whose assignments scope the tools of the agent that
    [createDynamicAgent] builds: the one asked for when it has a record, else
    the default agent when there is one, else none (the legacy mode). *)
Definition toolScope (w : World) (agentId : option string) : option string :=
  let fallback := option_map agr_id (c_agentsGetDefault (w_chat w)) in
  match givenAgent agentId with
  | Some a =>
      match c_agentsGetInternal (w_chat w) a with
      | Some _ => Some a
      | None => fallback
      end
  | None => fallback
  end.

(** The tool sets that [loadTools] can return for a scope. *)
Definition loadedFor (w : World) (scope : option string) (ts : ToolSet) : Prop :=
  exists st1 st2, loadTools w scope st1 = (inr ts, st2).

Lemma loadTools_post w scope : post (fun ts _ => loadedFor w scope ts) (loadTools w scope).
Proof. intros st ts st' E. by exists st, st'. Qed.

Lemma buildAgentFromConfig_post w record a :
  post (fun agent _ => agent_name agent = agr_name record
                       /\ loadedFor w (Some a) (agent_tools agent))
       (buildAgentFromConfig w record a).
Proof.
  unfold buildAgentFromConfig.
  apply post_bind; intros _.
  apply (post_bind_value (loadedFor w (Some a))); [apply loadTools_post|].
  intros tools Ht.
  apply post_bind; intros instructions.
  unfold newAgent. apply post_bind; intros _. by apply post_ret.
Qed.

(** X13.  The tools of the agent built by [createDynamicAgent] are a tool set
    loaded for one scope: the agent asked for when it has a record, otherwise
    the default agent when there is one, otherwise no agent at all; in that
    last case the agent is the one named [ClawSync Agent]. *)
Theorem createDynamicAgent_tools w agentId st agent st' :
  createDynamicAgent w agentId st = (inr agent, st') ->
  loadedFor w (toolScope w agentId) (agent_tools agent)
  /\ (toolScope w agentId = None -> agent_name agent = "ClawSync Agent").
Proof.
  revert st agent st'.
  change (post (fun agent _ =>
                  loadedFor w (toolScope w agentId) (agent_tools agent)
                  /\ (toolScope w agentId = None -> agent_name agent = "ClawSync Agent"))
               (createDynamicAgent w agentId)).
  set (fallback := option_map agr_id (c_agentsGetDefault (w_chat w))).
  unfold createDynamicAgent.
  apply (post_bind_value
           (fun configured : option Agent =>
              match configured with
              | Some agent =>
                  loadedFor w (toolScope w agentId) (agent_tools agent)
                  /\ is_Some (toolScope w agentId)
              | None => toolScope w agentId = fallback
              end)).
  - unfold toolScope. fold fallback.
    destruct (givenAgent agentId) as [a|]; [|by apply post_ret].
    apply post_bind; intros _.
    destruct (c_agentsGetInternal (w_chat w) a) as [record|]; [|by apply post_ret].
    eapply post_bind_gen; [apply buildAgentFromConfig_post|].
    intros agent st1 v st2 [_ Ht] E. injection E as <- <-. by split.
  - intros [agent|] Hc.
    + apply post_ret. intros _. destruct Hc as [Ht [x Hx]].
      split; [exact Ht|]. rewrite Hx. discriminate.
    + rewrite Hc. subst fallback.
      apply post_bind; intros _.
      destruct (c_agentsGetDefault (w_chat w)) as [record|]; cbn [option_map].
      * eapply post_mono; [apply buildAgentFromConfig_post|].
        intros agent _ [_ Ht]. by split.
      * apply post_bind; intros _.
        apply (post_bind_value (loadedFor w None)); [apply loadTools_post|].
        intros tools Ht. unfold newAgent. apply post_bind; intros _. by apply post_ret.
Qed.

(** ** The streaming action (chat.ts, lines 347-390) *)

Record StreamArgs : Type := mkStreamArgs {
  stream_threadId : option string;
  stream_message : string;
  stream_sessionId : string;
}.

Definition RATE_LIMIT_ERROR : Exn := mkExn "Error" "Rate limit exceeded".

(** The handler of [stream]; the result is the response and the thread
    identifier. *)
Definition stream (w : World) (args : StreamArgs) : Eff (string * string) :=
  ok <- rateLimit w "publicChat" (stream_sessionId args) ;;
  if negb ok then throw RATE_LIMIT_ERROR
  else
    agent <- createDynamicAgent w None ;;
    threadId <-
      match provided (stream_threadId args) with
      | Some t => continueThread w t ;; ret t
      | None => createThread w
      end ;;
    result <- threadGenerateText w (stream_message args) false ;;
    ret (gen_text result, threadId).

(** X14.  [stream] checks the per-session rate limit first and, unlike
    [send], throws when it fails: nothing else has been done by then.  When it
    returns, the thread identifier of the result is the caller's when one was
    given, and the last thing done was the generation on the message, without
    tools. *)
Theorem stream_outcome w args st :
  (w_rateLimit w (trace st) "publicChat" (stream_sessionId args) = false ->
   stream w args st
   = (inl RATE_LIMIT_ERROR,
      mkState (trace st ++ [EvRateLimit "publicChat" (stream_sessionId args) false])
        (db st)))
  /\ (forall response threadId st',
        stream w args st = (inr (response, threadId), st') ->
        w_rateLimit w (trace st) "publicChat" (stream_sessionId args) = true
        /\ (forall t, provided (stream_threadId args) = Some t -> threadId = t)
        /\ last (trace st') = Some (EvThreadGenerateText (stream_message args) false)).
Proof.
  split.
  - intros H. destruct st as [tr d]. cbn [trace db] in *.
    unfold stream, rateLimit. eff_red. by rewrite H.
  - intros response threadId st' E.
    destruct (w_rateLimit w (trace st) "publicChat" (stream_sessionId args)) eqn:Hr.
    + split; [done|]. revert E.
      assert (Hpost : post (fun v st' =>
                              (forall t, provided (stream_threadId args) = Some t -> snd v = t)
                              /\ last (trace st')
                                 = Some (EvThreadGenerateText (stream_message args) false))
                           (stream w args)).
      { unfold stream. apply post_bind; intros ok.
        destruct (negb ok); [apply post_throw|].
        apply post_bind; intros agent.
        apply (post_bind_value
                 (fun threadId =>
                    forall t, provided (stream_threadId args) = Some t -> threadId = t)).
        { destruct (provided (stream_threadId args)) as [t|].
          - apply post_bind; intros _. apply post_ret. intros _ t' Et. by injection Et.
          - intros s v s' _ t Et. discriminate Et. }
        intros tid Ht. unfold threadGenerateText.
        intros [tr d] v s' Eg. eff_red_all.
        destruct (c_generateText (w_chat w) tr (stream_message args)); eff_red_all;
          [discriminate|].
        injection Eg as <- <-. split; [exact Ht|]. cbn [trace]. apply last_snoc. }
      intros E. exact (Hpost _ _ _ E).
    + exfalso. destruct st as [tr d]. cbn [trace db] in *.
      unfold stream, rateLimit in E. eff_red_all. rewrite Hr in E. discriminate E.
Qed.

(** ** The generate_image tool (toolLoader.ts, lines 1238-1329) *)

Record ImageArgs : Type := mkImageArgs {
  img_prompt : string;
  img_size : option string;
  img_quality : option string;
}.

Definition IMAGE_ENDPOINT : string := "https://api.openai.com/v1/images/generations".

Definition NO_IMAGE_KEY : string :=
  "OPENAI_API_KEY environment variable is not configured. "
  +:+ "Please set it in the Convex dashboard to use image generation.".

Definition INVALID_IMAGE_RESPONSE : string :=
  "Image generation returned an invalid response. Please try again.".

(** [s || d] for an optional string. *)
Definition orDefault (s : option string) (d : string) : string :=
  match s with
  | Some x => if JsString.truthy x then x else d
  | None => d
  end.

(** [v[0]] for a truthy [v]: the first element of an array, the first
    character of a string, the property [0] of an object. *)
Definition index0 (v : json) : Js.value :=
  match v with
  | JArr (x :: _) => Some x
  | JStr (String c _) => Some (JStr (String c EmptyString))
  | JObj fs => Js.field "0" fs
  | _ => None
  end.

Definition imageSize (args : ImageArgs) : string := orDefault (img_size args) "1024x1024".

Definition imageQuality (args : ImageArgs) : string :=
  orDefault (img_quality args) "standard".

Definition imageRequest (apiKey : string) (args : ImageArgs) : Request :=
  mkRequest IMAGE_ENDPOINT "POST"
    [("Content-Type", "application/json"); ("Authorization", "Bearer " +:+ apiKey)]
    (Some (BodyJson (JObj [("model", JStr "dall-e-3");
                           ("prompt", JStr (img_prompt args));
                           ("n", JNum 1);
                           ("size", JStr (imageSize args));
                           ("quality", JStr (imageQuality args));
                           ("response_format", JStr "url")])))
    false.

Section ImageTool.

Variable w : World.

(** The string a template literal makes of a value. *)
Variable text : json -> string.

(** Lines 1291-1298: the answer to a response that is not [ok]. *)
Definition imageApiError (response : Response) : Eff json :=
  let errorData :=
    match w_jsonParse w (resp_text response) with
    | inr d => d
    | inl _ => JObj []
    end in
  error <- lift (Js.prop "error" (Some errorData)) ;;
  let errorMessage :=
    match Js.optProp "message" error with
    | Some m =>
        if Js.truthy (Some m) then text m
        else "HTTP " +:+ showZ (resp_status response) +:+ ": " +:+ resp_statusText response
    | None =>
        "HTTP " +:+ showZ (resp_status response) +:+ ": " +:+ resp_statusText response
    end in
  consoleError "[ImageGen] API error: ${errorMessage}" [LStr errorMessage] ;;
  ret (errorObject ("Image generation failed: " +:+ errorMessage)).

(** [data.data[0]] and its [url], when all three are truthy. *)
Definition imageItem (data : json) : Exn + option (json * json) :=
  match Js.prop "data" (Some data) with
  | inl e => inl e
  | inr list =>
      if negb (Js.truthy list) then inr None
      else
        match list with
        | Some l =>
            let item := index0 l in
            if negb (Js.truthy item) then inr None
            else
              let url := Js.optProp "url" item in
              match url with
              | Some u => if Js.truthy url then inr (Some (default JNull item, u)) else inr None
              | None => inr None
              end
        | None => inr None
        end
  end.

Definition imageSuccess (item imageUrl : json) : json :=
  let revisedPrompt := Js.optProp "revised_prompt" (Some item) in
  JObj ([("success", JBool true); ("imageUrl", imageUrl)]
        ++ match revisedPrompt with
           | Some r => [("revisedPrompt", r)]
           | None => []
           end
        ++ [("message",
             JStr ("Image generated successfully!" +:+ nl +:+ nl +:+ "URL: " +:+ text imageUrl
                   +:+ (if Js.truthy revisedPrompt
                        then nl +:+ nl +:+ "Revised prompt: " +:+ dquote
                             +:+ text (default JNull revisedPrompt) +:+ dquote
                        else "")))]).

(** The handler of the tool made by [createGenerateImageTool]. *)
Definition imageHandler (args : ImageArgs) : Eff json :=
  match provided (w_env w "OPENAI_API_KEY") with
  | None => ret (errorObject NO_IMAGE_KEY)
  | Some apiKey =>
      tryCatch
        (consoleLog "[ImageGen] Generating image with size=${size}, quality=${quality}"
           [LStr (imageSize args); LStr (imageQuality args)] ;;
         response <- fetch w (imageRequest apiKey args) ;;
         if negb (resp_ok response) then imageApiError response
         else
           data <- jsonParse w (resp_text response) ;;
           found <- lift (imageItem data) ;;
           match found with
           | None =>
               consoleError "[ImageGen] Invalid response structure:" [LJson data] ;;
               ret (errorObject INVALID_IMAGE_RESPONSE)
           | Some (item, imageUrl) =>
               consoleLog "[ImageGen] Successfully generated image" [] ;;
               ret (imageSuccess item imageUrl)
           end)
        (fun error =>
           let errorMessage := exn_message error in
           consoleError "[ImageGen] Error:" [LStr errorMessage] ;;
           ret (errorObject ("Image generation failed: " +:+ errorMessage)))
  end.

End ImageTool.

(** What the handler writes before the request. *)
Definition imagePrelude (args : ImageArgs) : list event :=
  [EvConsole "log" "[ImageGen] Generating image with size=${size}, quality=${quality}"
     [LStr (imageSize args); LStr (imageQuality args)]].

Definition IMAGE_FAILED : string := "Image generation failed: ".

(** X15.  The generate_image handler never throws and writes to no table.
    Without a non-empty [OPENAI_API_KEY] it answers an error and does nothing
    else.  With one it sends exactly one request: a POST to the image
    endpoint that carries the key as a bearer token.  When the response is
    [ok], parses, and holds a truthy [data[0].url], the answer is the success
    object for that item and URL; in every other case it is an error object:
    the message of what was thrown, the message for a response that holds no
    image, or the error of the API. *)
Theorem image_outcome w text args st :
  exists v new,
    imageHandler w text args st = (inr v, mkState (trace st ++ new) (db st))
    /\ match provided (w_env w "OPENAI_API_KEY") with
       | None => new = [] /\ v = errorObject NO_IMAGE_KEY
       | Some key =>
           requestsOf new = [imageRequest key args]
           /\ req_method (imageRequest key args) = "POST"
           /\ req_url (imageRequest key args) = IMAGE_ENDPOINT
           /\ headerGet "Authorization" (req_headers (imageRequest key args))
              = Some ("Bearer " +:+ key)
           /\ match w_fetch w (trace st ++ imagePrelude args) (imageRequest key args) with
              | inl e => v = errorObject (IMAGE_FAILED +:+ exn_message e)
              | inr response =>
                  if resp_ok response then
                    match w_jsonParse w (resp_text response) with
                    | inl e => v = errorObject (IMAGE_FAILED +:+ exn_message e)
                    | inr data =>
                        match imageItem data with
                        | inl e => v = errorObject (IMAGE_FAILED +:+ exn_message e)
                        | inr None => v = errorObject INVALID_IMAGE_RESPONSE
                        | inr (Some (item, url)) => v = imageSuccess text item url
                        end
                    end
                  else exists msg, v = errorObject (IMAGE_FAILED +:+ msg)
              end
       end.
Proof.
  destruct st as [tr d]. unfold imageHandler.
  destruct (provided (w_env w "OPENAI_API_KEY")) as [key|].
  2: { exists (errorObject NO_IMAGE_KEY), []. by rewrite app_nil_r. }
  assert (Hrq : req_method (imageRequest key args) = "POST"
                /\ req_url (imageRequest key args) = IMAGE_ENDPOINT
                /\ headerGet "Authorization" (req_headers (imageRequest key args))
                   = Some ("Bearer " +:+ key)) by (repeat split; reflexivity).
  destruct Hrq as (R1 & R2 & R3). rewrite R1, R2, R3.
  set (rq := imageRequest key args). clearbody rq.
  unfold fetch, jsonParse, imageApiError, imagePrelude, IMAGE_FAILED. eff_red.
  destruct (w_fetch w _ rq) as [e|response] eqn:Ef; eff_red.
  { eexists _, _. rewrite <- ?app_assoc. cbn [app]. split; [reflexivity|].
    repeat split; eauto. }
  destruct (resp_ok response) eqn:Eok; cbn [negb]; eff_red.
  - destruct (w_jsonParse w (resp_text response)) as [e|data] eqn:Ep; eff_red.
    { eexists _, _. rewrite <- ?app_assoc. cbn [app]. split; [reflexivity|].
      repeat split; eauto. }
    destruct (imageItem data) as [e|[[item url]|]] eqn:Ei; eff_red.
    + eexists _, _. rewrite <- ?app_assoc. cbn [app]. split; [reflexivity|].
      repeat split; eauto.
    + eexists _, _. rewrite <- ?app_assoc. cbn [app]. split; [reflexivity|].
      repeat split; reflexivity.
    + eexists _, _. rewrite <- ?app_assoc. cbn [app]. split; [reflexivity|].
      repeat split; eauto.
  - destruct (Js.prop "error" _) as [e|error]; eff_red.
    + eexists _, _. rewrite <- ?app_assoc. cbn [app]. split; [reflexivity|].
      repeat split; eauto.
    + eexists _, _. rewrite <- ?app_assoc. cbn [app]. split; [reflexivity|].
      repeat split; eauto.
Qed.

(** * File uploads (convex/fileUploads.ts) *)

Module FileUploads.

(** A document of the [fileUploads] table; [file_id] is its [_id]. *)
Record FileDoc : Type := mkFile {
  file_id : nat;
  file_uploadToken : string;
  file_fileType : string;
  file_fileName : option string;
  file_uploadedAt : Z;
  file_status : string;
  file_storageId : option string;
  file_updatedAt : option Z;
}.

(** The table, in the order of creation, which is the order of every index
    among the documents that agree on the indexed field; the identifier the
    next document gets; the blobs deleted from the file storage so far. *)
Record Uploads : Type := mkUploads {
  files : list FileDoc;
  nextId : nat;
  deleted : list string;
}.

(** The file storage: [ctx.storage.generateUploadUrl()],
    [ctx.storage.getUrl(id)], and whether [ctx.storage.delete(id)] throws. *)
Record Storage : Type := mkStorage {
  s_generateUploadUrl : Exn + string;
  s_getUrl : string -> Exn + option string;
  s_deleteFailure : string -> option Exn;
}.

(** ** [uploadUrl.match(/token=([^&]+)/)] *)

Definition ampersand : ascii := "&"%char.

(** The longest prefix without [&]. *)
Fixpoint untilAmpersand (s : string) : string :=
  match s with
  | EmptyString => EmptyString
  | String c s' => if Ascii.eqb c ampersand then EmptyString else String c (untilAmpersand s')
  end.

(** The pattern anchored at the start of [s]: the captured group. *)
Definition tokenAt (s : string) : option string :=
  if JsString.startsWith "token=" s then
    match untilAmpersand (JsString.drop 6 s) with
    | EmptyString => None
    | t => Some t
    end
  else None.

(** The group of the leftmost match. *)
Fixpoint tokenMatch (s : string) : option string :=
  match tokenAt s with
  | Some t => Some t
  | None =>
      match s with
      | EmptyString => None
      | String _ s' => tokenMatch s'
      end
  end.

(** [tokenMatch ? tokenMatch[1] : uploadUrl] *)
Definition uploadTokenOf (uploadUrl : string) : string :=
  default uploadUrl (tokenMatch uploadUrl).

(** ** The table *)

(** [.withIndex('by_token', q => q.eq('uploadToken', t)).first()] *)
Definition byToken (t : string) (fs : list FileDoc) : option FileDoc :=
  find (fun f => String.eqb (file_uploadToken f) t) fs.

(** [.withIndex('by_storage', q => q.eq('storageId', id)).first()] *)
Definition byStorage (id : string) (fs : list FileDoc) : option FileDoc :=
  find (fun f => match file_storageId f with
                 | Some s => String.eqb s id
                 | None => false
                 end) fs.

(** [ctx.db.patch(id, { status: 'complete', updatedAt, storageId? })] *)
Definition complete (id : nat) (now : Z) (storageId : option string) (fs : list FileDoc)
    : list FileDoc :=
  map (fun f =>
         if Nat.eqb (file_id f) id then
           mkFile (file_id f) (file_uploadToken f) (file_fileType f) (file_fileName f)
             (file_uploadedAt f) "complete"
             (match provided storageId with
              | Some s => Some s
              | None => file_storageId f
              end)
             (Some now)
         else f) fs.

(** [ctx.db.delete(id)] *)
Definition deleteDoc (id : nat) (fs : list FileDoc) : list FileDoc :=
  filter (fun f => file_id f <> id) fs.

(** ** The mutations

    A mutation is a transaction: when it throws, nothing is written. *)

Section Mutations.

Variable storage : Storage.

(** [generateUploadUrl({ fileType, fileName })] at the time [now]. *)
Definition generateUploadUrl (now : Z) (fileType : string) (fileName : option string)
    (u : Uploads) : Exn + ((string * string) * Uploads) :=
  match s_generateUploadUrl storage with
  | inl e => inl e
  | inr uploadUrl =>
      let uploadToken := uploadTokenOf uploadUrl in
      inr ((uploadUrl, uploadToken),
           mkUploads
             (files u ++ [mkFile (nextId u) uploadToken fileType fileName now "pending"
                            None None])
             (S (nextId u)) (deleted u))
  end.

(** [markComplete({ uploadToken, storageId })] at the time [now]. *)
Definition markComplete (now : Z) (uploadToken : string) (storageId : option string)
    (u : Uploads) : Uploads :=
  match byToken uploadToken (files u) with
  | Some file => mkUploads (complete (file_id file) now storageId (files u))
                   (nextId u) (deleted u)
  | None => u
  end.

(** [ctx.storage.getUrl(id)] under [try], [null] on a throw. *)
Definition urlOrNull (storageId : string) : option string :=
  match s_getUrl storage storageId with
  | inr url => url
  | inl _ => None
  end.

(** [getFileUrlByToken({ uploadToken })] *)
Definition getFileUrlByToken (uploadToken : string) (u : Uploads) : option string :=
  match byToken uploadToken (files u) with
  | Some file =>
      match provided (file_storageId file) with
      | Some storageId => urlOrNull storageId
      | None => None
      end
  | None => None
  end.

(** [getFileUrl({ storageId })] *)
Definition getFileUrl (storageId : string) : option string := urlOrNull storageId.

(** [getMetadata({ storageId })] *)
Definition getMetadata (storageId : string) (u : Uploads) : option FileDoc :=
  byStorage storageId (files u).

(** [remove({ storageId })] *)
Definition remove (storageId : string) (u : Uploads) : Exn + Uploads :=
  match s_deleteFailure storage storageId with
  | Some e => inl e
  | None =>
      let fs := match byStorage storageId (files u) with
                | Some file => deleteDoc (file_id file) (files u)
                | None => files u
                end in
      inr (mkUploads fs (nextId u) (deleted u ++ [storageId]))
  end.

Definition ONE_HOUR : Z := 60 * 60 * 1000.

Definition CLEANUP_BATCH : nat := 100.

(** The filter of [cleanupPending]: a pending upload older than an hour. *)
Definition stale (now : Z) (f : FileDoc) : bool :=
  String.eqb (file_status f) "pending" && (file_uploadedAt f <? now - ONE_HOUR).

(** The body of the loop over [pendingFiles]. *)
Definition cleanFile (u : Uploads) (file : FileDoc) : Uploads :=
  let deleted' :=
    match provided (file_storageId file) with
    | Some storageId =>
        match s_deleteFailure storage storageId with
        | Some _ => deleted u
        | None => deleted u ++ [storageId]
        end
    | None => deleted u
    end in
  mkUploads (deleteDoc (file_id file) (files u)) (nextId u) deleted'.

(** [cleanupPending()] at the time [now]: the state and [cleaned]. *)
Definition cleanupPending (now : Z) (u : Uploads) : nat * Uploads :=
  let pendingFiles := take CLEANUP_BATCH (List.filter (stale now) (files u)) in
  (length pendingFiles, fold_left cleanFile pendingFiles u).

End Mutations.

(** ** The upload token *)

Fixpoint hasAmpersand (s : string) : bool :=
  match s with
  | EmptyString => false
  | String c s' => Ascii.eqb c ampersand || hasAmpersand s'
  end.

Lemma untilAmpersand_clean s : hasAmpersand (untilAmpersand s) = false.
Proof.
  induction s as [|c s IH]; [done|].
  cbn [untilAmpersand]. destruct (Ascii.eqb c ampersand) eqn:E; [done|].
  cbn [hasAmpersand]. by rewrite E, IH.
Qed.

Lemma startsWith_app p s : JsString.startsWith p (p +:+ s) = true.
Proof.
  induction p as [|c p IH]; [by destruct s|].
  change (String c p +:+ s) with (String c (p +:+ s)).
  cbn [JsString.startsWith]. by rewrite Ascii.eqb_refl.
Qed.

Lemma includes_here p s : JsString.startsWith p s = true -> JsString.includes p s = true.
Proof. intros H. destruct s; cbn [JsString.includes]; by rewrite H. Qed.

Lemma includes_later p c s : JsString.includes p s = true -> JsString.includes p (String c s) = true.
Proof. intros H. cbn [JsString.includes]. fold (JsString.includes p s). rewrite H. apply orb_true_r. Qed.

Lemma startsWith_trans p q s :
  JsString.startsWith q s = true -> JsString.startsWith p q = true ->
  JsString.startsWith p s = true.
Proof.
  revert q s. induction p as [|a p IH]; intros q s Hq Hp; [by destruct s|].
  destruct q as [|b q]; [done|]. destruct s as [|c s]; [done|].
  cbn [JsString.startsWith] in *.
  destruct (Ascii.eqb a b) eqn:E1; [|done]. destruct (Ascii.eqb b c) eqn:E2; [|done].
  apply Ascii.eqb_eq in E1, E2. subst. rewrite Ascii.eqb_refl. by apply (IH q).
Qed.

Lemma untilAmpersand_prefix s : JsString.startsWith (untilAmpersand s) s = true.
Proof.
  induction s as [|c s IH]; [done|].
  cbn [untilAmpersand]. destruct (Ascii.eqb c ampersand); [done|].
  cbn [JsString.startsWith]. by rewrite Ascii.eqb_refl.
Qed.

Lemma startsWith_drop p s t :
  JsString.startsWith p s = true ->
  JsString.startsWith t (JsString.drop (String.length p) s) = true ->
  JsString.startsWith (p +:+ t) s = true.
Proof.
  revert s. induction p as [|a p IH]; intros s Hp Ht; [by destruct s|].
  destruct s as [|c s]; [done|].
  change (String a p +:+ t) with (String a (p +:+ t)).
  cbn [JsString.startsWith String.length JsString.drop] in *.
  destruct (Ascii.eqb a c); [|done]. by apply IH.
Qed.

Lemma tokenAt_spec s t :
  tokenAt s = Some t ->
  t <> "" /\ hasAmpersand t = false /\ JsString.startsWith ("token=" +:+ t) s = true.
Proof.
  unfold tokenAt. destruct (JsString.startsWith "token=" s) eqn:Hs; [|done].
  pose proof (untilAmpersand_clean (JsString.drop 6 s)) as Hc.
  pose proof (untilAmpersand_prefix (JsString.drop 6 s)) as Hp.
  destruct (untilAmpersand (JsString.drop 6 s)) as [|c r]; [done|].
  intros E. injection E as <-. split; [done|]. split; [exact Hc|].
  by apply (startsWith_drop "token=").
Qed.

(** X16.  The upload token is the text that follows the first [token=] of
    the upload URL that is followed by something other than [&], up to the
    next [&]: it is not empty, holds no [&], and [token=] followed by it
    occurs in the URL.  A URL without such a place is its own token. *)
Theorem uploadToken_spec uploadUrl :
  match tokenMatch uploadUrl with
  | Some t =>
      uploadTokenOf uploadUrl = t
      /\ t <> ""
      /\ hasAmpersand t = false
      /\ JsString.includes ("token=" +:+ t) uploadUrl = true
  | None => uploadTokenOf uploadUrl = uploadUrl
  end.
Proof.
  unfold uploadTokenOf.
  destruct (tokenMatch uploadUrl) as [t|] eqn:E; [|done].
  split; [done|]. revert E.
  induction uploadUrl as [|c s IH].
  - cbn. done.
  - cbn [tokenMatch]. destruct (tokenAt (String c s)) as [t'|] eqn:Ea.
    + intros E. injection E as ->. apply tokenAt_spec in Ea as (H1 & H2 & H3).
      split; [done|]. split; [done|]. by apply includes_here.
    + intros E. destruct (IH E) as (H1 & H2 & H3).
      split; [done|]. split; [done|]. by apply includes_later.
Qed.

Example uploadToken_of_typical_url :
  uploadTokenOf "https://happy-otter-123.convex.cloud/api/storage/upload?token=01abc&x=1"
  = "01abc".
Proof. reflexivity. Qed.

(** ** The table: lookups, identifiers *)

Lemma find_snoc {A} (p : A -> bool) l x :
  find p l = None -> find p (l ++ [x]) = if p x then Some x else None.
Proof.
  induction l as [|y l IH]; [done|].
  cbn [find app]. destruct (p y); [done|exact IH].
Qed.

Lemma find_map_same {A} (p : A -> bool) (g : A -> A) l :
  (forall x, p (g x) = p x) ->
  find p (map g l) = option_map g (find p l).
Proof.
  intros Hg. induction l as [|y l IH]; [done|].
  cbn [find map]. rewrite Hg. destruct (p y); [done|exact IH].
Qed.

(** Identifiers are unique and below the next one. *)
Definition wellFormed (u : Uploads) : Prop :=
  NoDup (map file_id (files u))
  /\ Forall (fun f => (file_id f < nextId u)%nat) (files u).

Lemma complete_ids id now sid fs : map file_id (complete id now sid fs) = map file_id fs.
Proof.
  unfold complete. rewrite map_map. apply map_ext. intros f.
  by destruct (Nat.eqb (file_id f) id).
Qed.

Lemma complete_tokens id now sid fs :
  map file_uploadToken (complete id now sid fs) = map file_uploadToken fs.
Proof.
  unfold complete. rewrite map_map. apply map_ext. intros f.
  by destruct (Nat.eqb (file_id f) id).
Qed.

Lemma complete_other id now sid fs :
  Forall (fun f => file_id f <> id) fs -> complete id now sid fs = fs.
Proof.
  induction 1 as [|f fs Hf _ IH]; [done|].
  unfold complete in *. cbn [map]. rewrite IH.
  apply Nat.eqb_neq in Hf. by rewrite Hf.
Qed.

Lemma wellFormed_fresh u : wellFormed u -> Forall (fun f => file_id f <> nextId u) (files u).
Proof.
  intros [_ H]. eapply Forall_impl; [exact H|]. intros f Hf. cbn in Hf. lia.
Qed.

(** X17.  Round trip of an upload.  After [generateUploadUrl] has handed out
    a token that no earlier upload has, [markComplete] with that token and a
    storage identifier changes the document created by [generateUploadUrl],
    and only that one: it is now [complete] and holds the storage
    identifier.  [getFileUrlByToken] then answers what the storage gives for
    that identifier ([null] when it throws), and [getMetadata] finds the
    document when no earlier one has the same storage identifier. *)
Theorem upload_round_trip storage now1 now2 fileType fileName u uploadUrl token sid u1 :
  wellFormed u ->
  generateUploadUrl storage now1 fileType fileName u = inr ((uploadUrl, token), u1) ->
  byToken token (files u) = None ->
  JsString.truthy sid = true ->
  let u2 := markComplete now2 token (Some sid) u1 in
  let doc := mkFile (nextId u) token fileType fileName now1 "complete" (Some sid) (Some now2) in
  token = uploadTokenOf uploadUrl
  /\ files u2 = files u ++ [doc]
  /\ getFileUrlByToken storage token u2 = urlOrNull storage sid
  /\ (byStorage sid (files u) = None -> getMetadata sid u2 = Some doc).
Proof.
  intros Hwf Hg Ht Hs u2 doc. unfold generateUploadUrl in Hg.
  destruct (s_generateUploadUrl storage) as [e|url]; [discriminate|].
  injection Hg as <- <- <-.
  set (token := uploadTokenOf url) in *.
  assert (Hfiles : files u2 = files u ++ [doc]).
  { subst u2. unfold markComplete. cbn [files].
    unfold byToken at 1. rewrite find_snoc by exact Ht.
    cbn [file_uploadToken]. rewrite String.eqb_refl. cbn [files file_id].
    unfold complete. rewrite map_app. fold (complete (nextId u) now2 (Some sid) (files u)).
    rewrite (complete_other _ _ _ _ (wellFormed_fresh u Hwf)).
    cbn [map file_id]. rewrite Nat.eqb_refl.
    unfold provided, givenAgent. by rewrite Hs. }
  split; [done|]. split; [exact Hfiles|]. split.
  - unfold getFileUrlByToken. rewrite Hfiles.
    unfold byToken. rewrite find_snoc by exact Ht.
    subst doc. cbn [file_uploadToken]. rewrite String.eqb_refl.
    cbn [file_storageId]. unfold provided, givenAgent. by rewrite Hs.
  - intros Hn. unfold getMetadata. rewrite Hfiles.
    unfold byStorage. rewrite find_snoc by exact Hn.
    subst doc. cbn [file_storageId]. by rewrite String.eqb_refl.
Qed.

(** X18.  [markComplete] creates and deletes nothing: the identifiers, the
    tokens and the order of the documents stay, and so do the storage
    deletions.  With an unknown token it changes nothing at all; otherwise a
    document it changed has the identifier of the first document with that
    token and is now [complete]. *)
Theorem markComplete_frame now token sid u :
  let u' := markComplete now token sid u in
  map file_id (files u') = map file_id (files u)
  /\ map file_uploadToken (files u') = map file_uploadToken (files u)
  /\ nextId u' = nextId u
  /\ deleted u' = deleted u
  /\ match byToken token (files u) with
     | None => u' = u
     | Some first =>
         forall f', In f' (files u') ->
           In f' (files u)
           \/ (file_id f' = file_id first /\ file_status f' = "complete"
               /\ file_updatedAt f' = Some now)
     end.
Proof.
  cbv zeta. unfold markComplete.
  destruct (byToken token (files u)) as [first|]; cbn [files nextId deleted]; [|done].
  rewrite complete_ids, complete_tokens. repeat split.
  intros f' Hin. unfold complete in Hin. apply in_map_iff in Hin as (f & <- & Hf).
  destruct (Nat.eqb (file_id f) (file_id first)) eqn:E; [|by left].
  right. apply Nat.eqb_eq in E. by rewrite E.
Qed.

(** ** Cleaning up *)

Lemma filter_all {A} (P : A -> Prop) `{forall x, Decision (P x)} (l : list A) :
  Forall P l -> filter P l = l.
Proof.
  induction 1 as [|x l Hx _ IH]; [done|]. rewrite filter_cons_True by done. by rewrite IH.
Qed.

Lemma cleanFile_files storage l u :
  files (fold_left (cleanFile storage) l u)
  = filter (fun f => file_id f ∉ map file_id l) (files u).
Proof.
  revert u. induction l as [|x l IH]; intros u.
  - cbn [fold_left map]. symmetry. apply filter_all.
    apply Forall_forall. intros f _. apply not_elem_of_nil.
  - cbn [fold_left]. rewrite IH. cbn [cleanFile files]. unfold deleteDoc.
    rewrite list_filter_filter. apply list_filter_iff. intros f.
    cbn [map]. rewrite not_elem_of_cons. tauto.
Qed.

Lemma same_id_same_doc fs f g :
  NoDup (map file_id fs) -> In f fs -> In g fs -> file_id f = file_id g -> f = g.
Proof.
  induction fs as [|x fs IH]; intros Hnd Hf Hg Heq; [destruct Hf|].
  cbn [map] in Hnd. apply NoDup_cons in Hnd as [Hx Hnd].
  destruct Hf as [->|Hf], Hg as [->|Hg]; [done| | |by apply IH].
  - exfalso. apply Hx. rewrite Heq. apply list_elem_of_In. by apply in_map.
  - exfalso. apply Hx. rewrite <- Heq. apply list_elem_of_In. by apply in_map.
Qed.

Lemma filter_sublist {A} (p : A -> bool) (l : list A) : sublist (List.filter p l) l.
Proof.
  induction l as [|x l IH]; [constructor|]. cbn [List.filter].
  destruct (p x); by constructor.
Qed.

Lemma filter_iff_in {A} (P Q : A -> Prop) `{forall x, Decision (P x)}
    `{forall x, Decision (Q x)} (l : list A) :
  (forall x, x ∈ l -> P x <-> Q x) -> filter P l = filter Q l.
Proof.
  induction l as [|x l IH]; intros Hl; [done|].
  assert (Hx := Hl x (list_elem_of_here x l)).
  assert (Hrest : filter P l = filter Q l).
  { apply IH. intros y Hy. apply Hl. by right. }
  destruct (decide (P x)) as [Hp|Hp].
  - rewrite !filter_cons_True by tauto. by rewrite Hrest.
  - rewrite !filter_cons_False by tauto. exact Hrest.
Qed.

(** The documents of a table picked out by the identifiers of some of them. *)
Lemma filter_ids_sublist (pend fs : list FileDoc) :
  sublist pend fs ->
  NoDup (map file_id fs) ->
  filter (fun f => file_id f ∈ map file_id pend) fs = pend.
Proof.
  induction 1 as [|x pend fs Hsub IH|x pend fs Hsub IH]; intros Hnd.
  - done.
  - cbn [map] in Hnd. apply NoDup_cons in Hnd as [Hx Hnd].
    rewrite filter_cons_True by (cbn [map]; apply list_elem_of_here).
    f_equal. etrans; [|exact (IH Hnd)]. apply filter_iff_in.
    intros f Hf. cbn [map]. rewrite elem_of_cons.
    split; [|by right]. intros [Heq|Hin]; [|done].
    exfalso. apply Hx. rewrite <- Heq. by apply list_elem_of_fmap_2.
  - cbn [map] in Hnd. apply NoDup_cons in Hnd as [Hx Hnd].
    rewrite filter_cons_False; [by apply IH|].
    intros Hin. apply Hx.
    apply list_elem_of_fmap in Hin as (g & Hid & Hg). rewrite Hid.
    apply list_elem_of_fmap_2. by apply (elem_of_sublist pend fs g).
Qed.

Lemma length_filter_split {A} (P : A -> Prop) `{forall x, Decision (P x)} (l : list A) :
  length l = (length (filter (fun x => ~ P x) l) + length (filter P l))%nat.
Proof.
  induction l as [|x l IH]; [done|].
  destruct (decide (P x)) as [Hx|Hx].
  - rewrite (filter_cons_True P), (filter_cons_False (fun x => ~ P x)) by tauto.
    cbn [length]. lia.
  - rewrite (filter_cons_False P), (filter_cons_True (fun x => ~ P x)) by tauto.
    cbn [length]. lia.
Qed.

Lemma stale_spec now f :
  stale now f = true
  <-> file_status f = "pending" /\ (file_uploadedAt f < now - 3600000)%Z.
Proof.
  unfold stale, ONE_HOUR. rewrite andb_true_iff, String.eqb_eq, Z.ltb_lt.
  change (60 * 60 * 1000) with 3600000. tauto.
Qed.

(** X19.  [cleanupPending] reports the number of documents it deleted,
    which is at most 100.  A document is deleted only if it is [pending] and
    was uploaded more than an hour before; the others are kept as they are
    and nothing is created.  When a document that is pending and more than an
    hour old is left, 100 were deleted. *)
Theorem cleanupPending_spec storage now u :
  wellFormed u ->
  let cleaned := fst (cleanupPending storage now u) in
  let u' := snd (cleanupPending storage now u) in
  let old f := file_status f = "pending" /\ (file_uploadedAt f < now - 3600000)%Z in
  (cleaned <= 100)%nat
  /\ length (files u) = (length (files u') + cleaned)%nat
  /\ (forall f, In f (files u') -> In f (files u))
  /\ (forall f, In f (files u) -> ~ In f (files u') -> old f)
  /\ ((exists f, In f (files u') /\ old f) -> cleaned = 100%nat).
Proof.
  intros [Hnd Hlt]. cbv zeta. unfold cleanupPending. cbn [fst snd].
  set (pend := take CLEANUP_BATCH (List.filter (stale now) (files u))).
  assert (Hsub : sublist pend (files u)).
  { subst pend. etrans; [apply sublist_take | apply filter_sublist]. }
  assert (Hpend : forall g, In g pend -> In g (files u) /\ stale now g = true).
  { intros g Hg. subst pend. apply list_elem_of_In, elem_of_take in Hg as (i & Hg & _).
    apply list_elem_of_lookup_2, list_elem_of_In, filter_In in Hg. exact Hg. }
  split; [subst pend; rewrite length_take; unfold CLEANUP_BATCH; lia|].
  rewrite cleanFile_files.
  split; [|split; [|split]].
  - rewrite (length_filter_split (fun f => file_id f ∈ map file_id pend) (files u)).
    by rewrite (filter_ids_sublist pend (files u) Hsub Hnd).
  - intros f Hf. apply list_elem_of_In, list_elem_of_filter in Hf as [_ Hf].
    by apply list_elem_of_In.
  - intros f Hf Hgone. apply stale_spec.
    destruct (decide (file_id f ∈ map file_id pend)) as [Hin|Hout].
    + apply list_elem_of_fmap in Hin as (g & Hid & Hg). apply list_elem_of_In in Hg.
      destruct (Hpend g Hg) as [Hg1 Hg2].
      by rewrite (same_id_same_doc (files u) f g Hnd Hf Hg1 Hid).
    + exfalso. apply Hgone. apply list_elem_of_In, list_elem_of_filter.
      split; [exact Hout | by apply list_elem_of_In].
  - intros (f & Hf & Hold). apply stale_spec in Hold.
    apply list_elem_of_In, list_elem_of_filter in Hf as [Hnot Hf].
    apply list_elem_of_In in Hf.
    destruct (decide (length (List.filter (stale now) (files u)) <= 100)%nat) as [Hfew|Hmany].
    + exfalso. apply Hnot. apply list_elem_of_fmap_2, list_elem_of_In. subst pend.
      rewrite take_ge by (unfold CLEANUP_BATCH; lia). apply filter_In. by split.
    + subst pend. rewrite length_take. unfold CLEANUP_BATCH. lia.
Qed.

Lemma find_In {A} (p : A -> bool) l x : find p l = Some x -> In x l /\ p x = true.
Proof. apply find_some. Qed.

(** X21.  When the storage refuses the deletion, [remove] throws and writes
    nothing.  Otherwise the blob is deleted and, of the table, exactly the
    first document with that storage identifier goes, if there is one. *)
Theorem remove_spec storage storageId u :
  wellFormed u ->
  match remove storage storageId u with
  | inl e => s_deleteFailure storage storageId = Some e
  | inr u' =>
      s_deleteFailure storage storageId = None
      /\ deleted u' = deleted u ++ [storageId]
      /\ nextId u' = nextId u
      /\ match byStorage storageId (files u) with
         | None => files u' = files u
         | Some file =>
             file_storageId file = Some storageId
             /\ forall f, In f (files u') <-> In f (files u) /\ f <> file
         end
  end.
Proof.
  intros [Hnd _]. unfold remove.
  destruct (s_deleteFailure storage storageId); [done|].
  split; [done|]. split; [done|]. split; [done|]. cbn [files].
  destruct (byStorage storageId (files u)) as [file|] eqn:E; [|done].
  apply find_In in E as [Hin Hs]. split.
  - destruct (file_storageId file) as [s|]; [|done]. apply String.eqb_eq in Hs. by subst.
  - intros f. unfold deleteDoc. rewrite <- !list_elem_of_In, list_elem_of_filter.
    rewrite !list_elem_of_In. split.
    + intros [Hid Hf]. split; [exact Hf|]. intros ->. by apply Hid.
    + intros [Hf Hne]. split; [|exact Hf]. intros Hid. apply Hne.
      by apply (same_id_same_doc (files u)).
Qed.

(** ** A storage and a table to run on *)

Definition sampleStorage : Storage :=
  mkStorage
    (inr "https://files.example.com/upload?token=tok-1&expires=60")
    (fun id => if String.eqb id "blob-9" then inl (mkExn "Error" "No such file")
               else inr (Some ("https://files.example.com/get/" +:+ id)))
    (fun id => if String.eqb id "blob-locked" then Some (mkExn "Error" "Locked") else None).

Definition noUploads : Uploads := mkUploads [] 0 [].

Lemma noUploads_wellFormed : wellFormed noUploads.
Proof. split; constructor. Qed.

(** An old pending upload, a complete one, a recent pending one, and an old
    pending one whose blob cannot be deleted. *)
Definition someUploads : Uploads :=
  mkUploads
    [mkFile 0 "tok-a" "image/png" (Some "a.png") 1000 "pending" None None;
     mkFile 1 "tok-b" "application/pdf" None 2000 "complete" (Some "blob-1") (Some 2500);
     mkFile 2 "tok-c" "image/png" None 9000000 "pending" None None;
     mkFile 3 "tok-d" "image/png" None 3000 "pending" (Some "blob-locked") None]
    4 [].

Lemma someUploads_wellFormed : wellFormed someUploads.
Proof.
  split.
  - apply (bool_decide_unpack _). vm_compute. exact I.
  - repeat constructor.
Qed.

Lemma upload_round_trip_witness :
  wellFormed noUploads
  /\ JsString.truthy "blob-7" = true
  /\ exists u1,
       generateUploadUrl sampleStorage 100 "image/png" (Some "cat.png") noUploads
       = inr (("https://files.example.com/upload?token=tok-1&expires=60", "tok-1"), u1)
       /\ files (markComplete 200 "tok-1" (Some "blob-7") u1)
          = [mkFile 0 "tok-1" "image/png" (Some "cat.png") 100 "complete"
               (Some "blob-7") (Some 200)]
       /\ getFileUrlByToken sampleStorage "tok-1" (markComplete 200 "tok-1" (Some "blob-7") u1)
          = Some "https://files.example.com/get/blob-7".
Proof.
  split; [exact noUploads_wellFormed|]. split; [reflexivity|].
  eexists. split; [reflexivity|].
  destruct (upload_round_trip sampleStorage 100 200 "image/png" (Some "cat.png") noUploads
              _ "tok-1" "blob-7" _ noUploads_wellFormed eq_refl eq_refl eq_refl)
    as (_ & Hfiles & Hurl & _).
  split; [exact Hfiles | exact Hurl].
Defined.

Lemma cleanupPending_spec_witness :
  wellFormed someUploads
  /\ cleanupPending sampleStorage 10000000 someUploads
     = (2%nat,
        mkUploads
          [mkFile 1 "tok-b" "application/pdf" None 2000 "complete" (Some "blob-1") (Some 2500);
           mkFile 2 "tok-c" "image/png" None 9000000 "pending" None None]
          4 [])
  /\ (fst (cleanupPending sampleStorage 10000000 someUploads) <= 100)%nat
  /\ length (files someUploads)
     = (length (files (snd (cleanupPending sampleStorage 10000000 someUploads)))
        + fst (cleanupPending sampleStorage 10000000 someUploads))%nat.
Proof.
  split; [exact someUploads_wellFormed|]. split; [reflexivity|].
  destruct (cleanupPending_spec sampleStorage 10000000 someUploads someUploads_wellFormed)
    as (H1 & H2 & _).
  split; [exact H1 | exact H2].
Defined.

Lemma remove_spec_witness :
  wellFormed someUploads
  /\ remove sampleStorage "blob-1" someUploads
     = inr (mkUploads
              [mkFile 0 "tok-a" "image/png" (Some "a.png") 1000 "pending" None None;
               mkFile 2 "tok-c" "image/png" None 9000000 "pending" None None;
               mkFile 3 "tok-d" "image/png" None 3000 "pending" (Some "blob-locked") None]
              4 ["blob-1"])
  /\ remove sampleStorage "blob-locked" someUploads = inl (mkExn "Error" "Locked")
  /\ match remove sampleStorage "blob-1" someUploads with
     | inl e => s_deleteFailure sampleStorage "blob-1" = Some e
     | inr u' => deleted u' = deleted someUploads ++ ["blob-1"]
     end.
Proof.
  split; [exact someUploads_wellFormed|]. split; [reflexivity|]. split; [reflexivity|].
  pose proof (remove_spec sampleStorage "blob-1" someUploads someUploads_wellFormed) as H.
  destruct (remove sampleStorage "blob-1" someUploads) as [e|u']; [exact H|].
  exact (proj1 (proj2 H)).
Defined.

End FileUploads.

(** ** Concrete runs of the further properties *)

Lemma builtins_always_loaded_witness :
  loadTools registryWorld None initial = (inr (toolsOfRun unscopedRun), snd unscopedRun)
  /\ In ("web_fetch", WebFetch) builtinTools
  /\ toolsOfRun unscopedRun !! "web_fetch" = Some (BuiltinTool WebFetch).
Proof.
  assert (Hin : In ("web_fetch", WebFetch) builtinTools) by in_list.
  split; [exact unscopedRun_eq|]. split; [exact Hin|].
  exact (builtins_always_loaded registryWorld None initial _ _ "web_fetch" WebFetch
           unscopedRun_eq Hin).
Defined.

(** The registry with three agents, one of them out of order, a record for
    the first agent, and lists that may fail to be read. *)
Definition withTeam (w : World) (agents : list AgentDoc) (chat : ChatEnv)
    (failure : Query -> option Exn) : World :=
  mkWorld (w_now w) (w_jsonParse w) (w_newUrl w) (w_env w) (w_fetch w)
    (w_checkSecurity w) (w_truncateForLog w) (w_runAction w) (w_mutationFailure w)
    (fun _ => failure)
    (w_agentSkillIds w) (w_agentMcpIds w) (w_skillsActiveApproved w)
    (w_mcpEnabledApproved w) agents (w_providers w) (w_rateLimit w) chat.

Definition team : list AgentDoc :=
  [mkAgentDoc "agent-1" "Main" "idle";
   mkAgentDoc "agent-2" "Research Bot" "idle";
   mkAgentDoc "agent-3" "Broken" "error"].

Definition mainRecord : AgentRecord :=
  mkAgentRecord "agent-1" "Main" None (Some "You are Main.") None
    "claude-sonnet-4-20250514" "anthropic".

Definition teamChat : ChatEnv :=
  mkChatEnv (fun id => if String.eqb id "agent-1" then Some mainRecord else None)
    None (fun _ => None) (fun _ => None) (fun _ _ => None)
    (fun _ => inr "thread-1") (fun _ _ => inr (mkGenResult "Hello!" []))
    (fun _ => inr "I see an image.") (fun _ => false) (fun s => inr s) (fun s => s).

Definition teamWorld : World := withTeam registryWorld team teamChat (fun _ => None).

Definition teamRun : (Exn + ToolSet) * State :=
  Eval vm_compute in loadTools teamWorld (Some "agent-1") initial.

Lemma teamRun_eq :
  loadTools teamWorld (Some "agent-1") initial = (inr (toolsOfRun teamRun), snd teamRun).
Proof. exact (eq_refl teamRun). Qed.

Lemma peer_tools_are_peers_witness :
  loadTools teamWorld (Some "agent-1") initial = (inr (toolsOfRun teamRun), snd teamRun)
  /\ toolsOfRun teamRun !! "ask_agent_Research_Bot"
     = Some (AgentTool "agent-1" "agent-2" "Research Bot")
  /\ toolsOfRun teamRun !! "ask_agent_Broken" = None
  /\ toolsOfRun teamRun !! "ask_agent_Main" = None
  /\ exists peer,
       In peer (w_agentsList teamWorld)
       /\ ag_id peer = "agent-2"
       /\ ag_name peer = "Research Bot"
       /\ "agent-2" <> "agent-1"
       /\ ag_status peer <> "error"
       /\ "ask_agent_Research_Bot" = peerToolName peer.
Proof.
  split; [exact teamRun_eq|]. split; [reflexivity|]. split; [reflexivity|].
  split; [reflexivity|].
  exact (proj2 (peer_tools_are_peers teamWorld (Some "agent-1") initial _ _
                  "ask_agent_Research_Bot" "agent-1" "agent-2" "Research Bot"
                  teamRun_eq eq_refl)).
Defined.

Definition unavailable : Exn := mkExn "Error" "The list is unavailable".

(** The lists of servers and of agents cannot be read. *)
Definition noListsWorld : World :=
  withTeam registryWorld team teamChat
    (fun q => match q with
              | QMcpEnabledApproved | QAgentsList => Some unavailable
              | _ => None
              end).

Lemma noLists_prelude h q :
  isLoaderPrelude q = true -> w_queryFailure noListsWorld h q = None.
Proof. by destruct q. Qed.

Lemma loadTools_returns_witness :
  (forall h q, isLoaderPrelude q = true -> w_queryFailure noListsWorld h q = None)
  /\ w_queryFailure noListsWorld [] QMcpEnabledApproved = Some unavailable
  /\ exists ts new,
       loadTools noListsWorld (Some "agent-1") initial
       = (inr ts, mkState (trace initial ++ new) (db initial)).
Proof.
  split; [exact noLists_prelude|]. split; [reflexivity|].
  exact (loadTools_returns noListsWorld (Some "agent-1") initial noLists_prelude).
Defined.

(** A page that answers, and one that does not in time. *)
Definition pageUrl : string := "https://example.com/data".

Definition parsePageUrl (j : json) : option Url :=
  match j with
  | JStr u => if String.eqb u pageUrl then Some (mkUrl "https:" "example.com") else None
  | _ => None
  end.

Definition pageWorld : World :=
  sampleWorld noParse parsePageUrl
    (fun r => inr (mkResponse true 200 "OK" [("content-type", "text/plain")]
                     (req_url r) "hello"))
    true [] [] [] [] (fun _ => true).

Definition aborted : Exn := mkExn "AbortError" "This operation was aborted".

Definition slowWorld : World :=
  sampleWorld noParse parsePageUrl (fun _ => inl aborted) true [] [] [] [] (fun _ => true).

Definition pageArgs : WebFetchArgs :=
  mkWebFetchArgs pageUrl None
    (Some [("User-Agent", "curl/8.5"); ("Accept", "text/plain")]) None (Some 5000).


Lemma webFetch_answer_witness :
  w_newUrl pageWorld (JStr (wf_url pageArgs)) = Some (mkUrl "https:" "example.com")
  /\ httpUrl (mkUrl "https:" "example.com")
  /\ exists v body,
       webFetchHandler pageWorld pageArgs initial
       = (inr v,
          mkState (trace initial ++ webFetchPrelude pageArgs
                     ++ [EvFetch (webFetchRequest pageArgs); EvClearTimeout]) (db initial))
       /\ Js.optProp "success" (Some v) = Some (JBool true)
       /\ Js.optProp "truncated" (Some v) = Some (JBool false)
       /\ Js.optProp "body" (Some v) = Some (JStr body)
       /\ body = "hello".
Proof.
  assert (Hp : httpUrl (mkUrl "https:" "example.com")) by (by right).
  split; [reflexivity|]. split; [exact Hp|].
  destruct (webFetch_answer pageWorld pageArgs initial _ _ eq_refl Hp eq_refl)
    as (v & body & E & _ & _ & H1 & _ & H3 & H4 & H5 & _).
  exists v, body. split; [exact E|]. split; [exact H1|]. split; [exact H3|].
  split; [exact H4|]. exact H5.
Defined.

Lemma webFetch_failure_witness :
  w_newUrl slowWorld (JStr (wf_url pageArgs)) = Some (mkUrl "https:" "example.com")
  /\ httpUrl (mkUrl "https:" "example.com")
  /\ w_fetch slowWorld (trace initial ++ webFetchPrelude pageArgs) (webFetchRequest pageArgs)
     = inl aborted
  /\ exists message,
       fst (webFetchHandler slowWorld pageArgs initial)
       = inr (webFetchFailure "Request timeout" message).
Proof.
  assert (Hp : httpUrl (mkUrl "https:" "example.com")) by (by right).
  split; [reflexivity|]. split; [exact Hp|]. split; [reflexivity|].
  destruct (webFetch_failure slowWorld pageArgs initial _ aborted eq_refl Hp eq_refl)
    as (error & message & new & E & _ & _ & ->).
  exists message. by rewrite E.
Defined.

Lemma switchModel_switches_witness :
  In "openai" (w_providers openWorld)
  /\ exists message,
       switchModel openWorld "openai" "gpt-4o" initial
       = (inr (mkSwitchResult true message (Some "unknown") (Some "gpt-4o")),
          mkState (trace initial ++ switchEvents (db initial) "openai" "gpt-4o")
            (applyMutation (switchEntry (db initial) "openai" "gpt-4o")
               (applyMutation (switchUpdate "openai" "gpt-4o") (db initial)))).
Proof.
  assert (Hin : In "openai" (w_providers openWorld)) by in_list.
  split; [exact Hin|].
  exact (switchModel_switches openWorld "openai" "gpt-4o" initial Hin eq_refl eq_refl eq_refl).
Defined.

Fixpoint repeated (c : ascii) (n : nat) : string :=
  match n with
  | O => EmptyString
  | S n' => String c (repeated c n')
  end.

Definition longArgs : SendArgs :=
  mkSendArgs (Some "thread-7") (repeated "a" 4001) "session-1" None.

Lemma longArgs_too_long : (MAX_MESSAGE_LENGTH < String.length (send_message longArgs))%nat.
Proof. apply Nat.ltb_lt. vm_compute. reflexivity. Qed.

Lemma send_too_long_witness :
  (MAX_MESSAGE_LENGTH < String.length (send_message longArgs))%nat
  /\ send openWorld longArgs initial
     = (inr (mkSendResult None (Some "Message too long. Maximum 4000 characters.")
               (Some "thread-7") None),
        mkState [EvRateLimit "publicChat" "session-1" true;
                 EvRateLimit "globalMessages" "global" true] emptyDb).
Proof.
  split; [exact longArgs_too_long|].
  exact (send_too_long openWorld longArgs initial eq_refl eq_refl longArgs_too_long).
Defined.

Lemma send_outcome_witness :
  w_rateLimit openWorld (trace initial) "publicChat" (send_sessionId helloArgs) = true
  /\ w_rateLimit openWorld
       (trace initial ++ [EvRateLimit "publicChat" (send_sessionId helloArgs) true])
       "globalMessages" "global" = true
  /\ exists r st',
       send openWorld helloArgs initial = (inr r, st')
       /\ match res_error r with
          | Some _ =>
              res_response r = None
              /\ res_threadId r = send_threadId helloArgs
              /\ res_toolCalls r = None
          | None => answered helloArgs r st'
          end.
Proof.
  split; [reflexivity|]. split; [reflexivity|].
  exact (send_outcome openWorld helloArgs initial eq_refl eq_refl).
Defined.

Definition teamAgentRun : (Exn + Agent) * State :=
  Eval vm_compute in createDynamicAgent teamWorld (Some "agent-1") initial.

Definition agentOfRun (r : (Exn + Agent) * State) : Agent :=
  match fst r with
  | inr agent => agent
  | inl _ => mkAgent "" "" ∅
  end.

Lemma teamAgentRun_eq :
  createDynamicAgent teamWorld (Some "agent-1") initial
  = (inr (agentOfRun teamAgentRun), snd teamAgentRun).
Proof. exact (eq_refl teamAgentRun). Qed.

Lemma createDynamicAgent_tools_witness :
  createDynamicAgent teamWorld (Some "agent-1") initial
  = (inr (agentOfRun teamAgentRun), snd teamAgentRun)
  /\ toolScope teamWorld (Some "agent-1") = Some "agent-1"
  /\ agent_name (agentOfRun teamAgentRun) = "Main"
  /\ loadedFor teamWorld (toolScope teamWorld (Some "agent-1"))
       (agent_tools (agentOfRun teamAgentRun)).
Proof.
  split; [exact teamAgentRun_eq|]. split; [reflexivity|]. split; [reflexivity|].
  exact (proj1 (createDynamicAgent_tools teamWorld (Some "agent-1") initial _ _
                  teamAgentRun_eq)).
Defined.

(** A server whose key is in the environment. *)
Definition keyedServer : McpServer :=
  mkServer "mcp-4" "vault" (Some docsUrl) (Some "VAULT_API_KEY").

Definition keyedWorld : World :=
  mkWorld (w_now registryWorld) (w_jsonParse registryWorld) (w_newUrl registryWorld)
    (fun var => if String.eqb var "VAULT_API_KEY" then Some "s3cret" else None)
    (w_fetch registryWorld) (w_checkSecurity registryWorld)
    (w_truncateForLog registryWorld) (w_runAction registryWorld)
    (w_mutationFailure registryWorld) (w_queryFailure registryWorld)
    (w_agentSkillIds registryWorld) (w_agentMcpIds registryWorld)
    [] [keyedServer] [] (w_providers registryWorld) (w_rateLimit registryWorld)
    quietChat.

Definition keyedRun : (Exn + ToolSet) * State :=
  Eval vm_compute in loadTools keyedWorld None initial.

Lemma keyedRun_eq :
  loadTools keyedWorld None initial = (inr (toolsOfRun keyedRun), snd keyedRun).
Proof. exact (eq_refl keyedRun). Qed.

Lemma mcp_tool_sends_server_key_witness :
  loadTools keyedWorld None initial = (inr (toolsOfRun keyedRun), snd keyedRun)
  /\ toolsOfRun keyedRun !! "search"
     = Some (McpTool docsUrl (namedTool "search") "vault" (Some "s3cret"))
  /\ headerGet "Authorization"
       (req_headers (mcpCallRequest docsUrl (Some "s3cret") (JStr "search") (JObj [])))
     = Some "Bearer s3cret"
  /\ exists server,
       In server (w_mcpEnabledApproved keyedWorld)
       /\ srv_name server = "vault"
       /\ Some "s3cret" = serverApiKey keyedWorld server
       /\ headerGet "Authorization" (req_headers (discoveryPost keyedWorld server docsUrl))
          = Some "Bearer s3cret".
Proof.
  split; [exact keyedRun_eq|]. split; [reflexivity|]. split; [reflexivity|].
  destruct (mcp_tool_sends_server_key keyedWorld None initial _ _ "search" docsUrl
              (namedTool "search") "vault" (Some "s3cret") keyedRun_eq eq_refl)
    as (server & H1 & _ & H3 & H4 & _ & H6 & _).
  exists server. split; [exact H1|]. split; [exact H3|]. split; [exact H4|]. exact H6.
Defined.

(** A key for the image API, and an answer that holds one image. *)
Definition imageUrlText : string := "https://img.example.com/1.png".

Definition imageText : string :=
  "{" +:+ quoted "data" +:+ ":[{" +:+ quoted "url" +:+ ":" +:+ quoted imageUrlText +:+ "}]}".

Definition imageData : json := JObj [("data", JArr [JObj [("url", JStr imageUrlText)]])].

Definition imageWorld : World :=
  mkWorld (w_now openWorld)
    (fun s => if String.eqb s imageText then inr imageData else inl syntaxError)
    (w_newUrl openWorld)
    (fun var => if String.eqb var "OPENAI_API_KEY" then Some "sk-test" else None)
    (fun _ r => if String.eqb (req_url r) IMAGE_ENDPOINT
                then inr (okResponse IMAGE_ENDPOINT imageText) else inl fetchFailed)
    (w_checkSecurity openWorld) (w_truncateForLog openWorld) (w_runAction openWorld)
    (w_mutationFailure openWorld) (w_queryFailure openWorld)
    (w_agentSkillIds openWorld) (w_agentMcpIds openWorld)
    [] [] [] (w_providers openWorld) (w_rateLimit openWorld) quietChat.

Definition showText (j : json) : string :=
  match j with JStr s => s | _ => "" end.

Definition catArgs : ImageArgs := mkImageArgs "a cat on a sofa" None None.

Lemma image_outcome_witness :
  exists new,
    imageHandler imageWorld showText catArgs initial
    = (inr (imageSuccess showText (JObj [("url", JStr imageUrlText)]) (JStr imageUrlText)),
       mkState (trace initial ++ new) (db initial))
    /\ requestsOf new = [imageRequest "sk-test" catArgs].
Proof.
  destruct (image_outcome imageWorld showText catArgs initial) as (v & new & E & H).
  assert (Hk : provided (w_env imageWorld "OPENAI_API_KEY") = Some "sk-test") by reflexivity.
  rewrite Hk in H. destruct H as (Hreq & _ & _ & _ & Hv).
  assert (Hf : w_fetch imageWorld (trace initial ++ imagePrelude catArgs)
                 (imageRequest "sk-test" catArgs)
               = inr (okResponse IMAGE_ENDPOINT imageText)) by reflexivity.
  rewrite Hf in Hv. cbn [resp_ok okResponse resp_text] in Hv.
  assert (Hp : w_jsonParse imageWorld imageText = inr imageData) by reflexivity.
  rewrite Hp in Hv.
  assert (Hi : imageItem imageData
               = inr (Some (JObj [("url", JStr imageUrlText)], JStr imageUrlText)))
    by reflexivity.
  rewrite Hi in Hv. subst v.
  exists new. by split.
Defined.
